(** * mgotools: a shallow embedding of the log-mining core

    The development follows the Go sources:
    - the query command: the aggregator of package [command] ([update],
      [Run], [values], [sort], [standardize]);
    - package [parser]: the [Check] guards of [Version34Parser],
      [Version36Parser], [Version40Parser] and [Version30SParser];
    - package [source]: the base-line tokenizer ([NewBase],
      [parseCDateString]);
    - package [mongo]: the test tables [TestParseJson], [TestParseNumber]
      and [TestPattern_NewPattern] of the JSON-ish parser and of the
      pattern canonicalizer.

    Go's [int64] and [uint] are integers of [Z] with their wrap-around
    written out, [float64] is the IEEE 754 binary64 format of the standard
    library's [SpecFloat], strings are [string], and Go maps keyed by
    strings are [gmap string _]. *)

From Stdlib Require Import ZArith Lia Bool List Ascii String SpecFloat.
From Stdlib Require Import Sorting.Permutation Sorting.Sorted.
From stdpp Require Import base list strings gmap.

Local Open Scope string_scope.
Local Open Scope list_scope.
Local Open Scope Z_scope.

(** ** Machine integers *)

Definition MaxInt64 : Z := 2 ^ 63 - 1.
Definition MinInt64 : Z := - 2 ^ 63.
Definition MaxInt32 : Z := 2 ^ 31 - 1.
Definition MinInt32 : Z := - 2 ^ 31.

(** Two's complement wrap-around of [int64] arithmetic. *)
Definition wrap64 (x : Z) : Z := (x + 2 ^ 63) mod 2 ^ 64 - 2 ^ 63.

(** Wrap-around of Go's [uint] (64 bits). *)
Definition wrapU64 (x : Z) : Z := x mod 2 ^ 64.

Definition in_int64 (x : Z) : bool := (MinInt64 <=? x) && (x <=? MaxInt64).
Definition in_int32 (x : Z) : bool := (MinInt32 <=? x) && (x <=? MaxInt32).

(** ** float64

    binary64 of IEEE 754: 53 bits of precision, [emax = 1024]. *)

Definition float64 : Type := spec_float.

Definition f64_prec : Z := 53.
Definition f64_emax : Z := 1024.

(** [float64(n)] of an integer: rounding to nearest, ties to even. *)
Definition f64_of_Z (n : Z) : float64 := binary_normalize f64_prec f64_emax n 0 false.

Definition f64_mul : float64 -> float64 -> float64 := SFmul f64_prec f64_emax.
Definition f64_div : float64 -> float64 -> float64 := SFdiv f64_prec f64_emax.
Definition f64_eqb : float64 -> float64 -> bool := SFeqb.
Definition f64_ltb : float64 -> float64 -> bool := SFltb.
Definition f64_leb : float64 -> float64 -> bool := SFleb.
Definition f64_NaN : float64 := S754_nan.
Definition f64_zero : float64 := S754_zero false.

(** The correctly rounded quotient of two integers: the binary64 value of a
    decimal constant [p / q]. [SFdiv]'s core works on any positive
    mantissas, so the operands need no rounding of their own. *)
Definition f64_of_ratio (p q : positive) : float64 :=
  f64_div (S754_finite false p 0) (S754_finite false q 0).

(** The constant [0.95] of [values]. *)
Definition f64_0_95 : float64 := f64_of_ratio 95 100.

(** The integer part of a finite float, truncated toward zero. *)
Definition f64_trunc (x : float64) : option Z :=
  match x with
  | S754_zero _ => Some 0
  | S754_finite s m e =>
      let a := if 0 <=? e then Z.pos m * 2 ^ e else Z.pos m / 2 ^ (- e) in
      Some (if s then - a else a)
  | _ => None
  end.

(** [int64(x)] and [int(x)] of a float: truncation toward zero; a value that
    does not fit (or NaN, or an infinity) gives the amd64 result
    [0x8000000000000000]. *)
Definition f64_to_int64 (x : float64) : Z :=
  match f64_trunc x with
  | Some t => if in_int64 t then t else MinInt64
  | None => MinInt64
  end.

(** ** Values of the document model ([mongo] package)

    [Object] is Go's [map[string]interface{}]: it is kept as an association
    list with unique keys, in insertion order; [Array] is
    [[]interface{}]. [VV] is the pattern sentinel [V{}]. *)

#[warnings="-register-all"]
Inductive Value : Type :=
| VNull
| VBool (b : bool)
| VInt (n : Z)
| VInt64 (n : Z)
| VDouble (f : float64)
| VString (s : string)
| VBinary (payload : string) (subtype : string)
| VRegex (pattern options : string)
| VObjectId (bytes : list Z)
| VTimestamp (t i : Z)
| VDate (raw : Value)
| VMinKey
| VMaxKey
| VUndefined
| VRef (name : string) (id : Value)
| VObject (fields : list (string * Value))
| VArray (elems : list Value)
| VV.

Definition Object : Type := list (string * Value).
Definition Array : Type := list Value.

(** Lookup by key ([o[key]] with the comma-ok form). *)
Fixpoint obj_get (k : string) (o : Object) : option Value :=
  match o with
  | [] => None
  | (k', v) :: o' => if String.eqb k k' then Some v else obj_get k o'
  end.

(** [o[key] = v]: an existing key keeps its place and takes the new
    value. *)
Fixpoint obj_set (k : string) (v : Value) (o : Object) : Object :=
  match o with
  | [] => [(k, v)]
  | (k', v') :: o' =>
      if String.eqb k k' then (k, v) :: o' else (k', v') :: obj_set k v o'
  end.

Definition obj_has (k : string) (o : Object) : bool :=
  match obj_get k o with Some _ => true | None => false end.

Definition is_object (v : Value) : bool :=
  match v with VObject _ => true | _ => false end.

(** ** Strings *)

Definition join (sep : string) (l : list string) : string :=
  match l with
  | [] => ""
  | x :: xs => fold_left (fun acc y => acc +:+ sep +:+ y) xs x
  end.

Definition has_dollar_prefix (k : string) : bool :=
  match k with
  | String c _ => Ascii.eqb c "$"%char
  | EmptyString => false
  end.

Definition str_in (k : string) (l : list string) : bool := existsb (String.eqb k) l.

(** Insertion of a keyed string into a list sorted by key (byte-wise
    lexicographic order, as Go compares strings). *)
Fixpoint insert_by_key (x : string * string) (l : list (string * string)) : list (string * string) :=
  match l with
  | [] => [x]
  | y :: l' => if String.leb (fst x) (fst y) then x :: y :: l' else y :: insert_by_key x l'
  end.

Definition sort_by_key (l : list (string * string)) : list (string * string) :=
  fold_right insert_by_key [] l.

(** ** Pattern canonicalizer ([mongo.NewPattern], [Pattern.StringCompact]) *)

Definition connectives : list string := ["$and"; "$or"; "$nor"].
Definition list_operators : list string := ["$in"; "$nin"; "$all"].
Definition geo_operators : list string :=
  ["$geoWithin"; "$geoIntersects"; "$near"; "$nearSphere"].

(** A constraint envelope: an object with at least one key, all of whose
    keys start with [$]. *)
Definition is_envelope (o : Object) : bool :=
  match o with
  | [] => false
  | _ => forallb (fun kv => has_dollar_prefix (fst kv)) o
  end.

Definition all_objects (a : Array) : bool :=
  match a with
  | [] => false
  | _ => forallb is_object a
  end.

(** The position of a value inside a filter decides its canonical form:
    the document itself, the value of a field, an element of an array,
    the operand of an operator of an envelope, a member of a geo operator,
    a member of a geo shape. *)
Inductive Position : Type :=
| PDocument
| PField (key : string)
| PElement
| PConstraint (op : string)
| PGeo (key : string)
| PLeaf (key : string).

(** The key under which a value stands, if it stands under one. *)
Definition key_of (p : Position) : string :=
  match p with
  | PField k | PConstraint k | PGeo k | PLeaf k => k
  | PDocument | PElement => ""
  end.

(** Modelled from the spec: [createPattern], the recursive walk behind
    [NewPattern], is not part of the sources at hand (only its test table
    is). The rules are those of the specification's "Pattern Canonicalizer"
    section: the value of [$in], [$nin] and [$all] collapses to [V],
    whatever it is and wherever the walk meets the operator; connectives
    keep an array whose elements are canonicalized one by one; an envelope
    keeps its operators, [$elemMatch] recurses, geo operators keep their
    keys with arrays of [V] of the outer length and [$geometry] leaves
    become [V]; an array of objects is canonicalized element-wise;
    everything else is [V]. *)
Fixpoint canonical (p : Position) (v : Value) {struct v} : Value :=
  let document (fs : Object) : Object :=
    map (fun kv => (fst kv, canonical (PField (fst kv)) (snd kv))) fs in
  if str_in (key_of p) list_operators then VV
  else
    match p with
    | PDocument =>
        match v with
        | VObject fs => VObject (document fs)
        | _ => VV
        end
    | PElement =>
        match v with
        | VObject fs => VObject (document fs)
        | VArray a => VArray (map (canonical PElement) a)
        | _ => VV
        end
    | PField k =>
        if str_in k connectives then
          match v with
          | VArray a => VArray (map (canonical PElement) a)
          | _ => VV
          end
        else
          match v with
          | VObject env =>
              if is_envelope env then
                VObject (map (fun kv => (fst kv, canonical (PConstraint (fst kv)) (snd kv))) env)
              else VV
          | VArray a =>
              if all_objects a then VArray (map (canonical PDocument) a) else VV
          | _ => VV
          end
    | PConstraint op =>
        if String.eqb op "$elemMatch" then
          match v with
          | VObject fs => VObject (document fs)
          | _ => VV
          end
        else if str_in op geo_operators then
          match v with
          | VObject gs =>
              VObject (map (fun kv => (fst kv, canonical (PGeo (fst kv)) (snd kv))) gs)
          | _ => VV
          end
        else VV
    | PGeo g =>
        if String.eqb g "$geometry" then
          match v with
          | VObject fs =>
              VObject (map (fun kv => (fst kv, canonical (PLeaf (fst kv)) (snd kv))) fs)
          | _ => VV
          end
        else
          match v with
          | VArray a => VArray (map (fun _ => VV) a)
          | _ => VV
          end
    | PLeaf _ =>
        match v with
        | VObject fs =>
            VObject (map (fun kv => (fst kv, canonical (PLeaf (fst kv)) (snd kv))) fs)
        | _ => VV
        end
    end.

Definition createPattern (o : Object) : Object :=
  map (fun kv => (fst kv, canonical (PField (fst kv)) (snd kv))) o.

Record Pattern : Type := { pattern : Object; valid : bool }.

Definition NewPattern (s : Object) : Pattern :=
  {| pattern := createPattern s; valid := true |}.

Definition IsEmpty (p : Pattern) : bool := negb (valid p).

(** Modelled from the spec: the compact string form. Keys are written
    without quotes and sorted at each level, array order is kept, and the
    sentinel is written [V]; a pattern holds no other leaf. *)
Fixpoint compact (v : Value) : string :=
  match v with
  | VV => "V"
  | VObject fs =>
      "{" +:+ join "," (map (fun kv => fst kv +:+ ":" +:+ snd kv)
                         (sort_by_key (map (fun kv => (fst kv, compact (snd kv))) fs)))
          +:+ "}"
  | VArray a => "[" +:+ join "," (map compact a) +:+ "]"
  | _ => ""
  end.

Definition StringCompact (p : Pattern) : string :=
  if valid p then compact (VObject (pattern p)) else "".

(** ** Rune reader ([internal.RuneReader])

    A cursor over the runes of a line: the text, the index of the next
    rune, and the index at which the last [SlurpWord] started. *)

Definition runes : Type := list ascii.

Record RuneReader : Type := {
  rr_runes : runes;
  rr_next : nat;
  rr_last : nat
}.

Definition NewRuneReader (s : string) : RuneReader :=
  {| rr_runes := list_ascii_of_string s; rr_next := 0; rr_last := 0 |}.

(** The runes from the cursor on. *)
Definition upcoming (r : RuneReader) : runes := drop (rr_next r) (rr_runes r).

Definition Pos (r : RuneReader) : nat := rr_next r.

(** [Seek(pos, 0)]: an absolute position, clamped to the text. *)
Definition Seek (pos : nat) (r : RuneReader) : RuneReader :=
  {| rr_runes := rr_runes r; rr_next := Nat.min pos (length (rr_runes r)); rr_last := rr_last r |}.

Definition EOL (r : RuneReader) : bool := Nat.leb (length (rr_runes r)) (rr_next r).

(** The double quote. *)
Definition dquote : ascii := ascii_of_nat 34.

Definition is_space (c : ascii) : bool :=
  let n := nat_of_ascii c in
  Nat.eqb n 32 || (Nat.leb 9 n && Nat.leb n 13) || Nat.eqb n 133 || Nat.eqb n 160.

Definition is_digit (c : ascii) : bool :=
  let n := nat_of_ascii c in Nat.leb 48 n && Nat.leb n 57.

Definition is_letter (c : ascii) : bool :=
  let n := nat_of_ascii c in
  (Nat.leb 65 n && Nat.leb n 90) || (Nat.leb 97 n && Nat.leb n 122).

Definition is_hex (c : ascii) : bool :=
  let n := nat_of_ascii c in
  is_digit c || (Nat.leb 65 n && Nat.leb n 70) || (Nat.leb 97 n && Nat.leb n 102).

(** Skips a run of leading whitespace. *)
Fixpoint chomp (l : runes) : runes :=
  match l with
  | c :: l' => if is_space c then chomp l' else l
  | [] => []
  end.

(** The longest prefix of runes that satisfy [p], and the rest. *)
Fixpoint span (p : ascii -> bool) (l : runes) : runes * runes :=
  match l with
  | c :: l' => if p c then let '(w, r) := span p l' in (c :: w, r) else ([], l)
  | [] => ([], [])
  end.

(** Modelled from the spec: [SlurpWord] skips leading whitespace, returns
    the next whitespace-delimited token and moves past it; it reports
    [false] at the end of the line. The start is remembered for
    [RewindSlurpWord]. *)
Definition SlurpWord (r : RuneReader) : RuneReader * (string * bool) :=
  let rest := chomp (upcoming r) in
  match rest with
  | [] =>
      ({| rr_runes := rr_runes r; rr_next := length (rr_runes r); rr_last := rr_next r |},
       ("", false))
  | _ =>
      let '(w, after) := span (fun c => negb (is_space c)) rest in
      ({| rr_runes := rr_runes r;
          rr_next := (length (rr_runes r) - length after)%nat;
          rr_last := rr_next r |},
       (string_of_list_ascii w, true))
  end.

Definition RewindSlurpWord (r : RuneReader) : RuneReader :=
  {| rr_runes := rr_runes r; rr_next := rr_last r; rr_last := rr_last r |}.

(** Modelled from the spec: [PreviewWord(n)] is the [n]-th upcoming word,
    read without moving the cursor; the empty string when there is none. *)
Fixpoint PreviewWord (n : nat) (r : RuneReader) : string :=
  match n with
  | O => ""
  | S O => fst (snd (SlurpWord r))
  | S n' => PreviewWord n' (fst (SlurpWord r))
  end.

(** [ExpectRune] tests the next rune; the callers move the cursor
    themselves ([Skip], [EnclosedString], the document parser). *)
Definition ExpectRune (c : ascii) (r : RuneReader) : bool :=
  match upcoming r with
  | c' :: _ => Ascii.eqb c c'
  | [] => false
  end.

Definition ExpectSpace (r : RuneReader) : bool :=
  match upcoming r with
  | c :: _ => is_space c
  | [] => false
  end.

Definition Next (r : RuneReader) : RuneReader :=
  {| rr_runes := rr_runes r;
     rr_next := Nat.min (S (rr_next r)) (length (rr_runes r));
     rr_last := rr_last r |}.

(** [Remainder] returns the upcoming text and leaves the cursor at the end
    of the line. *)
Definition Remainder (r : RuneReader) : RuneReader * string :=
  ({| rr_runes := rr_runes r; rr_next := length (rr_runes r); rr_last := rr_last r |},
   string_of_list_ascii (upcoming r)).

(** Modelled from the spec: [EnclosedString(close, false)] skips leading
    whitespace and returns the runes from the opening rune up to and
    including the matching [close], or fails when the line ends first. *)
Definition EnclosedString (close : ascii) (r : RuneReader) : option (RuneReader * string) :=
  let '(body, after) := span (fun c => negb (Ascii.eqb c close)) (chomp (upcoming r)) in
  match after with
  | c :: after' =>
      Some ({| rr_runes := rr_runes r;
               rr_next := (length (rr_runes r) - length after')%nat;
               rr_last := rr_last r |},
            string_of_list_ascii (body ++ [c]))
  | [] => None
  end.

(** ** JSON-ish document parser ([mongo.ParseJson], [parseNumber])

    Modelled from the spec: the parser itself is not part of the sources at
    hand; its grammar is the one of the specification's "JSON-ish Document
    Parser" section, and its treatment of the two modes is fixed by the
    tables of [TestParseJson] and [TestParseNumber], which are. *)

Inductive ParseError : Type :=
| PrematureEOL
| UnterminatedString
| UnterminatedRegex
| UnterminatedArray
| UnterminatedObject
| UnexpectedCharacter
| BadNumber
| BadEscape
| DuplicateKey
| ForbiddenInStrict
| FuelExhausted.

Inductive result (A : Type) : Type :=
| Ok (a : A)
| Err (e : ParseError).

Arguments Ok {A} a.
Arguments Err {A} e.

Definition bind {A B : Type} (c : result A) (k : A -> result B) : result B :=
  match c with
  | Ok a => k a
  | Err e => Err e
  end.

Notation "x <- c ;; k" := (bind c (fun x => k))
  (at level 100, c at next level, right associativity).

Definition is_ok {A : Type} (c : result A) : bool :=
  match c with Ok _ => true | Err _ => false end.

(** What a parse met of the relaxed grammar: a bareword key, a
    single-quoted string, a constructor, a key given twice. *)
Record Uses : Type := {
  u_bareword : bool;
  u_squote : bool;
  u_constructor : bool;
  u_duplicate : bool
}.

Definition no_uses : Uses :=
  {| u_bareword := false; u_squote := false; u_constructor := false; u_duplicate := false |}.

Definition merge (a b : Uses) : Uses :=
  {| u_bareword := u_bareword a || u_bareword b;
     u_squote := u_squote a || u_squote b;
     u_constructor := u_constructor a || u_constructor b;
     u_duplicate := u_duplicate a || u_duplicate b |}.

Definition plain (u : Uses) : bool :=
  negb (u_bareword u) && negb (u_squote u) && negb (u_constructor u) && negb (u_duplicate u).

Definition use_bareword : Uses :=
  {| u_bareword := true; u_squote := false; u_constructor := false; u_duplicate := false |}.
Definition use_squote : Uses :=
  {| u_bareword := false; u_squote := true; u_constructor := false; u_duplicate := false |}.
Definition use_constructor : Uses :=
  {| u_bareword := false; u_squote := false; u_constructor := true; u_duplicate := false |}.
Definition use_duplicate : Uses :=
  {| u_bareword := false; u_squote := false; u_constructor := false; u_duplicate := true |}.

(** *** Strings *)

Definition unescape (c : ascii) : option ascii :=
  if Ascii.eqb c dquote then Some c
  else if Ascii.eqb c "'"%char then Some c
  else if Ascii.eqb c "\"%char then Some c
  else if Ascii.eqb c "/"%char then Some c
  else if Ascii.eqb c "b"%char then Some (ascii_of_nat 8)
  else if Ascii.eqb c "f"%char then Some (ascii_of_nat 12)
  else if Ascii.eqb c "n"%char then Some (ascii_of_nat 10)
  else if Ascii.eqb c "r"%char then Some (ascii_of_nat 13)
  else if Ascii.eqb c "t"%char then Some (ascii_of_nat 9)
  else None.

(** The body of a string, read after its opening quote, up to the closing
    quote [q]. *)
Fixpoint scanString (q : ascii) (inp : runes) : result (runes * runes) :=
  match inp with
  | [] => Err UnterminatedString
  | c :: rest =>
      if Ascii.eqb c q then Ok ([], rest)
      else if Ascii.eqb c "\"%char then
        match rest with
        | [] => Err UnterminatedString
        | e :: rest' =>
            match unescape e with
            | Some c' => res1 <- scanString q rest' ;; let '(s, r) := res1 in Ok (c' :: s, r)
            | None => Err BadEscape
            end
        end
      else res2 <- scanString q rest ;; let '(s, r) := res2 in Ok (c :: s, r)
  end.

Definition parseString (q : ascii) (inp : runes) : result (string * runes) :=
  res3 <- scanString q inp ;; let '(s, r) := res3 in Ok (string_of_list_ascii s, r).

(** *** Regular expressions: [/pattern/flags], read after the first
    slash; an escaped rune is kept with its backslash. *)
Fixpoint scanRegex (inp : runes) : result (runes * runes) :=
  match inp with
  | [] => Err UnterminatedRegex
  | c :: rest =>
      if Ascii.eqb c "/"%char then Ok ([], rest)
      else if Ascii.eqb c "\"%char then
        match rest with
        | [] => Err UnterminatedRegex
        | e :: rest' => res4 <- scanRegex rest' ;; let '(s, r) := res4 in Ok (c :: e :: s, r)
        end
      else res5 <- scanRegex rest ;; let '(s, r) := res5 in Ok (c :: s, r)
  end.

Definition parseRegex (inp : runes) : result (Value * runes) :=
  res6 <- scanRegex inp ;;
  let '(p, r) := res6 in
  let '(flags, r') := span is_letter r in
  Ok (VRegex (string_of_list_ascii p) (string_of_list_ascii flags), r').

(** *** Numbers *)

Definition digit_value (c : ascii) : Z := Z.of_nat (nat_of_ascii c) - 48.

Definition digits_value (ds : runes) : Z :=
  fold_left (fun acc d => 10 * acc + digit_value d) ds 0.

(** The binary64 value nearest to [m * 10 ^ e10], signed. *)
Definition f64_of_decimal (neg : bool) (m e10 : Z) : float64 :=
  match m with
  | Z.pos p =>
      if 0 <=? e10 then
        binary_round f64_prec f64_emax neg (Z.to_pos (Z.pos p * 10 ^ e10)) 0
      else
        f64_div (S754_finite neg p 0) (S754_finite false (Z.to_pos (10 ^ (- e10))) 0)
  | _ => S754_zero neg
  end.

(** An integer token is tried as a 32-bit integer, then as a 64-bit one. *)
Definition integer_value (v : Z) : result Value :=
  if in_int32 v then Ok (VInt v)
  else if in_int64 v then Ok (VInt64 v)
  else Err BadNumber.

Definition is_exp_mark (c : ascii) : bool :=
  Ascii.eqb c "e"%char || Ascii.eqb c "E"%char.

(** The exponent part, read after [e] or [E]. *)
Definition scanExponent (inp : runes) : result (Z * runes) :=
  let '(eneg, inp1) :=
    match inp with
    | c :: rest =>
        if Ascii.eqb c "-"%char then (true, rest)
        else if Ascii.eqb c "+"%char then (false, rest)
        else (false, inp)
    | [] => (false, inp)
    end in
  let '(ds, inp2) := span is_digit inp1 in
  match ds with
  | [] => Err BadNumber
  | _ => Ok (if eneg then - digits_value ds else digits_value ds, inp2)
  end.

(** The fraction part, read after the point. *)
Definition scanFraction (inp : runes) : result (runes * runes) :=
  let '(ds, inp1) := span is_digit inp in
  match ds with
  | [] => Err BadNumber
  | _ => Ok (ds, inp1)
  end.

(** An optional leading rune: whether it is there, and the text after
    it. *)
Definition scanOptional (p : ascii -> bool) (inp : runes) : bool * runes :=
  match inp with
  | c :: rest => if p c then (true, rest) else (false, inp)
  | [] => (false, inp)
  end.

Definition is_minus (c : ascii) : bool := Ascii.eqb c "-"%char.
Definition is_point (c : ascii) : bool := Ascii.eqb c "."%char.

Definition parseNumberRunes (inp : runes) : result (Value * runes) :=
  let '(neg, inp0) := scanOptional is_minus inp in
  let '(ints, inp1) := span is_digit inp0 in
  match ints with
  | [] => Err BadNumber
  | _ =>
      let '(point, inp1') := scanOptional is_point inp1 in
      res7 <- (if point then scanFraction inp1' else Ok ([], inp1)) ;;
      let '(frac, inp2) := res7 in
      let '(emark, inp2') := scanOptional is_exp_mark inp2 in
      res8 <- (if emark then scanExponent inp2' else Ok (0, inp2)) ;;
      let '(e, inp3) := res8 in
      if point || emark then
        Ok (VDouble (f64_of_decimal neg (digits_value (ints ++ frac))
                                    (e - Z.of_nat (length frac))), inp3)
      else
        v <- integer_value (if neg then - digits_value ints else digits_value ints) ;;
        Ok (v, inp3)
  end.

(** [parseNumber] on a reader: the value and the reader moved past the
    token. *)
Definition parseNumber (r : RuneReader) : result (Value * RuneReader) :=
  res9 <- parseNumberRunes (upcoming r) ;;
  let '(v, rest) := res9 in
  Ok (v, {| rr_runes := rr_runes r;
            rr_next := (length (rr_runes r) - length rest)%nat;
            rr_last := rr_last r |}).

(** *** Keys, constructors, keywords *)

Definition is_key_start (c : ascii) : bool :=
  is_letter c || Ascii.eqb c "$"%char || Ascii.eqb c "_"%char.

Definition is_key_rune (c : ascii) : bool := is_key_start c || is_digit c.

(** A key: a double-quoted string in both modes; a single-quoted string or
    a bareword in relaxed mode only. *)
Definition parseKey (strict : bool) (inp : runes) : result (string * Uses * runes) :=
  match inp with
  | [] => Err PrematureEOL
  | c :: rest =>
      if Ascii.eqb c dquote then
        res <- parseString c rest ;;
        let '(k, r) := res in Ok (k, no_uses, r)
      else if Ascii.eqb c "'"%char then
        if strict then Err ForbiddenInStrict
        else
          res <- parseString c rest ;;
          let '(k, r) := res in Ok (k, use_squote, r)
      else if is_key_start c then
        if strict then Err ForbiddenInStrict
        else
          let '(w, r) := span is_key_rune inp in
          Ok (string_of_list_ascii w, use_bareword, r)
      else Err UnexpectedCharacter
  end.

(** [expect w inp]: the input after the prefix [w], if it starts with it. *)
Fixpoint expect (w : runes) (inp : runes) : option runes :=
  match w with
  | [] => Some inp
  | c :: w' =>
      match inp with
      | c' :: inp' => if Ascii.eqb c c' then expect w' inp' else None
      | [] => None
      end
  end.

Definition hex_value (c : ascii) : Z :=
  let n := Z.of_nat (nat_of_ascii c) in
  if is_digit c then n - 48
  else if n <=? 70 then n - 55
  else n - 87.

Fixpoint hex_bytes (l : runes) : list Z :=
  match l with
  | h :: l0 :: l' => (16 * hex_value h + hex_value l0) :: hex_bytes l'
  | _ => []
  end.

(** An ObjectId from its hexadecimal text: twelve bytes from 24 digits,
    twelve zero bytes from 26 digits, nothing otherwise. *)
Definition objectid_of_hex (h : runes) : option Value :=
  if Nat.eqb (length h) 24 then Some (VObjectId (hex_bytes h))
  else if Nat.eqb (length h) 26 then Some (VObjectId (repeat 0 12))
  else None.

(** The constructor [objectid(<hex>)], read from its first rune. *)
Definition parseConstructor (inp : runes) : result (Value * runes) :=
  match expect (list_ascii_of_string "objectid(") inp with
  | Some r =>
      let '(h, r') := span is_hex r in
      match r' with
      | c :: r'' =>
          if Ascii.eqb c ")"%char then
            match objectid_of_hex h with
            | Some v => Ok (v, r'')
            | None => Err UnexpectedCharacter
            end
          else Err UnexpectedCharacter
      | [] => Err PrematureEOL
      end
  | None => Err UnexpectedCharacter
  end.

Definition parseKeyword (inp : runes) : result (Value * runes) :=
  match expect (list_ascii_of_string "true") inp with
  | Some r => Ok (VBool true, r)
  | None =>
      match expect (list_ascii_of_string "false") inp with
      | Some r => Ok (VBool false, r)
      | None =>
          match expect (list_ascii_of_string "null") inp with
          | Some r => Ok (VNull, r)
          | None => Err UnexpectedCharacter
          end
      end
  end.

(** *** Extended types ([parseDataType])

    An object that is exactly one of the wrapper shapes is replaced by the
    value it stands for; any other object is kept. Dates and binary
    payloads keep the text they were written with. *)

Definition is_hex_string (s : string) : bool := forallb is_hex (list_ascii_of_string s).

Definition as_integer (v : Value) : option Z :=
  match v with
  | VInt n | VInt64 n => Some n
  | VString s =>
      match parseNumberRunes (list_ascii_of_string s) with
      | Ok (VInt n, []) | Ok (VInt64 n, []) => Some n
      | _ => None
      end
  | _ => None
  end.

Definition as_double (v : Value) : option float64 :=
  match v with
  | VDouble f => Some f
  | VInt n | VInt64 n => Some (f64_of_Z n)
  | VString s =>
      match parseNumberRunes (list_ascii_of_string s) with
      | Ok (VDouble f, []) => Some f
      | Ok (VInt n, []) | Ok (VInt64 n, []) => Some (f64_of_Z n)
      | _ => None
      end
  | _ => None
  end.

Definition parseDataType (o : Object) : Value :=
  let keep := VObject o in
  match o with
  | [(k, v)] =>
      if String.eqb k "$oid" then
        match v with
        | VString h =>
            if is_hex_string h && Nat.eqb (String.length h) 24
            then VObjectId (hex_bytes (list_ascii_of_string h)) else keep
        | _ => keep
        end
      else if String.eqb k "$date" then
        match v with
        | VString _ | VInt _ | VInt64 _ => VDate v
        | _ => keep
        end
      else if String.eqb k "$timestamp" then
        match v with
        | VObject ti =>
            match obj_get "t" ti, obj_get "i" ti with
            | Some t, Some i =>
                match as_integer t, as_integer i with
                | Some t', Some i' =>
                    if Nat.eqb (length ti) 2 then VTimestamp t' i' else keep
                | _, _ => keep
                end
            | _, _ => keep
            end
        | _ => keep
        end
      else if String.eqb k "$regex" then
        match v with VString p => VRegex p "" | _ => keep end
      else if String.eqb k "$numberLong" then
        match as_integer v with Some n => VInt64 n | None => keep end
      else if String.eqb k "$numberDecimal" then
        match as_double v with Some f => VDouble f | None => keep end
      else if String.eqb k "$undefined" then
        match v with VBool true => VUndefined | _ => keep end
      else if String.eqb k "$minKey" then
        match v with VInt 1 => VMinKey | _ => keep end
      else if String.eqb k "$maxKey" then
        match v with VInt 1 => VMaxKey | _ => keep end
      else keep
  | [_; _] =>
      match obj_get "$regex" o, obj_get "$options" o with
      | Some (VString p), Some (VString f) => VRegex p f
      | _, _ =>
          match obj_get "$binary" o, obj_get "$type" o with
          | Some (VString b), Some (VString t) => VBinary b t
          | _, _ =>
              match obj_get "$ref" o, obj_get "$id" o with
              | Some (VString n), Some id => VRef n id
              | _, _ => keep
              end
          end
      end
  | _ => keep
  end.

(** *** Values, objects, arrays *)

(** Storing a member: a key given twice keeps the last value in relaxed
    mode and is an error in strict mode. *)
Definition store (strict : bool) (k : string) (v : Value) (o : Object) : result (Object * Uses) :=
  if obj_has k o then
    if strict then Err DuplicateKey else Ok (obj_set k v o, use_duplicate)
  else Ok (obj_set k v o, no_uses).

Fixpoint parseValue (fuel : nat) (strict : bool) (inp : runes) {struct fuel}
  : result (Value * Uses * runes) :=
  match fuel with
  | O => Err FuelExhausted
  | S fuel' =>
      match inp with
      | [] => Err PrematureEOL
      | c :: rest =>
          if Ascii.eqb c "{"%char then
            res <- parseMembers fuel' strict [] no_uses true rest ;;
            let '(o, u, r) := res in Ok (parseDataType o, u, r)
          else if Ascii.eqb c "["%char then
            res <- parseElements fuel' strict [] no_uses true rest ;;
            let '(a, u, r) := res in Ok (VArray a, u, r)
          else if Ascii.eqb c dquote then
            res <- parseString c rest ;;
            let '(s, r) := res in Ok (VString s, no_uses, r)
          else if Ascii.eqb c "'"%char then
            if strict then Err ForbiddenInStrict
            else
              res <- parseString c rest ;;
              let '(s, r) := res in Ok (VString s, use_squote, r)
          else if Ascii.eqb c "/"%char then
            res <- parseRegex rest ;;
            let '(v, r) := res in Ok (v, no_uses, r)
          else if is_digit c || Ascii.eqb c "-"%char then
            res <- parseNumberRunes inp ;;
            let '(v, r) := res in Ok (v, no_uses, r)
          else if Ascii.eqb c "o"%char then
            if strict then Err ForbiddenInStrict
            else
              res <- parseConstructor inp ;;
              let '(v, r) := res in Ok (v, use_constructor, r)
          else
            res <- parseKeyword inp ;;
            let '(v, r) := res in Ok (v, no_uses, r)
      end
  end

(** The members of an object, read after [{] ([first]) or after a comma. *)
with parseMembers (fuel : nat) (strict : bool) (acc : Object) (u : Uses)
                  (first : bool) (inp : runes) {struct fuel}
  : result (Object * Uses * runes) :=
  match fuel with
  | O => Err FuelExhausted
  | S fuel' =>
      match chomp inp with
      | [] => Err UnterminatedObject
      | c :: rest =>
          if Ascii.eqb c "}"%char then
            if first then Ok (acc, u, rest) else Err UnexpectedCharacter
          else
            res <- parseKey strict (c :: rest) ;;
            let '(k, uk, inp1) := res in
            match chomp inp1 with
            | [] => Err UnterminatedObject
            | c1 :: inp2 =>
                if Ascii.eqb c1 ":"%char then
                  res <- parseValue fuel' strict (chomp inp2) ;;
                  let '(v, uv, inp3) := res in
                  res <- store strict k v acc ;;
                  let '(acc', ud) := res in
                  let u' := merge u (merge uk (merge uv ud)) in
                  match chomp inp3 with
                  | [] => Err UnterminatedObject
                  | c2 :: inp4 =>
                      if Ascii.eqb c2 ","%char then
                        parseMembers fuel' strict acc' u' false inp4
                      else if Ascii.eqb c2 "}"%char then Ok (acc', u', inp4)
                      else Err UnexpectedCharacter
                  end
                else Err UnexpectedCharacter
            end
      end
  end

(** The elements of an array, read after [[] ([first]) or after a comma. *)
with parseElements (fuel : nat) (strict : bool) (acc : Array) (u : Uses)
                   (first : bool) (inp : runes) {struct fuel}
  : result (Array * Uses * runes) :=
  match fuel with
  | O => Err FuelExhausted
  | S fuel' =>
      match chomp inp with
      | [] => Err UnterminatedArray
      | c :: rest =>
          if Ascii.eqb c "]"%char && first then Ok (acc, u, rest)
          else
            res <- parseValue fuel' strict (c :: rest) ;;
            let '(v, uv, inp1) := res in
            let acc' := (acc ++ [v])%list in
            let u' := merge u uv in
            match chomp inp1 with
            | [] => Err UnterminatedArray
            | c1 :: inp2 =>
                if Ascii.eqb c1 ","%char then
                  parseElements fuel' strict acc' u' false inp2
                else if Ascii.eqb c1 "]"%char then Ok (acc', u', inp2)
                else Err UnexpectedCharacter
            end
      end
  end.

(** A document: an object, read from its opening brace. A nested value
    costs at most two units of fuel for each rune it uses up, so twice the
    length of the input is fuel enough. *)
Definition parseDocument (strict : bool) (inp : runes) : result (Object * Uses * runes) :=
  match inp with
  | [] => Err PrematureEOL
  | c :: rest =>
      if Ascii.eqb c "{"%char then parseMembers (2 * length inp) strict [] no_uses true rest
      else Err UnexpectedCharacter
  end.

(** The document with what the parse met, and the text left after it.
    Strict mode takes the whole text; relaxed mode leaves what follows the
    document, after its trailing whitespace, to the caller. *)
Definition parseJsonTraced (strict : bool) (inp : runes) : result (Object * Uses * runes) :=
  res <- parseDocument strict inp ;;
  let '(o, u, rest) := res in
  if strict then
    match rest with
    | [] => Ok (o, u, rest)
    | _ => Err UnexpectedCharacter
    end
  else Ok (o, u, chomp rest).

Definition ParseJsonRunes (r : RuneReader) (strict : bool) : result (Object * RuneReader) :=
  res <- parseJsonTraced strict (upcoming r) ;;
  let '(o, _, rest) := res in
  Ok (o, {| rr_runes := rr_runes r;
            rr_next := (length (rr_runes r) - length rest)%nat;
            rr_last := rr_last r |}).

Definition ParseJson (json : string) (strict : bool) : result Object :=
  res <- ParseJsonRunes (NewRuneReader json) strict ;;
  Ok (fst res).

(** ** Base lines ([record.Base]) and the tokenizer ([source.Log.NewBase]) *)

Inductive Severity : Type :=
| SeverityNone
| SeverityD
| SeverityE
| SeverityF
| SeverityI
| SeverityW.

Definition severity_is_none (s : Severity) : bool :=
  match s with SeverityNone => true | _ => false end.

(** [record.Base]; the older parsers name the severity field
    [RawSeverity]. *)
Record Base : Type := {
  reader : RuneReader;
  LineNumber : Z;
  RawDate : string;
  CString : bool;
  Severity_ : Severity;
  RawComponent : string;
  RawContext : string;
  RawMessage : string
}.

Definition set_reader (r : RuneReader) (b : Base) : Base :=
  {| reader := r; LineNumber := LineNumber b; RawDate := RawDate b; CString := CString b;
     Severity_ := Severity_ b; RawComponent := RawComponent b; RawContext := RawContext b;
     RawMessage := RawMessage b |}.

Definition set_date (d : string) (c : bool) (b : Base) : Base :=
  {| reader := reader b; LineNumber := LineNumber b; RawDate := d; CString := c;
     Severity_ := Severity_ b; RawComponent := RawComponent b; RawContext := RawContext b;
     RawMessage := RawMessage b |}.

Definition set_severity (s : Severity) (b : Base) : Base :=
  {| reader := reader b; LineNumber := LineNumber b; RawDate := RawDate b; CString := CString b;
     Severity_ := s; RawComponent := RawComponent b; RawContext := RawContext b;
     RawMessage := RawMessage b |}.

Definition set_component (c : string) (b : Base) : Base :=
  {| reader := reader b; LineNumber := LineNumber b; RawDate := RawDate b; CString := CString b;
     Severity_ := Severity_ b; RawComponent := c; RawContext := RawContext b;
     RawMessage := RawMessage b |}.

Definition set_context (c : string) (b : Base) : Base :=
  {| reader := reader b; LineNumber := LineNumber b; RawDate := RawDate b; CString := CString b;
     Severity_ := Severity_ b; RawComponent := RawComponent b; RawContext := c;
     RawMessage := RawMessage b |}.

Definition set_message (m : string) (b : Base) : Base :=
  {| reader := reader b; LineNumber := LineNumber b; RawDate := RawDate b; CString := CString b;
     Severity_ := Severity_ b; RawComponent := RawComponent b; RawContext := RawContext b;
     RawMessage := m |}.

(** The word predicates of package [internal] that the tokenizer calls.
    Their code is not part of the sources at hand: the tokenizer is
    embedded over any implementation of them. *)
Class WordClasses : Type := {
  IsDay : string -> bool;
  IsMonth : string -> bool;
  IsNumeric : string -> bool;
  IsTime : string -> bool;
  IsIso8601String : string -> bool
}.

(** Modelled from the spec: a severity is one of the letters [F], [E],
    [W], [I], [D] ([record.NewSeverity]). *)
Definition NewSeverity (part : string) : Severity * bool :=
  if String.eqb part "D" then (SeverityD, true)
  else if String.eqb part "E" then (SeverityE, true)
  else if String.eqb part "F" then (SeverityF, true)
  else if String.eqb part "I" then (SeverityI, true)
  else if String.eqb part "W" then (SeverityW, true)
  else (SeverityNone, false).

(** Modelled from the spec: components come from a closed set
    ([record.IsComponent]); the set is the one the 4.0 parser lists. *)
Definition IsComponent (part : string) : bool :=
  str_in part
    ["ACCESS"; "ACCESSCONTROL"; "ASIO"; "BRIDGE"; "COMMAND"; "CONNPOOL"; "CONTROL";
     "DEFAULT"; "EXECUTOR"; "FTDC"; "GEO"; "HEARTBEATS"; "INDEX"; "JOURNAL"; "NETWORK";
     "QUERY"; "REPL"; "REPL_HB"; "REPLICATION"; "ROLLBACK"; "SHARDING"; "STORAGE";
     "TOTAL"; "TRACKING"; "WRITE"; "-"].

Inductive BaseError : Type :=
| ErrorParsingDate
| ErrorMissingContext.

(** The loop of [parseCDateString]: up to [n] words, stopping at the first
    failed [SlurpWord]; the slots not reached stay empty. *)
Fixpoint slurp_words (n : nat) (r : RuneReader) : RuneReader * list string :=
  match n with
  | O => (r, [])
  | S n' =>
      let '(r1, (w, ok)) := SlurpWord r in
      if ok then
        let '(r2, ws) := slurp_words n' r1 in (r2, w :: ws)
      else (r1, w :: repeat "" n')
  end.

Definition word (i : nat) (target : list string) : string := nth i target "".

(** [part[0] == '['] *)
Definition has_bracket (part : string) : bool :=
  match part with
  | String c _ => Ascii.eqb c "["%char
  | EmptyString => false
  end.

Section Tokenizer.
Context {W : WordClasses}.

(** [parseCDateString]: only the last case of the [switch] has a body. *)
Definition parseCDateString (r : Base) : Base * string :=
  let start := Pos (reader r) in
  let '(rd, target) := slurp_words 4 (reader r) in
  let r1 := set_reader rd r in
  let joined := join " " target in
  if negb (IsDay (word 0 target)) then (r1, joined)
  else if negb (IsMonth (word 1 target)) then (r1, joined)
  else if negb (IsNumeric (word 2 target)) then (r1, joined)
  else if negb (IsTime (word 3 target)) then (set_reader (Seek start rd) r1, "")
  else (r1, joined).

(** The date prefix of [NewBase]. *)
Definition readDate (base : Base) : Base :=
  if IsDay (PreviewWord 1 (reader base)) then
    let '(b, d) := parseCDateString base in set_date d true b
  else if IsIso8601String (PreviewWord 1 (reader base)) then
    let '(rd, (w, _)) := SlurpWord (reader base) in
    set_date w false (set_reader rd base)
  else base.

(** The loop over the four slots that may precede the message. *)
Fixpoint readSlots (n : nat) (base : Base) : Base :=
  match n with
  | O => base
  | S n' =>
      let '(rd, (part, ok)) := SlurpWord (reader base) in
      let b := set_reader rd base in
      if ok then
        let try_component (b : Base) : Base :=
          if String.eqb (RawComponent b) "" && IsComponent part then
            readSlots n' (set_component part b)
          else if String.eqb (RawContext b) "" && has_bracket part then
            let b1 := set_reader (RewindSlurpWord (reader b)) b in
            match EnclosedString "]"%char (reader b1) with
            | Some (rd', ctx) => readSlots n' (set_context ctx (set_reader rd' b1))
            | None => set_reader (RewindSlurpWord (reader b1)) b1
            end
          else set_reader (RewindSlurpWord (reader b)) b in
        if severity_is_none (Severity_ b) && String.eqb (RawComponent b) ""
           && String.eqb (RawContext b) "" then
          let '(sev, found) := NewSeverity part in
          if found then readSlots n' (set_severity sev b) else try_component b
        else try_component b
      else readSlots n' b
  end.

(** Skips the whitespace under the cursor ([for base.Expect(unicode.Space)
    { base.Next() }]). *)
Definition skipSpaces (r : RuneReader) : RuneReader :=
  {| rr_runes := rr_runes r;
     rr_next := (length (rr_runes r) - length (chomp (upcoming r)))%nat;
     rr_last := rr_last r |}.

Definition NewBase (line : string) (num : Z) : Base * option BaseError :=
  let base0 :=
    {| reader := NewRuneReader line; LineNumber := num; RawDate := ""; CString := false;
       Severity_ := SeverityNone; RawComponent := ""; RawContext := ""; RawMessage := "" |} in
  let base1 := readDate base0 in
  if EOL (reader base1) || String.eqb (RawDate base1) "" then (base1, Some ErrorParsingDate)
  else
    let base2 :=
      if ExpectRune "["%char (reader base1) then
        let b :=
          match EnclosedString "]"%char (reader base1) with
          | Some (rd, ctx) => set_context ctx (set_reader rd base1)
          | None => base1
          end in
        set_reader (skipSpaces (reader b)) b
      else readSlots 4 base1 in
    if String.eqb (RawContext base2) "" then (base2, Some ErrorMissingContext)
    else
      let pos := Pos (reader base2) in
      let '(rd, msg) := Remainder (reader base2) in
      (set_reader (Seek pos rd) (set_message msg base2), None).

End Tokenizer.

(** ** The [Check] guards of the version parsers *)

(** [Version34Parser.Check] *)
Definition Version34Parser_Check (base : Base) : bool :=
  negb (CString base) && negb (severity_is_none (Severity_ base))
  && negb (String.eqb (RawComponent base) "").

(** [Version30SParser.Check] *)
Definition Version30SParser_Check (base : Base) : bool :=
  negb (CString base) && negb (severity_is_none (Severity_ base))
  && negb (String.eqb (RawComponent base) "").

(** [Version36Parser.Check] *)
Definition Version36Parser_Check (base : Base) : bool :=
  negb (severity_is_none (Severity_ base)) && negb (String.eqb (RawComponent base) "").

(** [Version40Parser.Check] *)
Definition Version40Parser_Check (base : Base) : bool :=
  negb (severity_is_none (Severity_ base)) && negb (String.eqb (RawComponent base) "").

(** ** Messages ([parser/message]) *)

(** The message variants, with the fields the query command reads. A
    [CRUD] wraps a message and carries the filter document. *)
Inductive Message : Type :=
| Command (Namespace : string) (Command_ : string) (Duration : Z)
| CommandLegacy (Namespace : string) (Command_ : string) (Duration : Z)
| Operation (Namespace : string) (Operation_ : string) (Duration : Z)
| OperationLegacy (Namespace : string) (Operation_ : string) (Duration : Z)
| Control
| Network
| Storage
| Unparsed
| CRUD (inner : Message) (Filter : Object).

(** The type assertion [entry.Message.(message.CRUD)]. *)
Definition as_CRUD (m : Message) : option (Message * Object) :=
  match m with
  | CRUD inner filter => Some (inner, filter)
  | _ => None
  end.

Record Entry : Type := {
  entry_base : Base;
  entry_Message : Message
}.

(** ** The query command *)

Definition sortNamespace : Z := 0.
Definition sortOperation : Z := 1.
Definition sortPattern : Z := 2.
Definition sortCount : Z := 3.
Definition sortMin : Z := 4.
Definition sortMax : Z := 5.
Definition sortN95 : Z := 6.
Definition sortSum : Z := 7.

Definition N95MaxSamples : Z := 16 * 1024 * 1024.

Module formatting.

(** A row of the table ([formatting.Pattern]). *)
Record Pattern : Type := {
  Namespace : string;
  Operation : string;
  Pattern_ : string;
  Count : Z;
  Min : Z;
  Max : Z;
  N95Percentile : float64;
  Sum : Z
}.

End formatting.

(** [queryPattern]: the row, and the samples of the bucket. [make] gives
    the slice the capacity [N95MaxSamples] and the length zero; the
    capacity takes no part in what [append] and [len] compute, and the
    mutex is never taken. *)
Record queryPattern : Type := {
  row : formatting.Pattern;
  cursorId : Z;
  p95 : list Z
}.

(** The external collaborators of [Run]: the per-file summary and the
    parser context that decodes a base line. *)
Class QueryEnv : Type := {
  Summary : Type;
  summary_Update : Summary -> Entry -> Summary;
  summary_has_Version : Summary -> bool;
  summary_Guess : Summary -> list string -> Summary;
  ParserContext : Type;
  NewEntry : ParserContext -> Base -> ParserContext * option Entry;
  context_Versions : ParserContext -> list string
}.

Section Query.
Context {E : QueryEnv}.

Record queryInstance : Type := {
  summary : Summary;
  sort_order : list Z;
  ErrorCount : Z;
  LineCount : Z;
  Patterns : gmap string queryPattern
}.

Definition count_line (log : queryInstance) : queryInstance :=
  {| summary := summary log; sort_order := sort_order log; ErrorCount := ErrorCount log;
     LineCount := wrapU64 (LineCount log + 1); Patterns := Patterns log |}.

Definition count_error (log : queryInstance) : queryInstance :=
  {| summary := summary log; sort_order := sort_order log;
     ErrorCount := wrapU64 (ErrorCount log + 1);
     LineCount := LineCount log; Patterns := Patterns log |}.

Definition with_summary (s : Summary) (log : queryInstance) : queryInstance :=
  {| summary := s; sort_order := sort_order log; ErrorCount := ErrorCount log;
     LineCount := LineCount log; Patterns := Patterns log |}.

Definition with_Patterns (p : gmap string queryPattern) (log : queryInstance) : queryInstance :=
  {| summary := summary log; sort_order := sort_order log; ErrorCount := ErrorCount log;
     LineCount := LineCount log; Patterns := p |}.

End Query.

(** [standardize] *)
Definition standardize (crud : Message) : string * string * Z * bool :=
  match crud with
  | Command ns cmd dur => (ns, cmd, dur, true)
  | CommandLegacy ns cmd dur => (ns, cmd, dur, true)
  | Operation ns op dur => (ns, op, dur, true)
  | OperationLegacy ns op dur => (ns, op, dur, true)
  | _ => ("", "", 0, false)
  end.

(** [update] *)
Definition update (s : queryPattern) (dur : Z) : queryPattern :=
  let r := row s in
  {| row :=
       {| formatting.Namespace := formatting.Namespace r;
          formatting.Operation := formatting.Operation r;
          formatting.Pattern_ := formatting.Pattern_ r;
          formatting.Count := wrap64 (formatting.Count r + 1);
          formatting.Min := if dur <? formatting.Min r then dur else formatting.Min r;
          formatting.Max := if formatting.Max r <? dur then dur else formatting.Max r;
          formatting.N95Percentile := formatting.N95Percentile r;
          formatting.Sum := wrap64 (formatting.Sum r + dur) |};
     cursorId := cursorId s;
     p95 := (p95 s ++ [dur])%list |}.

(** The bucket [Run] makes for a key it has not seen. *)
Definition new_bucket (ns op query : string) : queryPattern :=
  {| row :=
       {| formatting.Namespace := ns;
          formatting.Operation := op;
          formatting.Pattern_ := query;
          formatting.Count := 0;
          formatting.Min := MaxInt64;
          formatting.Max := 0;
          formatting.N95Percentile := f64_zero;
          formatting.Sum := 0 |};
     cursorId := 0;
     p95 := [] |}.

Definition to_lower (c : ascii) : ascii :=
  let n := nat_of_ascii c in
  if Nat.leb 65 n && Nat.leb n 90 then ascii_of_nat (n + 32) else c.

(** Modelled from the spec: [internal.StringToLower] lower-cases the
    operation; the letters A to Z are lowered, every other character is
    kept. *)
Definition StringToLower (s : string) : string :=
  string_of_list_ascii (map to_lower (list_ascii_of_string s)).

Definition counted_operations : list string :=
  ["find"; "count"; "update"; "getmore"; "remove"; "findandmodify"; "geonear"].

Section Run.
Context {E : QueryEnv}.

(** The aggregation of one CRUD message: the part of the loop body after
    the type assertion. *)
Definition aggregate (crud : Message) (filter : Object) (log : queryInstance) : queryInstance :=
  let pattern := NewPattern filter in
  let query := StringCompact pattern in
  let '(ns, op, dur, ok) := standardize crud in
  if negb ok then count_error log
  else
    let op := StringToLower op in
    if negb (str_in op counted_operations) then log
    else if negb (String.eqb op "") && negb (String.eqb query "") then
      let key := ns +:+ ":" +:+ op +:+ ":" +:+ query in
      let bucket :=
        match Patterns log !! key with
        | Some b => b
        | None => new_bucket ns op query
        end in
      with_Patterns (<[key := update bucket dur]> (Patterns log)) log
    else log.

(** One turn of the loop of [Run]. *)
Definition Run_step (st : ParserContext * queryInstance) (base : Base)
  : ParserContext * queryInstance :=
  let '(context, log0) := st in
  let log := count_line log0 in
  if String.eqb (RawMessage base) "" then (context, count_error log)
  else
    match NewEntry context base with
    | (context', None) => (context', count_error log)
    | (context', Some entry) =>
        let log1 := with_summary (summary_Update (summary log) entry) log in
        match as_CRUD (entry_Message entry) with
        | None => (context', log1)
        | Some (crud, filter) => (context', aggregate crud filter log1)
        end
    end.

(** [Run] over the lines of the source. *)
Definition Run (context : ParserContext) (log : queryInstance) (input : list Base)
  : ParserContext * queryInstance :=
  let '(context', log') := fold_left Run_step input (context, log) in
  if summary_has_Version (summary log') then (context', log')
  else (context', with_summary (summary_Guess (summary log') (context_Versions context')) log').

End Run.

(** ** [sort.Slice]

    The Go library's sort is modelled by its insertion sort, which is all
    it runs on a slice of fewer than twelve elements: each element in turn
    moves toward the front while [less] puts it before its left
    neighbour. *)

(** [sink less x front]: [x] moves into [front], which is kept in reverse
    (nearest neighbour first). *)
Fixpoint sink {A : Type} (less : A -> A -> bool) (x : A) (front : list A) : list A :=
  match front with
  | [] => [x]
  | y :: front' => if less x y then y :: sink less x front' else x :: front
  end.

Definition sort_Slice {A : Type} (less : A -> A -> bool) (l : list A) : list A :=
  rev (fold_left (fun front x => sink less x front) l []).

(** ** [values] and [sort] *)

Definition with_N95 (f : float64) (r : formatting.Pattern) : formatting.Pattern :=
  {| formatting.Namespace := formatting.Namespace r;
     formatting.Operation := formatting.Operation r;
     formatting.Pattern_ := formatting.Pattern_ r;
     formatting.Count := formatting.Count r;
     formatting.Min := formatting.Min r;
     formatting.Max := formatting.Max r;
     formatting.N95Percentile := f;
     formatting.Sum := formatting.Sum r |}.

(** [s[i]] of a slice: [None] stands for the run-time panic of an index
    out of range. *)
Definition at_index (s : list Z) (i : Z) : option Z :=
  if i <? 0 then None else s !! Z.to_nat i.

(** The position [float64(len) * 0.95]. *)
Definition p95_index (n : Z) : float64 := f64_mul (f64_of_Z n) f64_0_95.

(** The body of the loop of [values] for one bucket: the samples are
    sorted by [<=], then the percentile is read from them. *)
Definition value_of (pattern : queryPattern) : option formatting.Pattern :=
  let samples := sort_Slice Z.leb (p95 pattern) in
  let n := Z.of_nat (length samples) in
  if 1 <? n then
    let index := p95_index n in
    if f64_eqb (f64_of_Z (f64_to_int64 index)) index then
      match at_index samples (f64_to_int64 index) with
      | Some v => Some (with_N95 (f64_of_Z v) (row pattern))
      | None => None
      end
    else if f64_ltb (f64_of_Z 1) index then
      match at_index samples (f64_to_int64 index - 1), at_index samples (f64_to_int64 index) with
      | Some a, Some b =>
          Some (with_N95 (f64_div (f64_of_Z (wrap64 (a + b))) (f64_of_Z 2)) (row pattern))
      | _, _ => None
      end
    else Some (with_N95 f64_NaN (row pattern))
  else Some (row pattern).

(** [values]: one row per bucket, in the order the map is walked. *)
Definition values (patterns : gmap string queryPattern) : option (list formatting.Pattern) :=
  mapM (fun kv => value_of (snd kv)) (map_to_list patterns).

(** Whether two rows agree on the field of a tag, and what the comparator
    returns when they do not. A tag outside the eight constants matches no
    case of the [switch]: the loop moves on. *)
Definition field_equal (field : Z) (a b : formatting.Pattern) : bool :=
  if field =? sortNamespace then String.eqb (formatting.Namespace a) (formatting.Namespace b)
  else if field =? sortOperation then String.eqb (formatting.Operation a) (formatting.Operation b)
  else if field =? sortPattern then String.eqb (formatting.Pattern_ a) (formatting.Pattern_ b)
  else if field =? sortSum then formatting.Sum a =? formatting.Sum b
  else if field =? sortN95 then f64_eqb (formatting.N95Percentile a) (formatting.N95Percentile b)
  else if field =? sortMax then formatting.Max a =? formatting.Max b
  else if field =? sortMin then formatting.Min a =? formatting.Min b
  else if field =? sortCount then formatting.Count a =? formatting.Count b
  else true.

Definition field_order (field : Z) (a b : formatting.Pattern) : bool :=
  if field =? sortNamespace then String.ltb (formatting.Namespace a) (formatting.Namespace b)
  else if field =? sortOperation then String.ltb (formatting.Operation a) (formatting.Operation b)
  else if field =? sortPattern then String.ltb (formatting.Pattern_ a) (formatting.Pattern_ b)
  else if field =? sortSum then formatting.Sum b <=? formatting.Sum a
  else if field =? sortN95 then f64_leb (formatting.N95Percentile b) (formatting.N95Percentile a)
  else if field =? sortMax then formatting.Max b <=? formatting.Max a
  else if field =? sortMin then formatting.Min b <=? formatting.Min a
  else if field =? sortCount then formatting.Count b <=? formatting.Count a
  else true.

(** The comparator that [sort] hands to [sort.Slice]. *)
Fixpoint less (order : list Z) (a b : formatting.Pattern) : bool :=
  match order with
  | [] => true
  | field :: order' =>
      if field_equal field a b then less order' a b else field_order field a b
  end.

(** [sort] *)
Definition sort (vs : list formatting.Pattern) (order : list Z) : list formatting.Pattern :=
  sort_Slice (less order) vs.

(** The sort chain [Prepare] starts from. *)
Definition default_order : list Z := [sortSum; sortNamespace; sortOperation; sortPattern].

Section Finish.
Context {E : QueryEnv}.

(** [Finish], up to printing: the rows of the table in their final
    order. *)
Definition Finish (log : queryInstance) : option (list formatting.Pattern) :=
  match values (Patterns log) with
  | Some vs => Some (sort vs (sort_order log))
  | None => None
  end.

End Finish.

(** ** [Prepare] *)

(** The names of the sort options and their tags. *)
Definition sortOptions : list (string * Z) :=
  [("namespace", sortNamespace); ("operation", sortOperation); ("pattern", sortPattern);
   ("count", sortCount); ("min", sortMin); ("max", sortMax); ("95%", sortN95);
   ("sum", sortSum)].

(** [val, ok := sortOptions[opt]] *)
Definition sort_option (opt : string) : option Z :=
  snd <$> List.find (fun kv => String.eqb opt (fst kv)) sortOptions.

(** The loop of [Prepare] over the options: each known one is appended to
    the chain, the first unknown one ends the loop with an error. *)
Fixpoint add_sort_options (opts : list string) (order : list Z) : list Z * bool :=
  match opts with
  | [] => (order, true)
  | opt :: opts' =>
      match sort_option opt with
      | Some val => add_sort_options opts' (order ++ [val])
      | None => (order, false)
      end
  end.

Section Prepare.
Context {E : QueryEnv}.
Variable NewSummary : string -> Summary.

(** [Prepare] for one instance: the instance it stores, and whether it
    returns without an error. [opts] is the sort argument as
    [internal.ArgumentSplit] hands it over. *)
Definition Prepare (name : string) (opts : list string) : queryInstance * bool :=
  let '(order, ok) := add_sort_options opts default_order in
  ({| summary := NewSummary name; sort_order := order; ErrorCount := 0; LineCount := 0;
      Patterns := ∅ |}, ok).

End Prepare.

(** ** The components the version parsers expect *)

(** [Version34Parser.isExpectedComponent] *)
Definition Version34Parser_isExpectedComponent (c : string) : bool :=
  str_in c
    ["ACCESS"; "ACCESSCONTROL"; "ASIO"; "BRIDGE"; "COMMAND"; "CONTROL"; "DEFAULT";
     "EXECUTOR"; "FTDC"; "GEO"; "INDEX"; "JOURNAL"; "NETWORK"; "QUERY"; "REPL";
     "REPLICATION"; "SHARDING"; "STORAGE"; "TOTAL"; "TRACKING"; "WRITE"; "-"].

(** [Version36Parser.expectedComponents] *)
Definition Version36Parser_expectedComponents (c : string) : bool :=
  str_in c
    ["ACCESS"; "ACCESSCONTROL"; "ASIO"; "BRIDGE"; "COMMAND"; "CONTROL"; "DEFAULT";
     "EXECUTOR"; "FTDC"; "GEO"; "HEARTBEATS"; "INDEX"; "JOURNAL"; "NETWORK"; "QUERY";
     "REPL"; "REPL_HB"; "REPLICATION"; "ROLLBACK"; "SHARDING"; "STORAGE"; "TOTAL";
     "TRACKING"; "WRITE"; "-"].

(** [Version40Parser.expectedComponents] *)
Definition Version40Parser_expectedComponents (c : string) : bool :=
  str_in c
    ["ACCESS"; "ACCESSCONTROL"; "ASIO"; "BRIDGE"; "COMMAND"; "CONNPOOL"; "CONTROL";
     "DEFAULT"; "EXECUTOR"; "FTDC"; "GEO"; "HEARTBEATS"; "INDEX"; "JOURNAL"; "NETWORK";
     "QUERY"; "REPL"; "REPL_HB"; "REPLICATION"; "ROLLBACK"; "SHARDING"; "STORAGE";
     "TOTAL"; "TRACKING"; "WRITE"; "-"].

(** ** The log source ([source.Log]) *)

(** [io.Closer]: [Close] acts on the state of the underlying file and may
    report an error. *)
Class Closer (C : Type) : Type := Closer_Close : C -> C * option string.

Module source.

(** The errors a line comes with: those of [NewBase], or [io.EOF]. *)
Inductive LogError : Type :=
| ErrorBase (e : BaseError)
| EOF.

Definition is_EOF (e : option LogError) : bool :=
  match e with Some EOF => true | _ => false end.

(** [Log]. The scanner is held by pointer: it is the lines it has yet to
    yield, and every copy of the [Log] reads from the same one. [next] is
    [None] for the zero value [record.Base{}]. *)
Record Log (C : Type) : Type := {
  Closer_ : C;
  Scanner : list string;
  next : option Base;
  error : option LogError;
  closed : bool;
  eof : bool;
  line : Z
}.

Arguments Closer_ {C} l.
Arguments Scanner {C} l.
Arguments next {C} l.
Arguments error {C} l.
Arguments closed {C} l.
Arguments eof {C} l.
Arguments line {C} l.

Section Log.
Context {W : WordClasses} {C : Type} {closer : Closer C}.

(** [NewLog], given the lines that the scanner of [makeScanner] yields
    (the text of the file, unzipped if it is gzipped). *)
Definition NewLog (base : C) (lines : list string) : Log C :=
  {| Closer_ := base; Scanner := lines; next := None; error := None;
     closed := false; eof := false; line := 0 |}.

Definition isClosed (f : Log C) : bool := closed f.

(** [get] has a value receiver: it works on a copy of the [Log], so the
    line count it adds to is the copy's, and only the scanner, which is
    shared, moves. It returns the scanner, the base and the error. *)
Definition get (f : Log C) : list string * (option Base * option LogError) :=
  if negb (eof f) && negb (isClosed f) then
    match Scanner f with
    | text :: rest =>
        let line' := wrapU64 (line f + 1) in
        let '(base, err) := NewBase text line' in
        (rest, (Some base, ErrorBase <$> err))
    | [] => ([], (None, Some EOF))
    end
  else (Scanner f, (None, Some EOF)).

(** [Next] *)
Definition Next (f : Log C) : Log C * bool :=
  let '(scanner, (base, err)) := get f in
  ({| Closer_ := Closer_ f; Scanner := scanner; next := base; error := err;
      closed := closed f; eof := eof f; line := line f |},
   negb (is_EOF err)).

(** [Get] *)
Definition Get (f : Log C) : option Base * option LogError := (next f, error f).

(** [Close] *)
Definition Close (f : Log C) : Log C * option string :=
  if negb (closed f) then
    let '(c, err) := Closer_Close (Closer_ f) in
    ({| Closer_ := c; Scanner := Scanner f; next := next f; error := error f;
        closed := true; eof := eof f; line := line f |}, err)
  else (f, None).

(** The loop [for f.Next() { ... f.Get() ... }] of a reader of the log:
    the lines it sees, and the log it leaves. *)
Fixpoint read_all (fuel : nat) (f : Log C) : Log C * list (option Base * option LogError) :=
  match fuel with
  | O => (f, [])
  | S fuel' =>
      let '(f1, more) := Next f in
      if more then
        let '(f2, seen) := read_all fuel' f1 in (f2, Get f1 :: seen)
      else (f1, [])
  end.

End Log.

End source.

(** ** Sample collaborators

    Concrete implementations of the interfaces above, on which the
    statements below are run. *)

Definition is_time (s : string) : bool :=
  match list_ascii_of_string s with
  | [h1; h2; c1; m1; m2; c2; s1; s2] =>
      is_digit h1 && is_digit h2 && Ascii.eqb c1 ":"%char && is_digit m1 && is_digit m2
      && Ascii.eqb c2 ":"%char && is_digit s1 && is_digit s2
  | _ => false
  end.

Definition is_numeric (s : string) : bool :=
  match list_ascii_of_string s with
  | [] => false
  | l => forallb is_digit l
  end.

Definition is_iso8601 (s : string) : bool :=
  match list_ascii_of_string s with
  | y1 :: y2 :: y3 :: y4 :: d1 :: m1 :: m2 :: d2 :: a1 :: a2 :: t :: _ =>
      forallb is_digit [y1; y2; y3; y4; m1; m2; a1; a2]
      && Ascii.eqb d1 "-"%char && Ascii.eqb d2 "-"%char && Ascii.eqb t "T"%char
  | _ => false
  end.

#[export] Instance calendar : WordClasses := {
  IsDay := fun s => str_in s ["Sun"; "Mon"; "Tue"; "Wed"; "Thu"; "Fri"; "Sat"];
  IsMonth := fun s =>
    str_in s ["Jan"; "Feb"; "Mar"; "Apr"; "May"; "Jun"; "Jul"; "Aug"; "Sep"; "Oct"; "Nov"; "Dec"];
  IsNumeric := is_numeric;
  IsTime := is_time;
  IsIso8601String := is_iso8601
}.

(** A context that decodes every line to a fixed message, and a summary
    that counts its updates. *)
Definition fixed_env (m : Message) : QueryEnv := {|
  Summary := nat;
  summary_Update := fun s _ => S s;
  summary_has_Version := fun _ => true;
  summary_Guess := fun s _ => s;
  ParserContext := unit;
  NewEntry := fun c b => (c, Some {| entry_base := b; entry_Message := m |});
  context_Versions := fun _ => []
|}.

Definition empty_instance {E : QueryEnv} (s : Summary) : queryInstance :=
  {| summary := s; sort_order := default_order; ErrorCount := 0; LineCount := 0;
     Patterns := ∅ |}.

(** A line with a ctime date in front of a severity and a component. *)
Definition ctime_command_line : string :=
  "Sun Jan 02 15:04:05 I COMMAND [conn1] command test.c command: find { find: 1 } 12ms".

(** A bucket whose samples fill the capacity that [Run] asks for. *)
Definition bucket_at_cap : queryPattern :=
  {| row := row (new_bucket "test.c" "find" "{a:V}");
     cursorId := 0;
     p95 := Pos.iter (cons 0) [] (Z.to_pos N95MaxSamples) |}.

(** [dq s] is [s] with a double quote in place of each backquote: the
    way the JSON texts of the examples are written. *)
Definition dq (s : string) : string :=
  string_of_list_ascii
    (map (fun c => if Ascii.eqb c "`"%char then dquote else c) (list_ascii_of_string s)).

(** Rows and filters for the examples. *)
Definition row_of (ns op query : string) (count sum : Z) : formatting.Pattern :=
  {| formatting.Namespace := ns; formatting.Operation := op; formatting.Pattern_ := query;
     formatting.Count := count; formatting.Min := 1; formatting.Max := 9;
     formatting.N95Percentile := f64_zero; formatting.Sum := sum |}.

(** The filter [{"a": {"$in": [5,5,5]}}] of [TestPattern_NewPattern]. *)
Definition in_three_fives : Object :=
  [("a", VObject [("$in", VArray [VInt 5; VInt 5; VInt 5])])].

(** ** Number tokens *)

(** A number as it is written: sign, integer digits, fraction digits,
    exponent (its mark, its sign if written, its digits). *)
Record NumberToken : Type := {
  nt_neg : bool;
  nt_ints : runes;
  nt_frac : option runes;
  nt_exp : option (ascii * option bool * runes)
}.

Definition is_digits (ds : runes) : bool :=
  match ds with
  | [] => false
  | _ => forallb is_digit ds
  end.

Definition well_formed (t : NumberToken) : bool :=
  is_digits (nt_ints t)
  && match nt_frac t with Some fs => is_digits fs | None => true end
  && match nt_exp t with
     | Some (m, _, es) => is_exp_mark m && is_digits es
     | None => true
     end.

Definition sign_text (neg : bool) : runes := if neg then ["-"%char] else [].

Definition exp_sign_text (s : option bool) : runes :=
  match s with
  | Some true => ["-"%char]
  | Some false => ["+"%char]
  | None => []
  end.

Definition frac_text (t : NumberToken) : runes :=
  match nt_frac t with Some fs => "."%char :: fs | None => [] end.

Definition exp_text (t : NumberToken) : runes :=
  match nt_exp t with
  | Some (m, s, es) => m :: (exp_sign_text s ++ es)%list
  | None => []
  end.

Definition text (t : NumberToken) : runes :=
  (sign_text (nt_neg t) ++ nt_ints t ++ frac_text t ++ exp_text t)%list.

(** A token with a point or an exponent is a floating-point token. *)
Definition is_float (t : NumberToken) : bool :=
  match nt_frac t, nt_exp t with
  | None, None => false
  | _, _ => true
  end.

Definition frac_digits (t : NumberToken) : runes :=
  match nt_frac t with Some fs => fs | None => [] end.

Definition exp_value (t : NumberToken) : Z :=
  match nt_exp t with
  | Some (_, Some true, es) => - digits_value es
  | Some (_, _, es) => digits_value es
  | None => 0
  end.

Definition int_value (t : NumberToken) : Z :=
  if nt_neg t then - digits_value (nt_ints t) else digits_value (nt_ints t).

Definition float_value (t : NumberToken) : float64 :=
  f64_of_decimal (nt_neg t) (digits_value (nt_ints t ++ frac_digits t)%list)
                 (exp_value t - Z.of_nat (length (frac_digits t))).

(** What may follow a number: the end of the text, or a rune that cannot
    continue the token. *)
Definition ends_number (rest : runes) : bool :=
  match rest with
  | [] => true
  | c :: _ => negb (is_digit c || Ascii.eqb c "."%char || is_exp_mark c)
  end.

Definition digits_of (s : string) : runes := list_ascii_of_string s.

(** The value [parseNumber] gives for a text, if any. *)
Definition parsed_number (s : string) : option Value :=
  match parseNumber (NewRuneReader s) with
  | Ok (v, _) => Some v
  | Err _ => None
  end.

(** A result that is not the exhaustion of the fuel. *)
Definition real {A : Type} (c : result A) : Prop := c <> Err FuelExhausted.

(** Descending order, as the front of the insertion sort is kept. *)
Definition descending (l : list Z) : Prop := StronglySorted (fun a b => b <= a) l.

(** ** The tables of the tests *)

(** The sources of [TestParseJson] that both modes read, with their
    targets. *)
Definition TestParseJson_s1 : list (string * Object) :=
  [ ("{}", []);
    (dq "{`key`:`value`}", [("key", VString "value")]);
    (dq "{`$key`:`value`}", [("$key", VString "value")]);
    (dq "{    `key`   :    `value`    }", [("key", VString "value")]);
    (dq "{`key1`:`value`,`key2`:`value`}",
     [("key1", VString "value"); ("key2", VString "value")]);
    (dq "{`key1` : `value` , `key2` : `value` }",
     [("key1", VString "value"); ("key2", VString "value")]);
    (dq "{`key`:true}", [("key", VBool true)]);
    (dq "{`key`:false}", [("key", VBool false)]);
    (dq "{`key`:`true`}", [("key", VString "true")]);
    (dq "{`number` : 1}", [("number", VInt 1)]);
    (dq "{`float` : 1.5}", [("float", VDouble (f64_of_ratio 3 2))]);
    (dq "{`object`:{`key`:`value`}}", [("object", VObject [("key", VString "value")])]);
    (dq "{`object`:{`key1`:`value1` , `key2` : `value2` } }",
     [("object", VObject [("key1", VString "value1"); ("key2", VString "value2")])]);
    (dq "{`key`:[]}", [("key", VArray [])]);
    (dq "{`key`: [`value`]}", [("key", VArray [VString "value"])]);
    (dq "{`key`:[ `value1` , `value2` ]}",
     [("key", VArray [VString "value1"; VString "value2"])]);
    (dq "{`key`: /regex/ }", [("key", VRegex "regex" "")]);
    (dq "{`key`: /regex/i }", [("key", VRegex "regex" "i")]) ].

(** The sources that only relaxed mode reads. *)
Definition TestParseJson_s2 : list (string * Object) :=
  [ (dq "{key:{$op:`value`}}", [("key", VObject [("$op", VString "value")])]);
    (dq "{key:`value`}", [("key", VString "value")]);
    (dq "{ $key: `value` }", [("$key", VString "value")]);
    (dq "{    key:`value`}", [("key", VString "value")]);
    (dq "{    `key`   :    `value`    }        ", [("key", VString "value")]);
    (dq "{`key`:''}", [("key", VString "")]);
    (dq "{`key`: objectid(00000000000000000000000000)}",
     [("key", VObjectId [0; 0; 0; 0; 0; 0; 0; 0; 0; 0; 0; 0])]) ].

(** The sources that neither mode reads. *)
Definition TestParseJson_n1 : list string :=
  [ "["; "[]"; "{:true}"; dq "{`a`:}'"; dq "{`a`:1,"; dq "{`a`:1 b:1}"; dq "{`a`:1, `b:1}";
    dq "{`a` 1}"; "{$"; dq "{`a`:1,,}"; dq "{`a`:{"; dq "{`a`:/a"; dq "{`key`: unknown}";
    dq "{`key`: -1-}"; dq "{`key`: objectid(00)}" ].

(** The filters of [TestPattern_NewPattern] and the patterns expected of
    them. *)
Definition TestPattern_s : list Object :=
  [ [("a", VInt 5)];
    [("a", VInt 5); ("b", VString "y")];
    [("a", VObject [("$in", VString "y")])];
    [("a", VObject [("$gt", VInt 5)])];
    [("a", VObject [("$exists", VBool true)])];
    [("$or", VArray [VObject [("a", VInt 5)]; VObject [("b", VInt 5)]])];
    [("$and", VArray [VObject [("$or", VArray [VObject [("a", VInt 5)]; VObject [("b", VInt 5)]])];
                      VArray [VObject [("$or", VArray [VObject [("c", VInt 5)];
                                                       VObject [("d", VInt 5)]])]]])];
    [("_id", VObjectId [])];
    in_three_fives;
    [("a", VObject [("$elemMatch", VObject [("b", VInt 5); ("c", VObject [("$gte", VInt 5)])])])];
    [("a", VObject [("$geoWithin",
                     VObject [("$center", VArray [VArray [VInt 5; VInt 5]; VInt 5])])])];
    [("a", VObject [("$geoWithin",
                     VObject [("$geometry",
                               VObject [("a", VString "y"); ("b", VArray [VInt 5; VInt 5])])])])] ].

Definition TestPattern_d : list Object :=
  [ [("a", VV)];
    [("a", VV); ("b", VV)];
    [("a", VObject [("$in", VV)])];
    [("a", VObject [("$gt", VV)])];
    [("a", VObject [("$exists", VV)])];
    [("$or", VArray [VObject [("a", VV)]; VObject [("b", VV)]])];
    [("$and", VArray [VObject [("$or", VArray [VObject [("a", VV)]; VObject [("b", VV)]])];
                      VArray [VObject [("$or", VArray [VObject [("c", VV)];
                                                       VObject [("d", VV)]])]]])];
    [("_id", VV)];
    [("a", VObject [("$in", VV)])];
    [("a", VObject [("$elemMatch", VObject [("b", VV); ("c", VObject [("$gte", VV)])])])];
    [("a", VObject [("$geoWithin", VObject [("$center", VArray [VV; VV])])])];
    [("a", VObject [("$geoWithin", VObject [("$geometry", VObject [("a", VV); ("b", VV)])])])] ].

(** ** The operands of the list operators *)





(** The filters [{"a": {"$elemMatch": {"$in": [{"b": 1}, {"b": 2}]}}}] and
    [{"$or": [{"$all": [{"b": 1}, {"c": 2}]}]}]. *)
Definition in_under_elemMatch : Object :=
  [("a", VObject [("$elemMatch",
                   VObject [("$in", VArray [VObject [("b", VInt 1)]; VObject [("b", VInt 2)]])])])].

Definition all_in_or_element : Object :=
  [("$or", VArray [VObject [("$all", VArray [VObject [("b", VInt 1)]; VObject [("c", VInt 2)]])]])].

(** ** Measures of a bucket, and more samples *)

(** The key under which [Run] files a row. *)
Definition bucket_key (r : formatting.Pattern) : string :=
  formatting.Namespace r +:+ ":" +:+ formatting.Operation r +:+ ":" +:+ formatting.Pattern_ r.

(** The sum, the least and the greatest of a list of durations; the
    bounds are those a new bucket starts from. *)
Definition total (durs : list Z) : Z := fold_right Z.add 0 durs.
Definition least (durs : list Z) : Z := fold_right Z.min MaxInt64 durs.
Definition greatest (durs : list Z) : Z := fold_right Z.max 0 durs.

(** The number of samples that the buckets hold together. *)
Definition sample_count (m : gmap string queryPattern) : Z :=
  map_fold (fun _ b acc => Z.of_nat (length (p95 b)) + acc) 0 m.

(** A bucket whose statistics are those of its samples. *)
Definition measured (b : queryPattern) : Prop :=
  formatting.Count (row b) = wrap64 (Z.of_nat (length (p95 b))) /\
  formatting.Sum (row b) = wrap64 (total (p95 b)) /\
  formatting.Min (row b) = least (p95 b) /\
  formatting.Max (row b) = greatest (p95 b).

(** A bucket as [Run] files it under [key]. *)
Definition filed (key : string) (b : queryPattern) : Prop :=
  key = bucket_key (row b) /\
  str_in (formatting.Operation (row b)) counted_operations = true /\
  formatting.Pattern_ (row b) <> "" /\
  p95 b <> [] /\
  measured b.

(** A [find] on [test.c], as the context hands it to [Run]. *)
Definition find_message (dur : Z) : Message :=
  CRUD (Command "test.c" "Find" dur) [("a", VInt 1)].

(** Two instances that differ at most in their sort chain. *)
Definition same_counts {E : QueryEnv} (log1 log2 : queryInstance) : Prop :=
  summary log1 = summary log2 /\ ErrorCount log1 = ErrorCount log2 /\
  LineCount log1 = LineCount log2 /\ Patterns log1 = Patterns log2.

(** The base [NewBase] starts from. *)
Definition blank_base (line : string) (num : Z) : Base :=
  {| reader := NewRuneReader line; LineNumber := num; RawDate := ""; CString := false;
     Severity_ := SeverityNone; RawComponent := ""; RawContext := ""; RawMessage := "" |}.

(** What a reader of the log sees of a line: the base and the error of
    [NewBase]. *)
Definition seen {W : WordClasses} (num : Z) (text : string)
  : option Base * option source.LogError :=
  (Some (fst (NewBase text num)), source.ErrorBase <$> snd (NewBase text num)).

(** A closer that counts how often it is called. *)
#[export] Instance counting_closer : Closer nat := fun n => (S n, None).

(** Two lines: one that the tokenizer reads, and an empty one. *)
Definition two_bases : list Base :=
  [fst (NewBase ctime_command_line 1); fst (NewBase "" 1)].

(** An instance with one bucket, of one sample. *)
Definition one_bucket : queryInstance (E := fixed_env (find_message 5)) :=
  with_Patterns {["test.c:find:{a:V}" := update (new_bucket "test.c" "find" "{a:V}") 30]}
    (empty_instance (E := fixed_env (find_message 5)) 0%nat).

(** Three rows, two of them with the same sum. *)
Definition three_rows : list formatting.Pattern :=
  [row_of "db.b" "find" "{a:V}" 3 60; row_of "db.c" "find" "{a:V}" 9 70;
   row_of "db.a" "find" "{a:V}" 5 60].

(** A line in the layout of the old versions: the context comes right
    after the date. *)
Definition context_first_line : string :=
  "Sun Jan 02 15:04:05 [conn1] query test.c query: { a: 1 } 12ms".

(** * Properties *)

(** ** The [Check] guards *)

Lemma Version34Parser_Check_spec (base : Base) :
  Version34Parser_Check base = true ->
  RawComponent base <> "" /\ CString base = false.
Proof.
  unfold Version34Parser_Check. intros H.
  apply andb_prop in H as [H Hc]. apply andb_prop in H as [Hs _].
  split.
  - intros Heq. rewrite Heq in Hc. discriminate.
  - now destruct (CString base).
Qed.

Lemma Check_needs_component (base : Base) :
  Version36Parser_Check base = true \/ Version40Parser_Check base = true ->
  RawComponent base <> "".
Proof.
  unfold Version36Parser_Check, Version40Parser_Check.
  intros [H | H]; apply andb_prop in H as [_ Hc]; intros Heq; rewrite Heq in Hc;
    discriminate.
Qed.

(** C8. The guards of the 3.6 and 4.0 parsers do not look at the date
    format: the tokenizer turns a line with a ctime date, a severity and a
    component into a base line with [CString = true], and both guards
    accept it, while the guard of the 3.4 parser refuses it. *)
Theorem Check_36_40_accept_ctime :
  let base := fst (NewBase ctime_command_line 1) in
  snd (NewBase ctime_command_line 1) = None /\
  CString base = true /\
  RawComponent base = "COMMAND" /\
  Version36Parser_Check base = true /\
  Version40Parser_Check base = true /\
  Version34Parser_Check base = false.
Proof. vm_compute. repeat split; reflexivity. Qed.

(** ** The loop of [Run] *)

Section RunFacts.
Context {E : QueryEnv}.

(** C10. A turn of the loop on a line that decodes to a message that is
    not a CRUD message counts the line and updates the summary; the error
    count and the patterns stay as they were. *)
Theorem Run_step_skips_non_CRUD
    (context context' : ParserContext) (log : queryInstance) (base : Base) (entry : Entry) :
  RawMessage base <> "" ->
  NewEntry context base = (context', Some entry) ->
  as_CRUD (entry_Message entry) = None ->
  let log' := snd (Run_step (context, log) base) in
  fst (Run_step (context, log) base) = context' /\
  LineCount log' = wrapU64 (LineCount log + 1) /\
  summary log' = summary_Update (summary log) entry /\
  ErrorCount log' = ErrorCount log /\
  Patterns log' = Patterns log.
Proof.
  intros Hmsg Hentry Hcrud. unfold Run_step.
  destruct (String.eqb (RawMessage base) "") eqn:Hempty.
  - apply String.eqb_eq in Hempty. contradiction.
  - rewrite Hentry, Hcrud. cbn. repeat split; reflexivity.
Qed.

End RunFacts.

(** The theorem at work: a [Control] message on a one-line input. *)
Lemma Run_step_skips_non_CRUD_witness :
  let base := fst (NewBase ctime_command_line 1) in
  let log' :=
    snd (Run_step (E := fixed_env Control) (tt, empty_instance (E := fixed_env Control) 0%nat) base) in
  LineCount log' = 1 /\ summary log' = 1%nat /\ ErrorCount log' = 0 /\ Patterns log' = ∅.
Proof.
  intros base log'.
  destruct (Run_step_skips_non_CRUD (E := fixed_env Control) tt tt
              (empty_instance (E := fixed_env Control) 0%nat) base
              {| entry_base := base; entry_Message := Control |})
    as (_ & Hl & Hs & He & Hp).
  - vm_compute. discriminate.
  - reflexivity.
  - reflexivity.
  - repeat split; assumption.
Defined.

(** ** The samples of a bucket *)

Lemma update_p95 (s : queryPattern) (dur : Z) : p95 (update s dur) = (p95 s ++ [dur])%list.
Proof. reflexivity. Qed.

Lemma updates_p95 (durs : list Z) (s : queryPattern) :
  p95 (fold_left update durs s) = (p95 s ++ durs)%list.
Proof.
  revert s. induction durs as [| d durs IH]; intros s; cbn [fold_left].
  - now rewrite app_nil_r.
  - rewrite IH, update_p95, <- app_assoc. reflexivity.
Qed.

Lemma length_pos_iter_cons {A : Type} (x : A) (l : list A) (p : positive) :
  Z.of_nat (length (Pos.iter (cons x) l p)) = Z.pos p + Z.of_nat (length l).
Proof.
  induction p as [| p IH] using Pos.peano_ind.
  - cbn [Pos.iter length]. lia.
  - rewrite Pos.iter_succ. cbn [length]. rewrite Nat2Z.inj_succ, IH. lia.
Qed.

Lemma length_bucket_at_cap : Z.of_nat (length (p95 bucket_at_cap)) = N95MaxSamples.
Proof.
  unfold bucket_at_cap. cbn [p95]. rewrite length_pos_iter_cons. reflexivity.
Qed.

(** C4, refuted as stated: an update against a bucket that holds
    [N95MaxSamples] samples leaves it with one more. *)
Lemma update_grows_past_cap :
  Z.of_nat (length (p95 bucket_at_cap)) = N95MaxSamples /\
  Z.of_nat (length (p95 (update bucket_at_cap 5))) = N95MaxSamples + 1.
Proof.
  split; [exact length_bucket_at_cap |].
  rewrite update_p95, length_app, Nat2Z.inj_add, length_bucket_at_cap.
  reflexivity.
Qed.

(** C4, as the code has it: the bucket of a new key holds no sample, every
    update appends its sample, and after any run of updates the samples
    are the durations in the order they came, however many they are. *)
Theorem update_appends_every_sample (ns op query : string) (durs : list Z) (s : queryPattern) (dur : Z) :
  p95 (new_bucket ns op query) = [] /\
  p95 (update s dur) = (p95 s ++ [dur])%list /\
  length (p95 (update s dur)) = S (length (p95 s)) /\
  p95 (fold_left update durs (new_bucket ns op query)) = durs.
Proof.
  repeat split.
  - rewrite update_p95, length_app. cbn. lia.
  - now rewrite updates_p95.
Qed.

(** The loop body of [Run] stores, under the key of the message, the
    update of the bucket found there (or of a new one). *)
Lemma aggregate_updates_bucket {E : QueryEnv} (crud : Message) (filter : Object)
    (log : queryInstance) (ns op : string) (dur : Z) :
  standardize crud = (ns, op, dur, true) ->
  str_in (StringToLower op) counted_operations = true ->
  StringCompact (NewPattern filter) <> "" ->
  let query := StringCompact (NewPattern filter) in
  let key := ns +:+ ":" +:+ StringToLower op +:+ ":" +:+ query in
  Patterns (aggregate crud filter log) !! key =
  Some (update (default (new_bucket ns (StringToLower op) query) (Patterns log !! key)) dur).
Proof.
  intros Hstd Hop Hquery query key. unfold aggregate. rewrite Hstd. cbn [negb].
  rewrite Hop. cbn [negb].
  assert (Hne : String.eqb (StringToLower op) "" = false).
  { destruct (StringToLower op); [discriminate Hop | reflexivity]. }
  rewrite Hne.
  assert (Hq : String.eqb (StringCompact (NewPattern filter)) "" = false).
  { now apply String.eqb_neq. }
  rewrite Hq. cbn [negb andb Patterns with_Patterns].
  fold query. fold key. rewrite lookup_insert_eq.
  destruct (Patterns log !! key); reflexivity.
Qed.

Lemma aggregate_appends_sample {E : QueryEnv} (log : queryInstance) (b : queryPattern) (n : Z) :
  Patterns log !! "test.c:find:{a:V}" = Some b ->
  Z.of_nat (length (p95 b)) = n ->
  option_map (fun b' => Z.of_nat (length (p95 b')))
    (Patterns (aggregate (Command "test.c" "find" 5) [("a", VInt 1)] log) !! "test.c:find:{a:V}")
  = Some (n + 1).
Proof.
  intros Hb Hn.
  pose proof (aggregate_updates_bucket (Command "test.c" "find" 5) [("a", VInt 1)] log
                "test.c" "find" 5 eq_refl eq_refl) as H.
  assert (Hq : StringCompact (NewPattern [("a", VInt 1)]) = "{a:V}") by reflexivity.
  rewrite Hq in H. specialize (H ltac:(discriminate)). cbv zeta in H.
  change ("test.c" +:+ ":" +:+ StringToLower "find" +:+ ":" +:+ "{a:V}")
    with "test.c:find:{a:V}" in H.
  rewrite H, Hb. unfold default. cbn [from_option option_map id].
  rewrite update_p95, length_app, Nat2Z.inj_add, Hn. reflexivity.
Qed.

(** Through the loop body of [Run]: a [find] that lands on a bucket which
    already holds [N95MaxSamples] samples leaves it with one more. *)
Example aggregate_grows_past_cap :
  option_map (fun b' => Z.of_nat (length (p95 b')))
    (Patterns
       (aggregate (E := fixed_env Control) (Command "test.c" "find" 5) [("a", VInt 1)]
          (with_Patterns {["test.c:find:{a:V}" := bucket_at_cap]}
             (empty_instance (E := fixed_env Control) 0%nat)))
     !! "test.c:find:{a:V}")
  = Some (N95MaxSamples + 1).
Proof.
  apply (aggregate_appends_sample (E := fixed_env Control) _ bucket_at_cap).
  - apply lookup_singleton_eq.
  - exact length_bucket_at_cap.
Qed.

(** ** The comparator of [sort] *)

Lemma SFeqb_sym (x y : float64) : SFeqb x y = SFeqb y x.
Proof.
  unfold SFeqb, SFcompare.
  destruct x as [sx | sx | | sx mx ex], y as [sy | sy | | sy my ey];
    try destruct sx; try destruct sy; try reflexivity.
  all: change (Pos.compare_cont Eq mx my) with (Pos.compare mx my);
    change (Pos.compare_cont Eq my mx) with (Pos.compare my mx);
    rewrite (Z.compare_antisym ey ex), (Pos.compare_antisym my mx);
    destruct (ey ?= ex); cbn [CompOpp]; try reflexivity;
    destruct (my ?= mx)%positive; reflexivity.
Qed.

Lemma field_equal_sym (field : Z) (a b : formatting.Pattern) :
  field_equal field a b = field_equal field b a.
Proof.
  unfold field_equal.
  repeat match goal with
         | |- context [if ?c then _ else _] => destruct c
         end;
    try reflexivity; try apply String.eqb_sym; try apply Z.eqb_sym; apply SFeqb_sym.
Qed.

Lemma less_all_equal (order : list Z) (a b : formatting.Pattern) :
  forallb (fun field => field_equal field a b) order = true -> less order a b = true.
Proof.
  induction order as [| field order IH]; cbn; [reflexivity |].
  intros H. apply andb_prop in H as [Hf Hrest]. rewrite Hf. now apply IH.
Qed.

Lemma less_first_difference (front back : list Z) (field : Z) (a b : formatting.Pattern) :
  forallb (fun g => field_equal g a b) front = true ->
  field_equal field a b = false ->
  less (front ++ field :: back) a b = field_order field a b.
Proof.
  induction front as [| g front IH]; cbn; intros Hfront Hfield.
  - now rewrite Hfield.
  - apply andb_prop in Hfront as [Hg Hfront]. rewrite Hg. now apply IH.
Qed.

(** On the field that decides, [>=] is [>] for the integer fields, and
    the string fields are compared by [<]. *)
Lemma field_order_strict (field : Z) (a b : formatting.Pattern) :
  field_equal field a b = false ->
  (field = sortSum -> field_order field a b = (formatting.Sum b <? formatting.Sum a)) /\
  (field = sortCount -> field_order field a b = (formatting.Count b <? formatting.Count a)) /\
  (field = sortMax -> field_order field a b = (formatting.Max b <? formatting.Max a)) /\
  (field = sortMin -> field_order field a b = (formatting.Min b <? formatting.Min a)) /\
  (field = sortNamespace ->
     field_order field a b = String.ltb (formatting.Namespace a) (formatting.Namespace b)).
Proof.
  intros Hne. repeat split; intros ->; cbn in *;
    try reflexivity;
    apply Z.eqb_neq in Hne; apply eq_true_iff_eq;
    rewrite Z.leb_le, Z.ltb_lt; lia.
Qed.

(** C6, refuted as stated: two rows that agree on every field of the chain
    are each put before the other, and the sort swaps them. *)
Lemma less_ties_not_equal :
  let a := row_of "db.a" "find" "{a:V}" 3 60 in
  let b := row_of "db.b" "find" "{a:V}" 3 60 in
  forallb (fun field => field_equal field a b) [sortCount; sortSum] = true /\
  less [sortCount; sortSum] a b = true /\
  less [sortCount; sortSum] b a = true /\
  sort [a; b] [sortCount; sortSum] = [b; a].
Proof. vm_compute. repeat split; reflexivity. Qed.

(** C6, as the code has it: the comparator walks the chain, the first
    field on which the rows differ decides, and when they agree on every
    field of the chain it returns true, whichever row comes first. *)
Theorem less_chain (order front back : list Z) (field : Z) (a b : formatting.Pattern) :
  (order = front ++ field :: back ->
   forallb (fun g => field_equal g a b) front = true ->
   field_equal field a b = false ->
   less order a b = field_order field a b) /\
  (forallb (fun g => field_equal g a b) order = true ->
   less order a b = true /\ less order b a = true).
Proof.
  split.
  - intros -> Hfront Hfield. now apply less_first_difference.
  - intros Hab. split; apply less_all_equal; [assumption |].
    rewrite <- Hab. clear Hab.
    induction order as [| g order IH]; [reflexivity |].
    cbn [forallb]. now rewrite IH, (field_equal_sym g b a).
Qed.

Lemma less_chain_witness :
  let a := row_of "db.a" "find" "{a:V}" 3 60 in
  let b := row_of "db.b" "find" "{a:V}" 3 60 in
  let c := row_of "db.c" "find" "{a:V}" 3 70 in
  less [sortCount; sortSum; sortNamespace] a c = field_order sortSum a c /\
  less [sortCount; sortSum] a b = true /\ less [sortCount; sortSum] b a = true.
Proof.
  intros a b c. split.
  - apply (less_chain [sortCount; sortSum; sortNamespace] [sortCount] [sortNamespace] sortSum a c);
      reflexivity.
  - apply (less_chain [sortCount; sortSum] [] [] sortSum a b); reflexivity.
Defined.

(** ** The ctime date of the tokenizer *)

Lemma slurp_words_length (n : nat) (r : RuneReader) : length (snd (slurp_words n r)) = n.
Proof.
  revert r. induction n as [| n IH]; intros r; cbn [slurp_words]; [reflexivity |].
  destruct (SlurpWord r) as [r1 [w ok]]. destruct ok.
  - specialize (IH r1). destruct (slurp_words n r1) as [r2 ws]. cbn in *. now rewrite IH.
  - cbn. now rewrite repeat_length.
Qed.

Lemma slurp_words_first (n : nat) (r : RuneReader) :
  word 0 (snd (slurp_words (S n) r)) = PreviewWord 1 r.
Proof.
  cbn [slurp_words PreviewWord]. destruct (SlurpWord r) as [r1 [w ok]]. destruct ok.
  - destruct (slurp_words n r1). reflexivity.
  - reflexivity.
Qed.

Lemma append_not_empty (a b : string) : b <> "" -> a +:+ b <> "".
Proof. destruct a; cbn; [tauto | discriminate]. Qed.

Lemma join_four_not_empty (target : list string) :
  length target = 4%nat -> join " " target <> "".
Proof.
  destruct target as [| a [| b [| c [| d [| e l]]]]]; try discriminate. intros _.
  cbn. apply append_not_empty. discriminate.
Qed.

Section TokenizerFacts.
Context {W : WordClasses}.

Lemma readSlots_keeps_date (n : nat) (base : Base) :
  RawDate (readSlots n base) = RawDate base /\ CString (readSlots n base) = CString base.
Proof.
  revert base. induction n as [| n IH]; intros base; cbn [readSlots]; [split; reflexivity |].
  destruct (SlurpWord (reader base)) as [rd [part ok]].
  destruct ok; [| apply (IH (set_reader rd base))].
  assert (Hcomponent : forall b : Base,
    RawDate b = RawDate base -> CString b = CString base ->
    let r := (if String.eqb (RawComponent b) "" && IsComponent part
              then readSlots n (set_component part b)
              else if String.eqb (RawContext b) "" && has_bracket part
                   then match EnclosedString "]"%char (reader (set_reader (RewindSlurpWord (reader b)) b)) with
                        | Some (rd', ctx) =>
                            readSlots n (set_context ctx
                              (set_reader rd' (set_reader (RewindSlurpWord (reader b)) b)))
                        | None =>
                            set_reader
                              (RewindSlurpWord (reader (set_reader (RewindSlurpWord (reader b)) b)))
                              (set_reader (RewindSlurpWord (reader b)) b)
                        end
                   else set_reader (RewindSlurpWord (reader b)) b) in
    RawDate r = RawDate base /\ CString r = CString base).
  { intros b Hd Hc. cbn zeta.
    destruct (String.eqb (RawComponent b) "" && IsComponent part).
    - destruct (IH (set_component part b)) as [H1 H2]. rewrite H1, H2. now split.
    - destruct (String.eqb (RawContext b) "" && has_bracket part); [| now split].
      destruct (EnclosedString _ _) as [[rd' ctx] |]; [| now split].
      destruct (IH (set_context ctx (set_reader rd' (set_reader (RewindSlurpWord (reader b)) b))))
        as [H1 H2]. rewrite H1, H2. now split. }
  destruct (severity_is_none (Severity_ (set_reader rd base)) &&
            String.eqb (RawComponent (set_reader rd base)) "" &&
            String.eqb (RawContext (set_reader rd base)) "").
  - destruct (NewSeverity part) as [sev found]. destruct found.
    + destruct (IH (set_severity sev (set_reader rd base))) as [H1 H2]. rewrite H1, H2. now split.
    + apply Hcomponent; reflexivity.
  - apply Hcomponent; reflexivity.
Qed.

(** What [NewBase] returns is decided by the date prefix as far as the
    raw date, the ctime flag and the date error go. *)
Lemma NewBase_date (line : string) (num : Z) :
  let base1 :=
    readDate {| reader := NewRuneReader line; LineNumber := num; RawDate := ""; CString := false;
                Severity_ := SeverityNone; RawComponent := ""; RawContext := "";
                RawMessage := "" |} in
  RawDate (fst (NewBase line num)) = RawDate base1 /\
  CString (fst (NewBase line num)) = CString base1 /\
  (RawDate base1 = "" ->
   fst (NewBase line num) = base1 /\ snd (NewBase line num) = Some ErrorParsingDate).
Proof.
  intros base1. unfold NewBase. fold base1.
  destruct (EOL (reader base1) || String.eqb (RawDate base1) "") eqn:Hdate.
  - repeat split; reflexivity.
  - match goal with
    | |- context [if String.eqb (RawContext ?b) "" then _ else _] => set (base2 := b)
    end.
    assert (H2 : RawDate base2 = RawDate base1 /\ CString base2 = CString base1).
    { subst base2. destruct (ExpectRune "["%char (reader base1)).
      - destruct (EnclosedString "]"%char (reader base1)) as [[rd ctx] |]; now split.
      - apply readSlots_keeps_date. }
    destruct H2 as [Hd Hc].
    assert (Hne : RawDate base1 <> "").
    { intros Hempty. rewrite Hempty, orb_true_r in Hdate. discriminate. }
    destruct (String.eqb (RawContext base2) "").
    + cbn [fst snd]. split; [assumption | split; [assumption | intros He; contradiction]].
    + destruct (Remainder (reader base2)) as [rd msg]. cbn [fst snd].
      split; [assumption | split; [assumption | intros He; contradiction]].
Qed.

(** C9. When the first word is a weekday, the four-token date is given up
    (cursor back at the start of the line, empty raw date, date error)
    exactly when month and day are valid and the time is not; with an
    invalid month or a non-numeric day the four tokens are taken as the
    raw ctime date. *)
Theorem ctime_date_rejected_only_on_time (line : string) (num : Z) :
  let r := NewRuneReader line in
  let target := snd (slurp_words 4 r) in
  let result := NewBase line num in
  IsDay (PreviewWord 1 r) = true ->
  (IsMonth (word 1 target) = true -> IsNumeric (word 2 target) = true ->
   IsTime (word 3 target) = false ->
   RawDate (fst result) = "" /\ Pos (reader (fst result)) = 0%nat /\
   snd result = Some ErrorParsingDate) /\
  (IsMonth (word 1 target) = false \/ IsNumeric (word 2 target) = false \/
   IsTime (word 3 target) = true ->
   RawDate (fst result) = join " " target /\ RawDate (fst result) <> "" /\
   CString (fst result) = true).
Proof.
  intros r target result Hday.
  pose proof (NewBase_date line num) as Hnew. cbn zeta in Hnew.
  fold result in Hnew.
  pose proof (slurp_words_first 3 r) as Hfirst. fold target in Hfirst.
  pose proof (slurp_words_length 4 r) as Hlen. fold target in Hlen.
  unfold readDate in Hnew. cbn [reader] in Hnew. fold r in Hnew.
  rewrite Hday in Hnew. unfold parseCDateString in Hnew. cbn [reader] in Hnew.
  fold r in Hnew. unfold target in *. clear target.
  destruct (slurp_words 4 r) as [rd target]. cbn [snd] in *.
  rewrite Hfirst, Hday in Hnew. cbn [negb] in Hnew.
  destruct Hnew as (Hd & Hc & Herr).
  split.
  - intros Hm Hn Ht. rewrite Hm, Hn, Ht in *. cbn in Hd, Hc, Herr.
    destruct (Herr eq_refl) as [Hbase Hsnd].
    repeat split; [assumption | | assumption].
    rewrite Hbase. reflexivity.
  - intros Hcase.
    assert (Hjoin : RawDate (fst result) = join " " target /\ CString (fst result) = true).
    { destruct (IsMonth (word 1 target)); cbn in Hd, Hc |- *; [| now split].
      destruct (IsNumeric (word 2 target)); cbn in Hd, Hc |- *; [| now split].
      destruct (IsTime (word 3 target)); cbn in Hd, Hc |- *; [now split |].
      destruct Hcase as [? | [? | ?]]; discriminate. }
    destruct Hjoin as [Hj Hcs]. repeat split; try assumption.
    rewrite Hj. now apply join_four_not_empty.
Qed.

End TokenizerFacts.

Lemma ctime_date_rejected_only_on_time_witness :
  (let result := NewBase "Sun Jan 02 15:04 [conn1] query test.c" 1 in
   RawDate (fst result) = "" /\ Pos (reader (fst result)) = 0%nat /\
   snd result = Some ErrorParsingDate) /\
  (let result := NewBase "Sun Foo 02 15:04 [conn1] query test.c" 1 in
   RawDate (fst result) = "Sun Foo 02 15:04" /\ RawDate (fst result) <> "" /\
   CString (fst result) = true).
Proof.
  split.
  - apply (ctime_date_rejected_only_on_time (W := calendar)
             "Sun Jan 02 15:04 [conn1] query test.c" 1); reflexivity.
  - apply (ctime_date_rejected_only_on_time (W := calendar)
             "Sun Foo 02 15:04 [conn1] query test.c" 1); [reflexivity | left; reflexivity].
Defined.

(** ** Pattern canonicalization *)


















(** The operator keeps only its name under [$elemMatch] and in an element
    of a connective too. *)
Example list_operators_nested :
  StringCompact (NewPattern in_under_elemMatch) = "{a:{$elemMatch:{$in:V}}}" /\
  StringCompact (NewPattern all_in_or_element) = "{$or:[{$all:V}]}".
Proof. split; reflexivity. Qed.

(** ** Number tokens are read back *)

Lemma span_app (p : ascii -> bool) (ds rest : runes) :
  forallb p ds = true ->
  match rest with [] => true | c :: _ => negb (p c) end = true ->
  span p (ds ++ rest) = (ds, rest).
Proof.
  intros Hds Hrest. induction ds as [| d ds IH]; cbn in *.
  - destruct rest as [| c rest]; [reflexivity |]. cbn.
    apply negb_true_iff in Hrest. now rewrite Hrest.
  - apply andb_prop in Hds as [Hd Hds]. rewrite Hd, (IH Hds). reflexivity.
Qed.

Lemma is_digits_forall (ds : runes) : is_digits ds = true -> forallb is_digit ds = true.
Proof. destruct ds; [discriminate | tauto]. Qed.

Lemma is_digits_cons (ds : runes) :
  is_digits ds = true -> exists d ds', ds = d :: ds' /\ is_digit d = true.
Proof.
  destruct ds as [| d ds]; [discriminate |]. cbn. intros H.
  apply andb_prop in H as [Hd _]. now exists d, ds.
Qed.

Lemma digit_not_mark (c : ascii) :
  is_digit c = true ->
  Ascii.eqb c "-"%char = false /\ Ascii.eqb c "+"%char = false /\
  Ascii.eqb c "."%char = false /\ is_exp_mark c = false.
Proof.
  destruct c as [[] [] [] [] [] [] [] []]; cbn; intros H; try discriminate H;
    repeat split; reflexivity.
Qed.

Lemma mark_not_digit (c : ascii) :
  is_exp_mark c = true -> is_digit c = false /\ Ascii.eqb c "."%char = false.
Proof.
  destruct c as [[] [] [] [] [] [] [] []]; cbn; intros H; try discriminate H;
    split; reflexivity.
Qed.

Lemma span_digits (ds rest : runes) :
  is_digits ds = true ->
  match rest with [] => true | c :: _ => negb (is_digit c) end = true ->
  span is_digit (ds ++ rest) = (ds, rest).
Proof. intros Hds. apply span_app. now apply is_digits_forall. Qed.

Lemma scanExponent_text (s : option bool) (es rest : runes) :
  is_digits es = true ->
  match rest with [] => true | c :: _ => negb (is_digit c) end = true ->
  scanExponent (exp_sign_text s ++ es ++ rest) =
  Ok (match s with Some true => - digits_value es | _ => digits_value es end, rest).
Proof.
  intros Hes Hrest.
  pose proof (span_digits es rest Hes Hrest) as Hspan.
  destruct (is_digits_cons es Hes) as (d & es' & Heq & Hd).
  destruct (digit_not_mark d Hd) as (Hm & Hp & _ & _).
  unfold scanExponent.
  destruct s as [[|] |]; unfold exp_sign_text.
  - change (["-"%char] ++ es ++ rest) with ("-"%char :: (es ++ rest)). cbv beta iota.
    rewrite Ascii.eqb_refl, Hspan. now rewrite Heq.
  - change (["+"%char] ++ es ++ rest) with ("+"%char :: (es ++ rest)). cbv beta iota.
    change (Ascii.eqb "+" "-") with false. cbv beta iota.
    rewrite Ascii.eqb_refl, Hspan. now rewrite Heq.
  - change ([] ++ es ++ rest) with (es ++ rest).
    assert (Hhead : es ++ rest = d :: (es' ++ rest)) by now rewrite Heq.
    rewrite Hhead at 1. cbv beta iota. rewrite Hm, Hp, Hspan. now rewrite Heq.
Qed.

Lemma scanFraction_text (fs rest : runes) :
  is_digits fs = true ->
  match rest with [] => true | c :: _ => negb (is_digit c) end = true ->
  scanFraction (fs ++ rest) = Ok (fs, rest).
Proof.
  intros Hfs Hrest. unfold scanFraction. rewrite (span_digits fs rest Hfs Hrest).
  destruct (is_digits_cons fs Hfs) as (d & fs' & -> & _). reflexivity.
Qed.

Lemma scanOptional_absent (p : ascii -> bool) (inp : runes) :
  match inp with [] => true | c :: _ => negb (p c) end = true ->
  scanOptional p inp = (false, inp).
Proof.
  destruct inp as [| c inp]; cbn; [reflexivity |].
  intros H. apply negb_true_iff in H. now rewrite H.
Qed.

(** The text of a well-formed token is read back whole. *)
Lemma parseNumberRunes_text (t : NumberToken) (rest : runes) :
  well_formed t = true ->
  ends_number rest = true ->
  parseNumberRunes (text t ++ rest) =
  if is_float t then Ok (VDouble (float_value t), rest)
  else v <- integer_value (int_value t) ;; Ok (v, rest).
Proof.
  destruct t as [neg ints frac exp]. unfold well_formed, text, is_float, float_value, int_value,
    frac_text, exp_text, frac_digits, exp_value. cbn [nt_neg nt_ints nt_frac nt_exp].
  intros Hwf Hrest.
  apply andb_prop in Hwf as [Hwf Hexp]. apply andb_prop in Hwf as [Hints Hfrac].
  destruct (is_digits_cons ints Hints) as (d & ints' & Hcons & Hd).
  destruct (digit_not_mark d Hd) as (Hminus & _ & _ & _).
  (* what follows the integer digits does not start with a digit *)
  assert (Hrest_digit : match rest with [] => true | c :: _ => negb (is_digit c) end = true).
  { destruct rest as [| c rest]; [reflexivity |]. cbn in Hrest.
    apply negb_true_iff in Hrest. apply orb_false_elim in Hrest as [Hr _].
    apply orb_false_elim in Hr as [Hr _]. now rewrite Hr. }
  assert (Hrest_point : match rest with [] => true | c :: _ => negb (is_point c) end = true).
  { destruct rest as [| c rest]; [reflexivity |]. cbn in Hrest.
    apply negb_true_iff in Hrest. apply orb_false_elim in Hrest as [Hr _].
    apply orb_false_elim in Hr as [_ Hr]. unfold is_point. now rewrite Hr. }
  assert (Hrest_mark : match rest with [] => true | c :: _ => negb (is_exp_mark c) end = true).
  { destruct rest as [| c rest]; [reflexivity |]. cbn in Hrest.
    apply negb_true_iff in Hrest. apply orb_false_elim in Hrest as [_ Hr]. now rewrite Hr. }
  set (tail2 := match exp with
                | Some (m, s, es) => m :: exp_sign_text s ++ es
                | None => []
                end ++ rest).
  set (tail1 := match frac with Some fs => "."%char :: fs | None => [] end ++ tail2).
  rewrite <- !app_assoc.
  match goal with
  | |- parseNumberRunes _ = ?rhs =>
      change (parseNumberRunes (sign_text neg ++ ints ++ tail1) = rhs)
  end.
  (* the exponent part *)
  assert (Hexp_scan :
    scanOptional is_exp_mark tail2 =
      (match exp with Some _ => true | None => false end,
       match exp with Some (_, s, es) => exp_sign_text s ++ es ++ rest | None => rest end) /\
    (forall m s es, exp = Some (m, s, es) ->
       scanExponent (exp_sign_text s ++ es ++ rest) =
       Ok (match s with Some true => - digits_value es | _ => digits_value es end, rest)) /\
    match tail2 with [] => true | c :: _ => negb (is_digit c) end = true /\
    match tail2 with [] => true | c :: _ => negb (is_point c) end = true).
  { subst tail2. destruct exp as [[[m s] es] |].
    - apply andb_prop in Hexp as [Hm Hes].
      destruct (mark_not_digit m Hm) as [Hmd Hmp].
      cbn [app scanOptional]. rewrite Hm, <- app_assoc. unfold is_point. rewrite Hmd, Hmp.
      repeat split. intros m' s' es' [= -> -> ->]. now apply scanExponent_text.
    - cbn [app]. rewrite (scanOptional_absent _ _ Hrest_mark).
      repeat split; try assumption. discriminate. }
  destruct Hexp_scan as (Hmark & Hscan & Htail2_digit & Htail2_point).
  (* the fraction part *)
  assert (Hfrac_scan :
    scanOptional is_point tail1 =
      (match frac with Some _ => true | None => false end,
       match frac with Some fs => fs ++ tail2 | None => tail2 end) /\
    (forall fs, frac = Some fs -> scanFraction (fs ++ tail2) = Ok (fs, tail2)) /\
    match tail1 with [] => true | c :: _ => negb (is_digit c) end = true).
  { subst tail1. destruct frac as [fs |].
    - cbn [app scanOptional]. unfold is_point at 1. rewrite Ascii.eqb_refl.
      repeat split. intros fs' [= ->]. now apply scanFraction_text.
    - cbn [app]. rewrite (scanOptional_absent _ _ Htail2_point).
      repeat split; try assumption. discriminate. }
  destruct Hfrac_scan as (Hpoint & Hfscan & Htail1_digit).
  (* the sign and the integer digits *)
  assert (Hsign : scanOptional is_minus (sign_text neg ++ ints ++ tail1) = (neg, ints ++ tail1)).
  { destruct neg; cbn [sign_text app scanOptional].
    - unfold is_minus. now rewrite Ascii.eqb_refl.
    - rewrite Hcons. cbn [app scanOptional]. unfold is_minus. now rewrite Hminus. }
  unfold parseNumberRunes. rewrite Hsign, (span_digits ints tail1 Hints Htail1_digit).
  rewrite Hcons at 1. cbv beta iota zeta. rewrite Hpoint.
  destruct frac as [fs |].
  - rewrite (Hfscan fs eq_refl). cbn [bind]. cbv beta iota zeta. rewrite Hmark.
    destruct exp as [[[m s] es] |].
    + rewrite (Hscan m s es eq_refl). cbn [bind orb]. cbv beta iota zeta.
      destruct s as [[|] |]; reflexivity.
    + cbn [bind orb]. cbv beta iota zeta. reflexivity.
  - cbn [bind]. cbv beta iota zeta. change tail1 with tail2. rewrite Hmark.
    destruct exp as [[[m s] es] |].
    + rewrite (Hscan m s es eq_refl). cbn [bind orb]. cbv beta iota zeta.
      rewrite app_nil_r. destruct s as [[|] |]; reflexivity.
    + cbn [bind orb]. cbv beta iota zeta. reflexivity.
Qed.

(** C5. A well-formed integer token is a 32-bit integer when it fits and a
    64-bit integer when it does not (and fits 64 bits); a token with a
    point or an exponent is a double. So [2147483647] is a 32-bit
    integer, [2147483648] and [-2147483649] are 64-bit integers, and
    [10e2] is the double 1000. *)
Theorem parseNumber_promotion (t : NumberToken) (rest : runes) :
  (well_formed t = true -> ends_number rest = true ->
   (is_float t = false -> in_int32 (int_value t) = true ->
    parseNumberRunes (text t ++ rest) = Ok (VInt (int_value t), rest)) /\
   (is_float t = false -> in_int32 (int_value t) = false -> in_int64 (int_value t) = true ->
    parseNumberRunes (text t ++ rest) = Ok (VInt64 (int_value t), rest)) /\
   (is_float t = true ->
    parseNumberRunes (text t ++ rest) = Ok (VDouble (float_value t), rest))) /\
  (exists r, parseNumber (NewRuneReader "2147483647") = Ok (VInt 2147483647, r)) /\
  (exists r, parseNumber (NewRuneReader "2147483648") = Ok (VInt64 2147483648, r)) /\
  (exists r, parseNumber (NewRuneReader "-2147483649") = Ok (VInt64 (-2147483649), r)) /\
  (exists r, parseNumber (NewRuneReader "10e2") = Ok (VDouble (f64_of_Z 1000), r)).
Proof.
  split.
  - intros Hwf Hrest. pose proof (parseNumberRunes_text t rest Hwf Hrest) as H.
    repeat split.
    + intros Hf H32. rewrite H, Hf. unfold integer_value. now rewrite H32.
    + intros Hf H32 H64. rewrite H, Hf. unfold integer_value. now rewrite H32, H64.
    + intros Hf. now rewrite H, Hf.
  - repeat split; eexists; vm_compute; reflexivity.
Qed.

Lemma parseNumber_promotion_witness :
  parseNumberRunes (digits_of "2147483647 ") = Ok (VInt 2147483647, digits_of " ") /\
  parseNumberRunes (digits_of "-2147483649") = Ok (VInt64 (-2147483649), []) /\
  parseNumberRunes (digits_of "-1.5e2,") = Ok (VDouble (f64_of_Z (-150)), digits_of ",").
Proof.
  split; [| split].
  - apply (parseNumber_promotion
             {| nt_neg := false; nt_ints := digits_of "2147483647"; nt_frac := None;
                nt_exp := None |} (digits_of " ")); reflexivity.
  - apply (parseNumber_promotion
             {| nt_neg := true; nt_ints := digits_of "2147483649"; nt_frac := None;
                nt_exp := None |} []); reflexivity.
  - apply (parseNumber_promotion
             {| nt_neg := true; nt_ints := digits_of "1"; nt_frac := Some (digits_of "5");
                nt_exp := Some ("e"%char, None, digits_of "2") |} (digits_of ",")); reflexivity.
Defined.

(** The table of [TestParseNumber]. *)
Example TestParseNumber :
  map parsed_number
      ["1"; "-1"; "0.1"; "-0.1"; "10e2"; "-10e2"; "1.5e2"; "-1.5e2"; "-2147483648";
       "2147483647"; "2147483648"; "-2147483649"; "1 "]
  = [Some (VInt 1); Some (VInt (-1));
     Some (VDouble (f64_of_ratio 1 10)); Some (VDouble (SFopp (f64_of_ratio 1 10)));
     Some (VDouble (f64_of_Z 1000)); Some (VDouble (f64_of_Z (-1000)));
     Some (VDouble (f64_of_Z 150)); Some (VDouble (f64_of_Z (-150)));
     Some (VInt (-2147483648)); Some (VInt 2147483647);
     Some (VInt64 2147483648); Some (VInt64 (-2147483649)); Some (VInt 1)].
Proof. vm_compute. reflexivity. Qed.

(** ** Strict and relaxed parsing *)

Lemma parseKey_strict (inp : runes) (x : string * Uses * runes) :
  parseKey true inp = Ok x -> parseKey false inp = Ok x /\ snd (fst x) = no_uses.
Proof.
  unfold parseKey. destruct inp as [| c rest]; [discriminate |].
  destruct (Ascii.eqb c dquote).
  - destruct (parseString c rest) as [[k r] |]; cbn [bind]; [| discriminate].
    intros [= <-]. now split.
  - destruct (Ascii.eqb c "'"%char); [discriminate |].
    destruct (is_key_start c); discriminate.
Qed.

Lemma store_strict (k : string) (v : Value) (o : Object) (x : Object * Uses) :
  store true k v o = Ok x -> store false k v o = Ok x /\ snd x = no_uses.
Proof.
  unfold store. destruct (obj_has k o); [discriminate |]. intros [= <-]. now split.
Qed.

Lemma merge_no_uses_r (u : Uses) : merge u no_uses = u.
Proof. destruct u as [[] [] [] []]; reflexivity. Qed.

Lemma merge_no_uses_l (u : Uses) : merge no_uses u = u.
Proof. destruct u as [[] [] [] []]; reflexivity. Qed.

Lemma strict_relaxed_fuel (fuel : nat) :
  (forall inp x, parseValue fuel true inp = Ok x -> parseValue fuel false inp = Ok x) /\
  (forall acc u first inp x,
     parseMembers fuel true acc u first inp = Ok x ->
     parseMembers fuel false acc u first inp = Ok x) /\
  (forall acc u first inp x,
     parseElements fuel true acc u first inp = Ok x ->
     parseElements fuel false acc u first inp = Ok x).
Proof.
  induction fuel as [| fuel (IHv & IHm & IHe)].
  - repeat split; intros; discriminate.
  - repeat split.
    + intros inp x. cbn [parseValue].
      destruct inp as [| c rest]; [discriminate |].
      destruct (Ascii.eqb c "{"%char).
      { destruct (parseMembers fuel true [] no_uses true rest) as [y |] eqn:Em;
          [| discriminate].
        rewrite (IHm _ _ _ _ _ Em). exact (fun H => H). }
      destruct (Ascii.eqb c "["%char).
      { destruct (parseElements fuel true [] no_uses true rest) as [y |] eqn:Ee;
          [| discriminate].
        rewrite (IHe _ _ _ _ _ Ee). exact (fun H => H). }
      destruct (Ascii.eqb c dquote); [exact (fun H => H) |].
      destruct (Ascii.eqb c "'"%char); [discriminate |].
      destruct (Ascii.eqb c "/"%char); [exact (fun H => H) |].
      destruct (is_digit c || Ascii.eqb c "-"%char); [exact (fun H => H) |].
      destruct (Ascii.eqb c "o"%char); [discriminate |].
      exact (fun H => H).
    + intros acc u first inp x. cbn [parseMembers].
      destruct (chomp inp) as [| c rest]; [discriminate |].
      destruct (Ascii.eqb c "}"%char); [exact (fun H => H) |].
      destruct (parseKey true (c :: rest)) as [[[k uk] inp1] |] eqn:Ek; [| discriminate].
      apply parseKey_strict in Ek as [Ek _]. rewrite Ek. cbn [bind].
      destruct (chomp inp1) as [| c1 inp2]; [discriminate |].
      destruct (Ascii.eqb c1 ":"%char); [| discriminate].
      destruct (parseValue fuel true (chomp inp2)) as [[[v uv] inp3] |] eqn:Ev;
        [| discriminate].
      rewrite (IHv _ _ Ev). cbn [bind].
      destruct (store true k v acc) as [[acc' ud] |] eqn:Es; [| discriminate].
      apply store_strict in Es as [Es _]. rewrite Es. cbn [bind].
      destruct (chomp inp3) as [| c2 inp4]; [discriminate |].
      destruct (Ascii.eqb c2 ","%char); [apply IHm |].
      exact (fun H => H).
    + intros acc u first inp x. cbn [parseElements].
      destruct (chomp inp) as [| c rest]; [discriminate |].
      destruct (Ascii.eqb c "]"%char && first); [exact (fun H => H) |].
      destruct (parseValue fuel true (c :: rest)) as [[[v uv] inp1] |] eqn:Ev;
        [| discriminate].
      rewrite (IHv _ _ Ev). cbn [bind].
      destruct (chomp inp1) as [| c1 inp2]; [discriminate |].
      destruct (Ascii.eqb c1 ","%char); [apply IHe |].
      exact (fun H => H).
Qed.

Lemma plain_merge (a b : Uses) : plain (merge a b) = plain a && plain b.
Proof. destruct a as [[] [] [] []], b as [[] [] [] []]; reflexivity. Qed.

(** In strict mode nothing of the relaxed grammar is met. *)
Lemma strict_uses_fuel (fuel : nat) :
  (forall inp v u r, parseValue fuel true inp = Ok (v, u, r) -> u = no_uses) /\
  (forall acc u0 first inp o u r,
     parseMembers fuel true acc u0 first inp = Ok (o, u, r) -> u = u0) /\
  (forall acc u0 first inp a u r,
     parseElements fuel true acc u0 first inp = Ok (a, u, r) -> u = u0).
Proof.
  induction fuel as [| fuel (IHv & IHm & IHe)].
  - repeat split; intros; discriminate.
  - repeat split.
    + intros inp v u r. cbn [parseValue].
      destruct inp as [| c rest]; [discriminate |].
      destruct (Ascii.eqb c "{"%char).
      { destruct (parseMembers fuel true [] no_uses true rest) as [[[o u1] r1] |] eqn:Em;
          [| discriminate].
        apply IHm in Em. cbn [bind]. now intros [= _ <- _]. }
      destruct (Ascii.eqb c "["%char).
      { destruct (parseElements fuel true [] no_uses true rest) as [[[a u1] r1] |] eqn:Ee;
          [| discriminate].
        apply IHe in Ee. cbn [bind]. now intros [= _ <- _]. }
      destruct (Ascii.eqb c dquote).
      { destruct (parseString c rest) as [[s r1] |]; [| discriminate].
        cbn [bind]. now intros [= _ <- _]. }
      destruct (Ascii.eqb c "'"%char); [discriminate |].
      destruct (Ascii.eqb c "/"%char).
      { destruct (parseRegex rest) as [[s r1] |]; [| discriminate].
        cbn [bind]. now intros [= _ <- _]. }
      destruct (is_digit c || Ascii.eqb c "-"%char).
      { destruct (parseNumberRunes (c :: rest)) as [[s r1] |]; [| discriminate].
        cbn [bind]. now intros [= _ <- _]. }
      destruct (Ascii.eqb c "o"%char); [discriminate |].
      destruct (parseKeyword (c :: rest)) as [[s r1] |]; [| discriminate].
      cbn [bind]. now intros [= _ <- _].
    + intros acc u0 first inp o u r. cbn [parseMembers].
      destruct (chomp inp) as [| c rest]; [discriminate |].
      destruct (Ascii.eqb c "}"%char).
      { destruct first; [| discriminate]. now intros [= _ <- _]. }
      destruct (parseKey true (c :: rest)) as [[[k uk] inp1] |] eqn:Ek; [| discriminate].
      apply parseKey_strict in Ek as [_ Huk]. cbn in Huk. subst uk. cbn [bind].
      destruct (chomp inp1) as [| c1 inp2]; [discriminate |].
      destruct (Ascii.eqb c1 ":"%char); [| discriminate].
      destruct (parseValue fuel true (chomp inp2)) as [[[v uv] inp3] |] eqn:Ev;
        [| discriminate].
      apply IHv in Ev. subst uv. cbn [bind].
      destruct (store true k v acc) as [[acc' ud] |] eqn:Es; [| discriminate].
      apply store_strict in Es as [_ Hud]. cbn in Hud. subst ud. cbn [bind].
      rewrite !merge_no_uses_r.
      destruct (chomp inp3) as [| c2 inp4]; [discriminate |].
      destruct (Ascii.eqb c2 ","%char); [apply IHm |].
      destruct (Ascii.eqb c2 "}"%char); [| discriminate]. now intros [= _ <- _].
    + intros acc u0 first inp a u r. cbn [parseElements].
      destruct (chomp inp) as [| c rest]; [discriminate |].
      destruct (Ascii.eqb c "]"%char && first); [now intros [= _ <- _] |].
      destruct (parseValue fuel true (c :: rest)) as [[[v uv] inp1] |] eqn:Ev;
        [| discriminate].
      apply IHv in Ev. subst uv. cbn [bind]. rewrite merge_no_uses_r.
      destruct (chomp inp1) as [| c1 inp2]; [discriminate |].
      destruct (Ascii.eqb c1 ","%char); [apply IHe |].
      destruct (Ascii.eqb c1 "]"%char); [| discriminate]. now intros [= _ <- _].
Qed.

Lemma parseKey_plain (inp : runes) (k : string) (u : Uses) (r : runes) :
  parseKey false inp = Ok (k, u, r) -> plain u = true -> parseKey true inp = Ok (k, u, r).
Proof.
  unfold parseKey. destruct inp as [| c rest]; [discriminate |].
  destruct (Ascii.eqb c dquote); [tauto |].
  destruct (Ascii.eqb c "'"%char).
  { destruct (parseString c rest) as [[k' r'] |]; [| discriminate].
    cbn [bind]. intros [= _ <- _]. discriminate. }
  destruct (is_key_start c); [| tauto].
  destruct (span is_key_rune (c :: rest)). intros [= _ <- _]. discriminate.
Qed.

Lemma store_plain (k : string) (v : Value) (o o' : Object) (u : Uses) :
  store false k v o = Ok (o', u) -> plain u = true -> store true k v o = Ok (o', u).
Proof.
  unfold store. destruct (obj_has k o); [| tauto]. intros [= _ <-]. discriminate.
Qed.

(** A relaxed parse that met nothing of the relaxed grammar is a strict
    parse. *)
Lemma relaxed_plain_fuel (fuel : nat) :
  (forall inp v u r,
     parseValue fuel false inp = Ok (v, u, r) -> plain u = true ->
     parseValue fuel true inp = Ok (v, u, r)) /\
  (forall acc u0 first inp o u r,
     parseMembers fuel false acc u0 first inp = Ok (o, u, r) -> plain u = true ->
     plain u0 = true /\ parseMembers fuel true acc u0 first inp = Ok (o, u, r)) /\
  (forall acc u0 first inp a u r,
     parseElements fuel false acc u0 first inp = Ok (a, u, r) -> plain u = true ->
     plain u0 = true /\ parseElements fuel true acc u0 first inp = Ok (a, u, r)).
Proof.
  induction fuel as [| fuel (IHv & IHm & IHe)].
  - repeat split; intros; discriminate.
  - split; [| split].
    + intros inp v u r. cbn [parseValue].
      destruct inp as [| c rest]; [discriminate |].
      destruct (Ascii.eqb c "{"%char).
      { destruct (parseMembers fuel false [] no_uses true rest) as [[[o u1] r1] |] eqn:Em;
          [| discriminate].
        cbn [bind]. intros [= <- <- <-] Hp.
        destruct (IHm _ _ _ _ _ _ _ Em Hp) as [_ ->]. reflexivity. }
      destruct (Ascii.eqb c "["%char).
      { destruct (parseElements fuel false [] no_uses true rest) as [[[a u1] r1] |] eqn:Ee;
          [| discriminate].
        cbn [bind]. intros [= <- <- <-] Hp.
        destruct (IHe _ _ _ _ _ _ _ Ee Hp) as [_ ->]. reflexivity. }
      destruct (Ascii.eqb c dquote); [tauto |].
      destruct (Ascii.eqb c "'"%char).
      { destruct (parseString c rest) as [[s r1] |]; [| discriminate].
        cbn [bind]. intros [= _ <- _]. discriminate. }
      destruct (Ascii.eqb c "/"%char); [tauto |].
      destruct (is_digit c || Ascii.eqb c "-"%char); [tauto |].
      destruct (Ascii.eqb c "o"%char); [| tauto].
      destruct (parseConstructor (c :: rest)) as [[s r1] |]; [| discriminate].
      cbn [bind]. intros [= _ <- _]. discriminate.
    + intros acc u0 first inp o u r. cbn [parseMembers].
      destruct (chomp inp) as [| c rest]; [discriminate |].
      destruct (Ascii.eqb c "}"%char).
      { destruct first; [| discriminate]. intros [= <- <- <-] Hp. now split. }
      destruct (parseKey false (c :: rest)) as [[[k uk] inp1] |] eqn:Ek; [| discriminate].
      cbn [bind].
      destruct (chomp inp1) as [| c1 inp2] eqn:Hc1; [discriminate |].
      destruct (Ascii.eqb c1 ":"%char) eqn:Hcolon; [| discriminate].
      destruct (parseValue fuel false (chomp inp2)) as [[[v uv] inp3] |] eqn:Ev;
        [| discriminate].
      cbn [bind].
      destruct (store false k v acc) as [[acc' ud] |] eqn:Es; [| discriminate].
      cbn [bind].
      assert (Hstep : forall tail,
                plain (merge u0 (merge uk (merge uv ud))) = true ->
                match chomp inp3 with
                | [] => Err UnterminatedObject
                | c2 :: inp4 =>
                    if Ascii.eqb c2 ","%char then
                      parseMembers fuel true acc' (merge u0 (merge uk (merge uv ud))) false inp4
                    else if Ascii.eqb c2 "}"%char
                         then Ok (acc', merge u0 (merge uk (merge uv ud)), inp4)
                         else Err UnexpectedCharacter
                end = tail ->
                plain u0 = true /\
                (res <- parseKey true (c :: rest) ;;
                 let '(k, uk, inp1) := res in
                 match chomp inp1 with
                 | [] => Err UnterminatedObject
                 | c1 :: inp2 =>
                     if Ascii.eqb c1 ":"%char then
                       res <- parseValue fuel true (chomp inp2) ;;
                       let '(v, uv, inp3) := res in
                       res <- store true k v acc ;;
                       let '(acc', ud) := res in
                       let u' := merge u0 (merge uk (merge uv ud)) in
                       match chomp inp3 with
                       | [] => Err UnterminatedObject
                       | c2 :: inp4 =>
                           if Ascii.eqb c2 ","%char then
                             parseMembers fuel true acc' u' false inp4
                           else if Ascii.eqb c2 "}"%char then Ok (acc', u', inp4)
                           else Err UnexpectedCharacter
                       end
                     else Err UnexpectedCharacter
                 end) = tail).
      { intros tail H Htail. rewrite !plain_merge in H.
        apply andb_prop in H as [H0 H]. apply andb_prop in H as [Hk H].
        apply andb_prop in H as [Hv Hd].
        split; [assumption |].
        rewrite (parseKey_plain _ _ _ _ Ek Hk). cbn [bind]. rewrite Hc1, Hcolon.
        rewrite (IHv _ _ _ _ Ev Hv). cbn [bind].
        rewrite (store_plain _ _ _ _ _ Es Hd). cbn [bind]. exact Htail. }
      destruct (chomp inp3) as [| c2 inp4]; [discriminate |].
      destruct (Ascii.eqb c2 ","%char).
      { intros Hrec Hp. destruct (IHm _ _ _ _ _ _ _ Hrec Hp) as [Hu' Hrec'].
        now apply Hstep. }
      destruct (Ascii.eqb c2 "}"%char); [| discriminate].
      intros [= <- <- <-] Hp. now apply Hstep.
    + intros acc u0 first inp a u r. cbn [parseElements].
      destruct (chomp inp) as [| c rest]; [discriminate |].
      destruct (Ascii.eqb c "]"%char && first).
      { intros [= <- <- <-] Hp. now split. }
      destruct (parseValue fuel false (c :: rest)) as [[[v uv] inp1] |] eqn:Ev;
        [| discriminate].
      cbn [bind].
      assert (Hstep : forall tail,
                plain (merge u0 uv) = true ->
                match chomp inp1 with
                | [] => Err UnterminatedArray
                | c1 :: inp2 =>
                    if Ascii.eqb c1 ","%char then
                      parseElements fuel true (acc ++ [v]) (merge u0 uv) false inp2
                    else if Ascii.eqb c1 "]"%char then Ok (acc ++ [v], merge u0 uv, inp2)
                         else Err UnexpectedCharacter
                end = tail ->
                plain u0 = true /\
                (res <- parseValue fuel true (c :: rest) ;;
                 let '(v, uv, inp1) := res in
                 let acc' := acc ++ [v] in
                 let u' := merge u0 uv in
                 match chomp inp1 with
                 | [] => Err UnterminatedArray
                 | c1 :: inp2 =>
                     if Ascii.eqb c1 ","%char then
                       parseElements fuel true acc' u' false inp2
                     else if Ascii.eqb c1 "]"%char then Ok (acc', u', inp2)
                          else Err UnexpectedCharacter
                 end) = tail).
      { intros tail H Htail. rewrite plain_merge in H. apply andb_prop in H as [H0 Hv].
        split; [assumption |].
        rewrite (IHv _ _ _ _ Ev Hv). cbn [bind]. exact Htail. }
      destruct (chomp inp1) as [| c1 inp2]; [discriminate |].
      destruct (Ascii.eqb c1 ","%char).
      { intros Hrec Hp. destruct (IHe _ _ _ _ _ _ _ Hrec Hp) as [Hu' Hrec'].
        now apply Hstep. }
      destruct (Ascii.eqb c1 "]"%char); [| discriminate].
      intros [= <- <- <-] Hp. now apply Hstep.
Qed.

(** *** Every parser moves forward *)

Lemma chomp_length (l : runes) : (length (chomp l) <= length l)%nat.
Proof.
  induction l as [| c l IH]; cbn; [lia |]. destruct (is_space c); cbn; lia.
Qed.

Lemma span_length (p : ascii -> bool) (l : runes) :
  (length (fst (span p l)) + length (snd (span p l)) = length l)%nat.
Proof.
  induction l as [| c l IH]; cbn; [reflexivity |].
  destruct (p c); [| reflexivity]. destruct (span p l). cbn in *. lia.
Qed.

Lemma span_rest_length (p : ascii -> bool) (l : runes) :
  (length (snd (span p l)) <= length l)%nat.
Proof. pose proof (span_length p l). lia. Qed.

Lemma scanString_length_bounded (q : ascii) (n : nat) (inp s r : runes) :
  (length inp <= n)%nat -> scanString q inp = Ok (s, r) -> (length r < length inp)%nat.
Proof.
  revert inp s r. induction n as [| n IH]; intros inp s r Hn.
  - destruct inp; [discriminate | cbn in Hn; lia].
  - destruct inp as [| c rest]; [discriminate |]. cbn [scanString]. cbn in Hn.
    destruct (Ascii.eqb c q).
    + intros [= <- <-]. cbn. lia.
    + destruct (Ascii.eqb c "\"%char).
      * destruct rest as [| e rest']; [discriminate |].
        destruct (unescape e); [| discriminate].
        destruct (scanString q rest') as [[s' r'] |] eqn:E; [| discriminate].
        cbn [bind]. intros [= <- <-]. apply IH in E; cbn in *; lia.
      * destruct (scanString q rest) as [[s' r'] |] eqn:E; [| discriminate].
        cbn [bind]. intros [= <- <-]. apply IH in E; cbn in *; lia.
Qed.

Lemma scanString_length (q : ascii) (inp s r : runes) :
  scanString q inp = Ok (s, r) -> (length r < length inp)%nat.
Proof. now apply (scanString_length_bounded q (length inp)). Qed.

Lemma parseString_length (q : ascii) (inp : runes) (s : string) (r : runes) :
  parseString q inp = Ok (s, r) -> (length r < length inp)%nat.
Proof.
  unfold parseString. destruct (scanString q inp) as [[s' r'] |] eqn:E; [| discriminate].
  cbn [bind]. intros [= <- <-]. now apply scanString_length in E.
Qed.

Lemma scanRegex_length_bounded (n : nat) (inp s r : runes) :
  (length inp <= n)%nat -> scanRegex inp = Ok (s, r) -> (length r < length inp)%nat.
Proof.
  revert inp s r. induction n as [| n IH]; intros inp s r Hn.
  - destruct inp; [discriminate | cbn in Hn; lia].
  - destruct inp as [| c rest]; [discriminate |]. cbn [scanRegex]. cbn in Hn.
    destruct (Ascii.eqb c "/"%char).
    + intros [= <- <-]. cbn. lia.
    + destruct (Ascii.eqb c "\"%char).
      * destruct rest as [| e rest']; [discriminate |].
        destruct (scanRegex rest') as [[s' r'] |] eqn:E; [| discriminate].
        cbn [bind]. intros [= <- <-]. apply IH in E; cbn in *; lia.
      * destruct (scanRegex rest) as [[s' r'] |] eqn:E; [| discriminate].
        cbn [bind]. intros [= <- <-]. apply IH in E; cbn in *; lia.
Qed.

Lemma scanRegex_length (inp s r : runes) :
  scanRegex inp = Ok (s, r) -> (length r < length inp)%nat.
Proof. now apply (scanRegex_length_bounded (length inp)). Qed.

Lemma parseRegex_length (inp : runes) (v : Value) (r : runes) :
  parseRegex inp = Ok (v, r) -> (length r < length inp)%nat.
Proof.
  unfold parseRegex. destruct (scanRegex inp) as [[p r0] |] eqn:E; [| discriminate].
  cbn [bind]. pose proof (span_rest_length is_letter r0) as Hs.
  destruct (span is_letter r0) as [flags r']. intros [= <- <-].
  apply scanRegex_length in E. cbn in Hs. lia.
Qed.

Lemma scanOptional_length (p : ascii -> bool) (inp : runes) :
  (length (snd (scanOptional p inp)) <= length inp)%nat.
Proof.
  destruct inp as [| c rest]; cbn; [lia |]. destruct (p c); cbn; lia.
Qed.

Lemma scanExponent_length (inp : runes) (e : Z) (r : runes) :
  scanExponent inp = Ok (e, r) -> (length r <= length inp)%nat.
Proof.
  unfold scanExponent.
  set (sg := match inp with
             | [] => (false, inp)
             | c :: rest =>
                 if Ascii.eqb c "-"%char then (true, rest)
                 else if Ascii.eqb c "+"%char then (false, rest) else (false, inp)
             end).
  assert (Hsg : (length (snd sg) <= length inp)%nat).
  { subst sg. destruct inp as [| c rest]; cbn; [lia |].
    destruct (Ascii.eqb c "-"%char); cbn; [lia |].
    destruct (Ascii.eqb c "+"%char); cbn; lia. }
  destruct sg as [eneg inp1]. cbn in Hsg.
  pose proof (span_rest_length is_digit inp1) as Hs.
  destruct (span is_digit inp1) as [ds inp2]. destruct ds; [discriminate |].
  intros [= _ <-]. cbn in Hs. lia.
Qed.

Lemma parseNumberRunes_length (inp : runes) (v : Value) (r : runes) :
  parseNumberRunes inp = Ok (v, r) -> (length r < length inp)%nat.
Proof.
  unfold parseNumberRunes.
  pose proof (scanOptional_length is_minus inp) as H0.
  destruct (scanOptional is_minus inp) as [neg inp0]. cbn in H0.
  pose proof (span_length is_digit inp0) as H1.
  destruct (span is_digit inp0) as [ints inp1]. cbn in H1.
  destruct ints as [| d ints]; [discriminate |]. cbn in H1.
  pose proof (scanOptional_length is_point inp1) as H2.
  destruct (scanOptional is_point inp1) as [point inp1']. cbn in H2.
  assert (H3 : forall frac inp2,
            (if point then scanFraction inp1' else Ok ([], inp1)) = Ok (frac, inp2) ->
            (length inp2 <= length inp1)%nat).
  { intros frac inp2. destruct point.
    - unfold scanFraction. pose proof (span_rest_length is_digit inp1') as Hs.
      destruct (span is_digit inp1') as [ds r']. destruct ds; [discriminate |].
      intros [= _ <-]. cbn in Hs. lia.
    - intros [= _ <-]. lia. }
  destruct (if point then scanFraction inp1' else Ok ([], inp1)) as [[frac inp2] |];
    [| discriminate].
  specialize (H3 frac inp2 eq_refl). cbn [bind].
  pose proof (scanOptional_length is_exp_mark inp2) as H4.
  destruct (scanOptional is_exp_mark inp2) as [emark inp2']. cbn in H4.
  assert (H5 : forall e inp3,
            (if emark then scanExponent inp2' else Ok (0, inp2)) = Ok (e, inp3) ->
            (length inp3 <= length inp2)%nat).
  { intros e inp3. destruct emark.
    - intros He. apply scanExponent_length in He. lia.
    - intros [= _ <-]. lia. }
  destruct (if emark then scanExponent inp2' else Ok (0, inp2)) as [[e inp3] |];
    [| discriminate].
  specialize (H5 e inp3 eq_refl). cbn [bind].
  destruct (point || emark).
  - intros [= _ <-]. lia.
  - destruct (integer_value _); [| discriminate]. cbn [bind]. intros [= _ <-]. lia.
Qed.

Lemma expect_length (w inp r : runes) :
  expect w inp = Some r -> (length r + length w = length inp)%nat.
Proof.
  revert inp. induction w as [| c w IH]; intros inp; cbn.
  - intros [= <-]. lia.
  - destruct inp as [| c' inp]; [discriminate |].
    destruct (Ascii.eqb c c'); [| discriminate]. intros H. apply IH in H. cbn. lia.
Qed.

Lemma parseConstructor_length (inp : runes) (v : Value) (r : runes) :
  parseConstructor inp = Ok (v, r) -> (length r < length inp)%nat.
Proof.
  unfold parseConstructor.
  destruct (expect _ inp) as [r0 |] eqn:E; [| discriminate].
  apply expect_length in E. cbn in E.
  pose proof (span_rest_length is_hex r0) as Hs.
  destruct (span is_hex r0) as [h r']. cbn in Hs.
  destruct r' as [| c r'']; [discriminate |].
  destruct (Ascii.eqb c ")"%char); [| discriminate].
  destruct (objectid_of_hex h); [| discriminate].
  intros [= _ <-]. cbn in Hs. lia.
Qed.

Lemma parseKeyword_length (inp : runes) (v : Value) (r : runes) :
  parseKeyword inp = Ok (v, r) -> (length r < length inp)%nat.
Proof.
  unfold parseKeyword.
  destruct (expect (list_ascii_of_string "true") inp) as [r0 |] eqn:E1.
  { intros [= _ <-]. apply expect_length in E1. cbn in E1. lia. }
  destruct (expect (list_ascii_of_string "false") inp) as [r0 |] eqn:E2.
  { intros [= _ <-]. apply expect_length in E2. cbn in E2. lia. }
  destruct (expect (list_ascii_of_string "null") inp) as [r0 |] eqn:E3; [| discriminate].
  intros [= _ <-]. apply expect_length in E3. cbn in E3. lia.
Qed.

Lemma parseKey_length (strict : bool) (inp : runes) (k : string) (u : Uses) (r : runes) :
  parseKey strict inp = Ok (k, u, r) -> (length r < length inp)%nat.
Proof.
  unfold parseKey. destruct inp as [| c rest]; [discriminate |].
  destruct (Ascii.eqb c dquote).
  { destruct (parseString c rest) as [[k' r'] |] eqn:E; [| discriminate].
    cbn [bind]. intros [= _ _ <-]. apply parseString_length in E. cbn. lia. }
  destruct (Ascii.eqb c "'"%char).
  { destruct strict; [discriminate |].
    destruct (parseString c rest) as [[k' r'] |] eqn:E; [| discriminate].
    cbn [bind]. intros [= _ _ <-]. apply parseString_length in E. cbn. lia. }
  destruct (is_key_start c) eqn:Hc; [| discriminate].
  destruct strict; [discriminate |].
  cbn [span]. unfold is_key_rune at 1. rewrite Hc. cbn [orb].
  pose proof (span_rest_length is_key_rune rest) as Hs.
  destruct (span is_key_rune rest) as [w r0]. intros [= _ _ <-]. cbn in *. lia.
Qed.

Lemma parse_progress (fuel : nat) :
  (forall s inp v u r,
     parseValue fuel s inp = Ok (v, u, r) -> (length r < length inp)%nat) /\
  (forall s acc u0 first inp o u r,
     parseMembers fuel s acc u0 first inp = Ok (o, u, r) -> (length r < length inp)%nat) /\
  (forall s acc u0 first inp a u r,
     parseElements fuel s acc u0 first inp = Ok (a, u, r) -> (length r < length inp)%nat).
Proof.
  induction fuel as [| fuel (IHv & IHm & IHe)].
  - repeat split; intros; discriminate.
  - split; [| split].
    + intros s inp v u r. cbn [parseValue].
      destruct inp as [| c rest]; [discriminate |].
      destruct (Ascii.eqb c "{"%char).
      { destruct (parseMembers fuel s [] no_uses true rest) as [[[o u1] r1] |] eqn:Em;
          [| discriminate].
        cbn [bind]. intros [= _ _ <-]. apply IHm in Em. cbn. lia. }
      destruct (Ascii.eqb c "["%char).
      { destruct (parseElements fuel s [] no_uses true rest) as [[[a u1] r1] |] eqn:Ee;
          [| discriminate].
        cbn [bind]. intros [= _ _ <-]. apply IHe in Ee. cbn. lia. }
      destruct (Ascii.eqb c dquote).
      { destruct (parseString c rest) as [[x r1] |] eqn:E; [| discriminate].
        cbn [bind]. intros [= _ _ <-]. apply parseString_length in E. cbn. lia. }
      destruct (Ascii.eqb c "'"%char).
      { destruct s; [discriminate |].
        destruct (parseString c rest) as [[x r1] |] eqn:E; [| discriminate].
        cbn [bind]. intros [= _ _ <-]. apply parseString_length in E. cbn. lia. }
      destruct (Ascii.eqb c "/"%char).
      { destruct (parseRegex rest) as [[x r1] |] eqn:E; [| discriminate].
        cbn [bind]. intros [= _ _ <-]. apply parseRegex_length in E. cbn. lia. }
      destruct (is_digit c || Ascii.eqb c "-"%char).
      { destruct (parseNumberRunes (c :: rest)) as [[x r1] |] eqn:E; [| discriminate].
        cbn [bind]. intros [= _ _ <-]. now apply parseNumberRunes_length in E. }
      destruct (Ascii.eqb c "o"%char).
      { destruct s; [discriminate |].
        destruct (parseConstructor (c :: rest)) as [[x r1] |] eqn:E; [| discriminate].
        cbn [bind]. intros [= _ _ <-]. now apply parseConstructor_length in E. }
      destruct (parseKeyword (c :: rest)) as [[x r1] |] eqn:E; [| discriminate].
      cbn [bind]. intros [= _ _ <-]. now apply parseKeyword_length in E.
    + intros s acc u0 first inp o u r. cbn [parseMembers].
      pose proof (chomp_length inp) as H0.
      destruct (chomp inp) as [| c rest]; [discriminate |].
      destruct (Ascii.eqb c "}"%char).
      { destruct first; [| discriminate]. intros [= _ _ <-]. cbn in H0. lia. }
      destruct (parseKey s (c :: rest)) as [[[k uk] inp1] |] eqn:Ek; [| discriminate].
      apply parseKey_length in Ek. cbn [bind].
      pose proof (chomp_length inp1) as H1.
      destruct (chomp inp1) as [| c1 inp2]; [discriminate |].
      destruct (Ascii.eqb c1 ":"%char); [| discriminate].
      pose proof (chomp_length inp2) as H2.
      destruct (parseValue fuel s (chomp inp2)) as [[[v uv] inp3] |] eqn:Ev;
        [| discriminate].
      apply IHv in Ev. cbn [bind].
      destruct (store s k v acc) as [[acc' ud] |]; [| discriminate]. cbn [bind].
      pose proof (chomp_length inp3) as H3.
      destruct (chomp inp3) as [| c2 inp4]; [discriminate |].
      destruct (Ascii.eqb c2 ","%char).
      { intros Hrec. apply IHm in Hrec. cbn in *. lia. }
      destruct (Ascii.eqb c2 "}"%char); [| discriminate].
      intros [= _ _ <-]. cbn in *. lia.
    + intros s acc u0 first inp a u r. cbn [parseElements].
      pose proof (chomp_length inp) as H0.
      destruct (chomp inp) as [| c rest]; [discriminate |].
      destruct (Ascii.eqb c "]"%char && first).
      { intros [= _ _ <-]. cbn in H0. lia. }
      destruct (parseValue fuel s (c :: rest)) as [[[v uv] inp1] |] eqn:Ev;
        [| discriminate].
      apply IHv in Ev. cbn [bind].
      pose proof (chomp_length inp1) as H1.
      destruct (chomp inp1) as [| c1 inp2]; [discriminate |].
      destruct (Ascii.eqb c1 ","%char).
      { intros Hrec. apply IHe in Hrec. cbn in *. lia. }
      destruct (Ascii.eqb c1 "]"%char); [| discriminate].
      intros [= _ _ <-]. cbn in *. lia.
Qed.

(** *** The fuel never runs out *)

Lemma real_bind {A B : Type} (c : result A) (k : A -> result B) :
  real c -> (forall a, c = Ok a -> real (k a)) -> real (bind c k).
Proof.
  unfold real. destruct c as [a | e]; cbn.
  - intros _ H. now apply H.
  - intros H _. congruence.
Qed.

Lemma scanString_real (q : ascii) (n : nat) (inp : runes) :
  (length inp <= n)%nat -> real (scanString q inp).
Proof.
  revert inp. induction n as [| n IH]; intros inp Hn.
  - destruct inp; [discriminate | cbn in Hn; lia].
  - destruct inp as [| c rest]; [discriminate |]. cbn [scanString]. cbn in Hn.
    destruct (Ascii.eqb c q); [discriminate |].
    destruct (Ascii.eqb c "\"%char).
    + destruct rest as [| e rest']; [discriminate |].
      destruct (unescape e); [| discriminate].
      apply real_bind; [apply IH; cbn in *; lia |]. intros [s r] _. discriminate.
    + apply real_bind; [apply IH; cbn in *; lia |]. intros [s r] _. discriminate.
Qed.

Lemma parseString_real (q : ascii) (inp : runes) : real (parseString q inp).
Proof.
  unfold parseString. apply real_bind; [now apply (scanString_real q (length inp)) |].
  intros [s r] _. discriminate.
Qed.

Lemma scanRegex_real (n : nat) (inp : runes) : (length inp <= n)%nat -> real (scanRegex inp).
Proof.
  revert inp. induction n as [| n IH]; intros inp Hn.
  - destruct inp; [discriminate | cbn in Hn; lia].
  - destruct inp as [| c rest]; [discriminate |]. cbn [scanRegex]. cbn in Hn.
    destruct (Ascii.eqb c "/"%char); [discriminate |].
    destruct (Ascii.eqb c "\"%char).
    + destruct rest as [| e rest']; [discriminate |].
      apply real_bind; [apply IH; cbn in *; lia |]. intros [s r] _. discriminate.
    + apply real_bind; [apply IH; cbn in *; lia |]. intros [s r] _. discriminate.
Qed.

Lemma parseRegex_real (inp : runes) : real (parseRegex inp).
Proof.
  unfold parseRegex. apply real_bind; [now apply (scanRegex_real (length inp)) |].
  intros [s r] _. destruct (span is_letter r). discriminate.
Qed.

Lemma parseNumberRunes_real (inp : runes) : real (parseNumberRunes inp).
Proof.
  unfold parseNumberRunes. destruct (scanOptional is_minus inp) as [neg inp0].
  destruct (span is_digit inp0) as [ints inp1]. destruct ints; [discriminate |].
  destruct (scanOptional is_point inp1) as [point inp1'].
  apply real_bind.
  { destruct point; [| discriminate]. unfold scanFraction.
    destruct (span is_digit inp1') as [ds r]. destruct ds; discriminate. }
  intros [frac inp2] _. destruct (scanOptional is_exp_mark inp2) as [emark inp2'].
  apply real_bind.
  { destruct emark; [| discriminate]. unfold scanExponent.
    destruct inp2' as [| c rest].
    - cbn. discriminate.
    - destruct (Ascii.eqb c "-"%char); [| destruct (Ascii.eqb c "+"%char)];
        match goal with
        | |- context [span is_digit ?l] => destruct (span is_digit l) as [ds r]
        end; destruct ds; discriminate. }
  intros [e inp3] _. destruct (point || emark); [discriminate |].
  apply real_bind; [| intros; discriminate].
  unfold integer_value. destruct (in_int32 _); [discriminate |].
  destruct (in_int64 _); discriminate.
Qed.

Lemma parseConstructor_real (inp : runes) : real (parseConstructor inp).
Proof.
  unfold parseConstructor. destruct (expect _ inp) as [r |]; [| discriminate].
  destruct (span is_hex r) as [h r']. destruct r' as [| c r'']; [discriminate |].
  destruct (Ascii.eqb c ")"%char); [| discriminate].
  destruct (objectid_of_hex h); discriminate.
Qed.

Lemma parseKeyword_real (inp : runes) : real (parseKeyword inp).
Proof.
  unfold parseKeyword.
  destruct (expect (list_ascii_of_string "true") inp); [discriminate |].
  destruct (expect (list_ascii_of_string "false") inp); [discriminate |].
  destruct (expect (list_ascii_of_string "null") inp); discriminate.
Qed.

Lemma parseKey_real (strict : bool) (inp : runes) : real (parseKey strict inp).
Proof.
  unfold parseKey. destruct inp as [| c rest]; [discriminate |].
  destruct (Ascii.eqb c dquote).
  { apply real_bind; [apply parseString_real |]. intros [k r] _. discriminate. }
  destruct (Ascii.eqb c "'"%char).
  { destruct strict; [discriminate |].
    apply real_bind; [apply parseString_real |]. intros [k r] _. discriminate. }
  destruct (is_key_start c); [| discriminate].
  destruct strict; [discriminate |].
  destruct (span is_key_rune (c :: rest)). discriminate.
Qed.

Lemma store_real (strict : bool) (k : string) (v : Value) (o : Object) :
  real (store strict k v o).
Proof. unfold store. destruct (obj_has k o); [destruct strict |]; discriminate. Qed.

Lemma parse_fuel (fuel : nat) :
  (forall s inp, (2 * length inp <= fuel)%nat -> (1 <= fuel)%nat ->
     real (parseValue fuel s inp)) /\
  (forall s acc u first inp, (2 * length inp + 1 <= fuel)%nat ->
     real (parseMembers fuel s acc u first inp)) /\
  (forall s acc u first inp, (2 * length inp + 1 <= fuel)%nat ->
     real (parseElements fuel s acc u first inp)).
Proof.
  induction fuel as [| fuel (IHv & IHm & IHe)].
  - repeat split; intros; lia.
  - split; [| split].
    + intros s inp Hlen _. cbn [parseValue].
      destruct inp as [| c rest]; [discriminate |]. cbn in Hlen.
      destruct (Ascii.eqb c "{"%char).
      { apply real_bind; [apply IHm; lia |]. intros [[o u] r] _. discriminate. }
      destruct (Ascii.eqb c "["%char).
      { apply real_bind; [apply IHe; lia |]. intros [[o u] r] _. discriminate. }
      destruct (Ascii.eqb c dquote).
      { apply real_bind; [apply parseString_real |]. intros [x r] _. discriminate. }
      destruct (Ascii.eqb c "'"%char).
      { destruct s; [discriminate |].
        apply real_bind; [apply parseString_real |]. intros [x r] _. discriminate. }
      destruct (Ascii.eqb c "/"%char).
      { apply real_bind; [apply parseRegex_real |]. intros [x r] _. discriminate. }
      destruct (is_digit c || Ascii.eqb c "-"%char).
      { apply real_bind; [apply parseNumberRunes_real |]. intros [x r] _. discriminate. }
      destruct (Ascii.eqb c "o"%char).
      { destruct s; [discriminate |].
        apply real_bind; [apply parseConstructor_real |]. intros [x r] _. discriminate. }
      apply real_bind; [apply parseKeyword_real |]. intros [x r] _. discriminate.
    + intros s acc u first inp Hlen. cbn [parseMembers].
      pose proof (chomp_length inp) as H0.
      destruct (chomp inp) as [| c rest]; [discriminate |].
      destruct (Ascii.eqb c "}"%char); [destruct first; discriminate |].
      apply real_bind; [apply parseKey_real |].
      intros [[k uk] inp1] Ek. apply parseKey_length in Ek.
      pose proof (chomp_length inp1) as H1.
      destruct (chomp inp1) as [| c1 inp2]; [discriminate |].
      destruct (Ascii.eqb c1 ":"%char); [| discriminate].
      pose proof (chomp_length inp2) as H2.
      apply real_bind; [apply IHv; cbn in *; lia |].
      intros [[v uv] inp3] Ev. apply (proj1 (parse_progress fuel)) in Ev.
      apply real_bind; [apply store_real |].
      intros [acc' ud] _.
      pose proof (chomp_length inp3) as H3.
      destruct (chomp inp3) as [| c2 inp4]; [discriminate |].
      destruct (Ascii.eqb c2 ","%char); [apply IHm; cbn in *; lia |].
      destruct (Ascii.eqb c2 "}"%char); discriminate.
    + intros s acc u first inp Hlen. cbn [parseElements].
      pose proof (chomp_length inp) as H0.
      destruct (chomp inp) as [| c rest]; [discriminate |].
      destruct (Ascii.eqb c "]"%char && first); [discriminate |].
      apply real_bind; [apply IHv; cbn in *; lia |].
      intros [[v uv] inp1] Ev. apply (proj1 (parse_progress fuel)) in Ev.
      pose proof (chomp_length inp1) as H1.
      destruct (chomp inp1) as [| c1 inp2]; [discriminate |].
      destruct (Ascii.eqb c1 ","%char); [apply IHe; cbn in *; lia |].
      destruct (Ascii.eqb c1 "]"%char); discriminate.
Qed.

(** The parser is total: it never stops for lack of fuel. *)
Lemma parseDocument_real (strict : bool) (inp : runes) : real (parseDocument strict inp).
Proof.
  unfold parseDocument. destruct inp as [| c rest]; [discriminate |].
  destruct (Ascii.eqb c "{"%char); [| discriminate].
  apply (proj1 (proj2 (parse_fuel (2 * length (c :: rest))))). cbn [length]. lia.
Qed.

(** *** The two modes of [ParseJson] *)

Lemma ParseJson_traced (json : string) (strict : bool) :
  ParseJson json strict =
  bind (parseJsonTraced strict (list_ascii_of_string json)) (fun res => Ok (fst (fst res))).
Proof.
  unfold ParseJson, ParseJsonRunes, NewRuneReader, upcoming. cbn [rr_runes rr_next].
  rewrite drop_0.
  destruct (parseJsonTraced strict (list_ascii_of_string json)) as [[[o u] rest] |];
    reflexivity.
Qed.

Lemma ParseJson_strict_document (json : string) (o : Object) :
  ParseJson json true = Ok o <->
  exists u, parseDocument true (list_ascii_of_string json) = Ok (o, u, []).
Proof.
  rewrite ParseJson_traced. unfold parseJsonTraced.
  destruct (parseDocument true (list_ascii_of_string json)) as [[[o' u'] rest] |]; cbn [bind].
  - destruct rest as [| c rest]; cbn [bind fst].
    + split; [intros [= <-]; now exists u' | intros [u [= -> _]]; reflexivity].
    + split; [discriminate | intros [u H]; discriminate].
  - split; [discriminate | intros [u H]; discriminate].
Qed.

Lemma ParseJson_relaxed_document (json : string) (o : Object) :
  ParseJson json false = Ok o <->
  exists u rest, parseDocument false (list_ascii_of_string json) = Ok (o, u, rest).
Proof.
  rewrite ParseJson_traced. unfold parseJsonTraced.
  destruct (parseDocument false (list_ascii_of_string json)) as [[[o' u'] rest] |]; cbn [bind fst].
  - split; [intros [= <-]; now exists u', rest | intros (u & r & [= -> _ _]); reflexivity].
  - split; [discriminate | intros (u & r & H); discriminate].
Qed.

Lemma parseDocument_strict_relaxed (inp : runes) (x : Object * Uses * runes) :
  parseDocument true inp = Ok x -> parseDocument false inp = Ok x.
Proof.
  unfold parseDocument. destruct inp as [| c rest]; [discriminate |].
  destruct (Ascii.eqb c "{"%char); [| discriminate].
  apply (proj1 (proj2 (strict_relaxed_fuel _))).
Qed.

Lemma parseDocument_strict_plain (inp : runes) (o : Object) (u : Uses) (r : runes) :
  parseDocument true inp = Ok (o, u, r) -> plain u = true.
Proof.
  unfold parseDocument. destruct inp as [| c rest]; [discriminate |].
  destruct (Ascii.eqb c "{"%char); [| discriminate].
  intros H. apply (proj1 (proj2 (strict_uses_fuel _))) in H. now subst.
Qed.

Lemma parseDocument_plain_strict (inp : runes) (o : Object) (u : Uses) (r : runes) :
  parseDocument false inp = Ok (o, u, r) -> plain u = true ->
  parseDocument true inp = Ok (o, u, r).
Proof.
  unfold parseDocument. destruct inp as [| c rest]; [discriminate |].
  destruct (Ascii.eqb c "{"%char); [| discriminate].
  intros H Hp. now apply (proj1 (proj2 (relaxed_plain_fuel _))) in H.
Qed.

(** C3. What strict mode accepts, relaxed mode accepts with the same
    result. *)
Theorem ParseJson_strict_relaxed (s : string) (v : Object) :
  ParseJson s true = Ok v -> ParseJson s false = Ok v.
Proof.
  rewrite ParseJson_strict_document, ParseJson_relaxed_document.
  intros [u H]. exists u, []. now apply parseDocument_strict_relaxed.
Qed.

Lemma ParseJson_strict_relaxed_witness :
  ParseJson (dq "{`key1` : `value` , `key2` : [1, 2.5, /a/i] }") false =
  Ok [("key1", VString "value");
      ("key2", VArray [VInt 1; VDouble (f64_of_ratio 5 2); VRegex "a" "i"])].
Proof.
  apply (ParseJson_strict_relaxed
           (dq "{`key1` : `value` , `key2` : [1, 2.5, /a/i] }")). reflexivity.
Defined.

(** C2, refuted as stated: strict mode accepts a bare regex literal, and
    it differs from relaxed mode on a document that uses none of the four
    extensions but is followed by whitespace. *)
Lemma strict_accepts_regex :
  ParseJson (dq "{`key`: /regex/i }") true = Ok [("key", VRegex "regex" "i")] /\
  ParseJson (dq "{`key`:`value`}  ") false = Ok [("key", VString "value")] /\
  ParseJson (dq "{`key`:`value`}  ") true = Err UnexpectedCharacter.
Proof. repeat split; reflexivity. Qed.

(** C2, as the parser has it. When relaxed mode reads a document, strict
    mode reads the same text with the same result if the parse met no
    bareword key, no single-quoted string, no constructor and no key given
    twice, and nothing follows the document; otherwise strict mode returns
    an error. Bare regex literals are read in both modes. *)
Theorem strict_mode_rejections (json : string) (o : Object) (u : Uses) (rest : runes) :
  parseDocument false (list_ascii_of_string json) = Ok (o, u, rest) ->
  ParseJson json false = Ok o /\
  (plain u = false -> exists e, ParseJson json true = Err e /\ e <> FuelExhausted) /\
  (rest <> [] -> exists e, ParseJson json true = Err e /\ e <> FuelExhausted) /\
  (plain u = true -> rest = [] -> ParseJson json true = Ok o).
Proof.
  intros Hdoc.
  assert (Hfail : (forall u', parseDocument true (list_ascii_of_string json) <> Ok (o, u', [])) ->
                  exists e, ParseJson json true = Err e /\ e <> FuelExhausted).
  { intros Hno. rewrite ParseJson_traced. unfold parseJsonTraced.
    pose proof (parseDocument_real true (list_ascii_of_string json)) as Hreal.
    destruct (parseDocument true (list_ascii_of_string json)) as [[[o' u'] r'] | e] eqn:Hs;
      cbn [bind].
    - destruct r' as [| c r'].
      + pose proof (parseDocument_strict_relaxed _ _ Hs) as Hr.
        rewrite Hdoc in Hr. injection Hr as <- <- ->. now destruct (Hno u).
      + exists UnexpectedCharacter. split; [reflexivity | discriminate].
    - exists e. split; [reflexivity |]. intros ->. now apply Hreal. }
  split; [| split; [| split]].
  - apply ParseJson_relaxed_document. now exists u, rest.
  - intros Hplain. apply Hfail. intros u' Hs.
    pose proof (parseDocument_strict_plain _ _ _ _ Hs) as Hp.
    apply parseDocument_strict_relaxed in Hs. rewrite Hdoc in Hs.
    injection Hs as <- _. congruence.
  - intros Hrest. apply Hfail. intros u' Hs.
    apply parseDocument_strict_relaxed in Hs. rewrite Hdoc in Hs.
    injection Hs as _ ->. now apply Hrest.
  - intros Hplain ->. apply ParseJson_strict_document. exists u.
    now apply parseDocument_plain_strict.
Qed.

Lemma strict_mode_rejections_witness :
  (exists e, ParseJson "{key:{$op:'value'}}" true = Err e /\ e <> FuelExhausted) /\
  (exists e, ParseJson (dq "{`key`:1} ") true = Err e /\ e <> FuelExhausted) /\
  ParseJson (dq "{`key`: [/regex/, 1]}") true = Ok [("key", VArray [VRegex "regex" ""; VInt 1])].
Proof.
  split; [| split].
  - refine (proj1 (proj2 (strict_mode_rejections "{key:{$op:'value'}}"
             [("key", VObject [("$op", VString "value")])]
             {| u_bareword := true; u_squote := true; u_constructor := false;
                u_duplicate := false |} [] _)) _); reflexivity.
  - refine (proj1 (proj2 (proj2 (strict_mode_rejections (dq "{`key`:1} ")
             [("key", VInt 1)] no_uses [" "%char] _))) _); [reflexivity | discriminate].
  - refine (proj2 (proj2 (proj2 (strict_mode_rejections (dq "{`key`: [/regex/, 1]}")
             [("key", VArray [VRegex "regex" ""; VInt 1])] no_uses [] _))) _ _);
      reflexivity.
Defined.

(** ** The tests of the parser and of the canonicalizer *)

(** [TestParseJson]: the first table is read alike by both modes, the
    second by relaxed mode only, the third by neither. *)
Example TestParseJson :
  map (fun t => ParseJson (fst t) false) TestParseJson_s1
    = map (fun t => Ok (snd t)) TestParseJson_s1 /\
  map (fun t => ParseJson (fst t) true) TestParseJson_s1
    = map (fun t => Ok (snd t)) TestParseJson_s1 /\
  map (fun t => ParseJson (fst t) false) TestParseJson_s2
    = map (fun t => Ok (snd t)) TestParseJson_s2 /\
  forallb (fun t => negb (is_ok (ParseJson (fst t) true))) TestParseJson_s2 = true /\
  forallb (fun s => negb (is_ok (ParseJson s false)) && negb (is_ok (ParseJson s true)))
    TestParseJson_n1 = true.
Proof. vm_compute. repeat split; reflexivity. Qed.

(** [TestPattern_NewPattern]. *)
Example TestPattern_NewPattern :
  map (fun s => pattern (NewPattern s)) TestPattern_s = TestPattern_d.
Proof. vm_compute. reflexivity. Qed.

(** ** binary64 arithmetic

    Facts on [SpecFloat]'s rounding, for the product of [values]. *)

Lemma digits2_pos_size (p : positive) : digits2_pos p = Pos.size p.
Proof. induction p as [p IH | p IH |]; cbn; now rewrite ?IH. Qed.

Lemma digits2_pos_bounds (p : positive) :
  2 ^ (Z.pos (digits2_pos p) - 1) <= Z.pos p < 2 ^ Z.pos (digits2_pos p).
Proof.
  rewrite digits2_pos_size.
  assert (H : Z.pos (Pos.size p) = Z.log2 (Z.pos p) + 1).
  { destruct p; cbn; lia. }
  rewrite H. replace (Z.log2 (Z.pos p) + 1 - 1) with (Z.log2 (Z.pos p)) by lia.
  replace (Z.log2 (Z.pos p) + 1) with (Z.succ (Z.log2 (Z.pos p))) by lia.
  apply Z.log2_spec. lia.
Qed.

(** The number of digits is fixed by the power-of-two bracket. *)
Lemma digits2_pos_unique (p : positive) (d : Z) :
  2 ^ (d - 1) <= Z.pos p < 2 ^ d -> Z.pos (digits2_pos p) = d.
Proof.
  intros [Hlo Hhi]. pose proof (digits2_pos_bounds p) as [Hlo' Hhi'].
  assert (Hd : 0 < d).
  { destruct (Z_lt_le_dec 0 d) as [? | Hle]; [assumption |].
    exfalso. assert (2 ^ d <= 2 ^ 0) by (apply Z.pow_le_mono_r; lia).
    change (2 ^ 0) with 1 in *. lia. }
  destruct (Z_lt_le_dec (Z.pos (digits2_pos p)) d) as [Hlt | Hge].
  - exfalso. assert (2 ^ Z.pos (digits2_pos p) <= 2 ^ (d - 1))
      by (apply Z.pow_le_mono_r; lia). lia.
  - destruct (Z_lt_le_dec d (Z.pos (digits2_pos p))) as [Hlt | Hle]; [| lia].
    exfalso. assert (2 ^ d <= 2 ^ (Z.pos (digits2_pos p) - 1))
      by (apply Z.pow_le_mono_r; lia). lia.
Qed.

Lemma iter_pos_nat {A : Type} (f : A -> A) (p : positive) (x : A) :
  SpecFloat.iter_pos f p x = Nat.iter (Pos.to_nat p) f x.
Proof.
  revert x. induction p as [p IH | p IH |]; intros x; cbn [SpecFloat.iter_pos].
  - rewrite !IH, Pos2Nat.inj_xI.
    replace (S (2 * Pos.to_nat p)) with (Pos.to_nat p + (Pos.to_nat p + 1))%nat by lia.
    rewrite !Nat.iter_add. reflexivity.
  - rewrite !IH, Pos2Nat.inj_xO.
    replace (2 * Pos.to_nat p)%nat with (Pos.to_nat p + Pos.to_nat p)%nat by lia.
    rewrite Nat.iter_add. reflexivity.
  - reflexivity.
Qed.

Lemma shr_1_spec (m : Z) (r s : bool) :
  0 <= m ->
  shr_1 {| shr_m := m; shr_r := r; shr_s := s |} =
  {| shr_m := m / 2; shr_r := Z.odd m; shr_s := r || s |}.
Proof.
  intros Hm. destruct m as [| p | p]; [reflexivity | | lia].
  destruct p as [p | p |]; cbn [shr_1 Z.odd].
  - f_equal. rewrite Pos2Z.inj_xI. apply Z.div_unique with 1; lia.
  - f_equal. rewrite Pos2Z.inj_xO. apply Z.div_unique with 0; lia.
  - reflexivity.
Qed.

(** [j + 1] shifts: the quotient, the last bit shifted out, and whether
    anything was shifted out before it. *)
Lemma iter_shr_1 (m : Z) (j : nat) :
  0 <= m ->
  Nat.iter (S j) shr_1 {| shr_m := m; shr_r := false; shr_s := false |} =
  {| shr_m := m / 2 ^ (Z.of_nat j + 1);
     shr_r := Z.odd (m / 2 ^ Z.of_nat j);
     shr_s := negb (m mod 2 ^ Z.of_nat j =? 0) |}.
Proof.
  intros Hm. induction j as [| j IH].
  - cbn [Nat.iter nat_rect]. rewrite shr_1_spec by assumption.
    change (2 ^ Z.of_nat 0) with 1. rewrite Z.div_1_r, Z.mod_1_r. reflexivity.
  - change (Nat.iter (S (S j)) shr_1 ?x) with (shr_1 (Nat.iter (S j) shr_1 x)).
    rewrite IH. rewrite shr_1_spec by (apply Z.div_pos; lia).
    assert (Hpow : 2 ^ Z.of_nat (S j) = 2 ^ Z.of_nat j * 2).
    { rewrite Nat2Z.inj_succ, Z.pow_succ_r; lia. }
    assert (Hpos : 0 < 2 ^ Z.of_nat j) by (apply Z.pow_pos_nonneg; lia).
    f_equal.
    + rewrite Z.div_div by lia.
      replace (Z.of_nat (S j) + 1) with (Z.succ (Z.of_nat j + 1)) by lia.
      rewrite Z.pow_succ_r by lia. f_equal. ring.
    + f_equal. f_equal. rewrite Hpow. replace (Z.of_nat j + 1) with (Z.succ (Z.of_nat j)) by lia.
      rewrite Z.pow_succ_r by lia. ring.
    + rewrite Hpow, Z.rem_mul_r by lia.
      pose proof (Z.mod_pos_bound m (2 ^ Z.of_nat j) Hpos) as Hr.
      destruct (Z.odd (m / 2 ^ Z.of_nat j)) eqn:Hodd.
      * rewrite Zodd_mod in Hodd. apply Z.eqb_eq in Hodd. rewrite Hodd.
        cbn [orb]. symmetry. apply negb_true_iff, Z.eqb_neq. lia.
      * rewrite Zodd_mod in Hodd. apply Z.eqb_neq in Hodd.
        assert (H0 : (m / 2 ^ Z.of_nat j) mod 2 = 0).
        { pose proof (Z.mod_pos_bound (m / 2 ^ Z.of_nat j) 2). lia. }
        rewrite H0. cbn [orb]. f_equal. f_equal. lia.
Qed.

Lemma emin_64 : emin 53 1024 = -1074.
Proof. reflexivity. Qed.

Lemma fexp_64 (x : Z) : -1021 <= x -> fexp 53 1024 x = x - 53.
Proof. intros H. unfold fexp. rewrite emin_64. lia. Qed.

(** Rounding a mantissa of [53 + k] digits to 53 digits: the result is
    within half a unit of the last place. *)
Lemma round_to_53 (m : positive) (e k : Z) :
  1 <= k ->
  2 ^ (52 + k) <= Z.pos m < 2 ^ (53 + k) ->
  -1074 <= e + k <= 971 ->
  exists q : Z,
    2 ^ 52 <= q <= 2 ^ 53 /\
    - 2 ^ (k - 1) <= q * 2 ^ k - Z.pos m <= 2 ^ (k - 1) /\
    (q < 2 ^ 53 ->
     binary_round_aux 53 1024 false (Z.pos m) e loc_Exact =
     S754_finite false (Z.to_pos q) (e + k)).
Proof.
  intros Hk [Hlo Hhi] [He1 He2].
  assert (Hdig : Z.pos (digits2_pos m) = 53 + k).
  { apply digits2_pos_unique. replace (53 + k - 1) with (52 + k) by lia. now split. }
  set (h := 2 ^ (k - 1)).
  assert (Hh : 0 < h) by (apply Z.pow_pos_nonneg; lia).
  assert (H2h : 2 ^ k = 2 * h).
  { unfold h. replace k with (Z.succ (k - 1)) at 1 by lia. rewrite Z.pow_succ_r by lia.
    reflexivity. }
  assert (H52 : 2 ^ (52 + k) = 2 ^ 52 * (2 * h)).
  { rewrite Z.pow_add_r by lia. now rewrite H2h. }
  assert (H53 : 2 ^ (53 + k) = 2 ^ 53 * (2 * h)).
  { rewrite Z.pow_add_r by lia. now rewrite H2h. }
  set (q0 := Z.pos m / 2 ^ k).
  set (b := Z.odd (Z.pos m / h)).
  set (r0 := Z.pos m mod h).
  assert (Hr0 : 0 <= r0 < h) by (apply Z.mod_pos_bound; lia).
  assert (Hq0 : Z.pos m / h / 2 = q0).
  { unfold q0. rewrite Z.div_div by lia. rewrite H2h. f_equal. ring. }
  assert (Hm : Z.pos m = 2 * (h * q0) + (if b then h else 0) + r0).
  { pose proof (Z.div_mod (Z.pos m) h ltac:(lia)) as Hd.
    pose proof (Z.div_mod (Z.pos m / h) 2 ltac:(lia)) as Hd2.
    rewrite Hq0 in Hd2. fold r0 in Hd.
    assert (Hb : (Z.pos m / h) mod 2 = if b then 1 else 0).
    { unfold b. rewrite Zodd_mod.
      pose proof (Z.mod_pos_bound (Z.pos m / h) 2 ltac:(lia)).
      destruct (Z.eqb_spec ((Z.pos m / h) mod 2) 1); lia. }
    rewrite Hb in Hd2. rewrite Hd2 in Hd. destruct b; nia. }
  assert (Hq0_bounds : 2 ^ 52 <= q0 < 2 ^ 53).
  { unfold q0. rewrite H2h. split.
    - apply Z.div_le_lower_bound; lia.
    - apply Z.div_lt_upper_bound; lia. }
  set (q := round_nearest_even q0
              (loc_of_shr_record
                 {| shr_m := q0; shr_r := b; shr_s := negb (r0 =? 0) |})).
  assert (Hq : (q = q0 \/ q = q0 + 1) /\ - h <= q * (2 * h) - Z.pos m <= h).
  { unfold q. destruct b; destruct (Z.eqb_spec r0 0) as [Hz | Hnz];
      cbn [negb loc_of_shr_record round_nearest_even].
    - destruct (Z.even q0); split; auto; nia.
    - split; auto; nia.
    - split; auto; nia.
    - split; auto; nia. }
  exists q. destruct Hq as [Hq_cases Hq_err].
  split; [lia |]. split; [rewrite H2h; lia |].
  intros Hq53.
  unfold binary_round_aux, shr_fexp. cbn [Zdigits2]. rewrite Hdig.
  rewrite fexp_64 by lia.
  replace (53 + k + e - 53 - e) with k by lia.
  destruct k as [| kp | kp]; try lia. cbn [shr shr_record_of_loc].
  rewrite iter_pos_nat.
  destruct (Pos2Nat.is_succ kp) as [j Hj]. rewrite Hj.
  assert (Hjk : Z.of_nat j = Z.pos kp - 1) by lia.
  rewrite iter_shr_1 by lia. rewrite Hjk.
  replace (Z.pos kp - 1 + 1) with (Z.pos kp) by lia.
  fold h q0 b r0. cbn [shr_m]. fold q.
  assert (Hqpos : q = Z.pos (Z.to_pos q)) by (rewrite Z2Pos.id; lia).
  assert (Hqdig : Zdigits2 q = 53).
  { rewrite Hqpos. cbn [Zdigits2]. apply digits2_pos_unique. rewrite <- Hqpos.
    change (53 - 1) with 52. lia. }
  rewrite Hqdig. rewrite fexp_64 by lia.
  replace (53 + (e + Z.pos kp) - 53 - (e + Z.pos kp)) with 0 by lia.
  cbn [shr shr_record_of_loc shr_m]. rewrite Hqpos at 1.
  destruct (Z.leb_spec (e + Z.pos kp) (1024 - 53)); [reflexivity | lia].
Qed.

(** A mantissa of 53 digits is kept as it is. *)
Lemma round_exact_53 (s : bool) (m : positive) (e : Z) :
  2 ^ 52 <= Z.pos m < 2 ^ 53 ->
  -1074 <= e <= 971 ->
  binary_round_aux 53 1024 s (Z.pos m) e loc_Exact = S754_finite s m e.
Proof.
  intros Hm He.
  assert (Hdig : Z.pos (digits2_pos m) = 53).
  { apply digits2_pos_unique. change (53 - 1) with 52. assumption. }
  unfold binary_round_aux, shr_fexp. cbn [Zdigits2]. rewrite Hdig.
  rewrite fexp_64 by lia. replace (53 + e - 53 - e) with 0 by lia.
  cbn [shr shr_record_of_loc shr_m loc_of_shr_record round_nearest_even Zdigits2].
  rewrite Hdig. rewrite fexp_64 by lia. replace (53 + e - 53 - e) with 0 by lia.
  cbn [shr shr_m].
  destruct (Z.leb_spec e (1024 - 53)); [reflexivity | lia].
Qed.

Lemma pos_iter_xO (p n : positive) : Z.pos (Pos.iter xO p n) = Z.pos p * 2 ^ Z.pos n.
Proof.
  induction n as [| n IH] using Pos.peano_ind.
  - cbn [Pos.iter]. rewrite Pos2Z.inj_xO. change (2 ^ 1) with 2. ring.
  - rewrite Pos.iter_succ, Pos2Z.inj_xO, IH, Pos2Z.inj_succ, Z.pow_succ_r by lia. ring.
Qed.

(** [float64(n)] is exact for a positive integer of at most 53 bits. *)
Lemma f64_of_Z_exact (n d : Z) :
  1 <= d <= 53 ->
  2 ^ (d - 1) <= n < 2 ^ d ->
  f64_of_Z n = S754_finite false (Z.to_pos (n * 2 ^ (53 - d))) (d - 53).
Proof.
  intros Hd [Hlo Hhi].
  assert (Hpos : 0 < n).
  { assert (0 < 2 ^ (d - 1)) by (apply Z.pow_pos_nonneg; lia). lia. }
  destruct n as [| p | p]; try lia.
  unfold f64_of_Z, binary_normalize, binary_round, f64_prec, f64_emax.
  assert (Hdig : Z.pos (digits2_pos p) = d) by (apply digits2_pos_unique; now split).
  rewrite Hdig. clear Hdig. rewrite fexp_64 by lia. unfold shl_align.
  assert (Hscaled : 2 ^ 52 <= Z.pos p * 2 ^ (53 - d) < 2 ^ 53).
  { assert (H52 : 2 ^ 52 = 2 ^ (d - 1) * 2 ^ (53 - d)).
    { rewrite <- Z.pow_add_r by lia. f_equal. lia. }
    assert (H53 : 2 ^ 53 = 2 ^ d * 2 ^ (53 - d)).
    { rewrite <- Z.pow_add_r by lia. f_equal. lia. }
    assert (0 < 2 ^ (53 - d)) by (apply Z.pow_pos_nonneg; lia).
    rewrite H52, H53. split.
    - apply Z.mul_le_mono_nonneg_r; lia.
    - apply Z.mul_lt_mono_pos_r; lia. }
  destruct (d + 0 - 53 - 0) as [| dd | dd] eqn:Hdiff; try lia.
  - assert (d = 53) by lia. subst d. change (2 ^ (53 - 53)) with 1 in *.
    rewrite Z.mul_1_r in *. cbn [Z.to_pos].
    replace (53 + 0 - 53) with 0 by lia. change (53 - 53) with 0.
    apply round_exact_53; lia.
  - assert (Hshift : Z.pos (Pos.iter xO p dd) = Z.pos p * 2 ^ (53 - d)).
    { rewrite pos_iter_xO. f_equal. f_equal. lia. }
    replace (d + 0 - 53) with (d - 53) by lia.
    rewrite round_exact_53 by (rewrite ?Hshift; lia).
    f_equal. rewrite <- Hshift. reflexivity.
Qed.

Lemma f64_0_95_value : f64_0_95 = S754_finite false 8556839292003942 (-53).
Proof. vm_compute. reflexivity. Qed.

Lemma round_095_53 (a q U W S : Z) :
  4503599627370496 <= a < 9007199254740992 ->
  64 <= S ->
  19 * a = 20 * U + W ->
  0 <= W <= 19 * S ->
  (W = 0 \/ S <= W) ->
  40564819207303340847894502572032 <= a * 8556839292003942 ->
  - 4503599627370496 <= q * 9007199254740992 - a * 8556839292003942 <= 4503599627370496 ->
  q < 9007199254740992 /\ U <= q < U + S /\ (q = U <-> W = 0).
Proof. intros. lia. Qed.

Lemma round_095_52 (a q U W S : Z) :
  4503599627370496 <= a < 9007199254740992 ->
  64 <= S ->
  38 * a = 20 * U + W ->
  0 <= W <= 19 * S ->
  (W = 0 \/ S <= W) ->
  a * 8556839292003942 < 40564819207303340847894502572032 ->
  - 2251799813685248 <= q * 4503599627370496 - a * 8556839292003942 <= 2251799813685248 ->
  q < 9007199254740992 /\ U <= q < U + S /\ (q = U <-> W = 0).
Proof. intros. lia. Qed.

Lemma scaled_remainder (f S : Z) :
  0 <= f < 20 -> 0 < S -> 0 <= f * S <= 19 * S /\ (f * S = 0 \/ S <= f * S) /\ (f * S = 0 <-> f = 0).
Proof.
  intros Hf HS.
  assert (Hcases : f = 0 \/ 1 <= f) by lia.
  destruct Hcases as [-> | H1].
  - rewrite Z.mul_0_l. lia.
  - assert (Hlo : 1 * S <= f * S) by (apply Z.mul_le_mono_nonneg_r; lia).
    assert (Hhi : f * S <= 19 * S) by (apply Z.mul_le_mono_nonneg_r; lia).
    lia.
Qed.

(** The rounded product [float64(n) * 0.95], for a length below [2 ^ 47]:
    its integer part is the floor of [19 n / 20], and it is a whole number
    exactly when 20 divides [n]. *)
Lemma p95_index_spec (n : Z) :
  2 <= n < 2 ^ 47 ->
  exists q s : Z,
    p95_index n = S754_finite false (Z.to_pos q) (- s) /\
    2 ^ 52 <= q < 2 ^ 53 /\
    6 <= s <= 52 /\
    q / 2 ^ s = 19 * n / 20 /\
    (q mod 2 ^ s = 0 <-> n mod 20 = 0).
Proof.
  intros [Hn2 Hn47].
  set (d := Z.log2 n + 1).
  assert (Hlog : 2 ^ (d - 1) <= n < 2 ^ d).
  { unfold d. replace (Z.log2 n + 1 - 1) with (Z.log2 n) by lia.
    replace (Z.log2 n + 1) with (Z.succ (Z.log2 n)) by lia. apply Z.log2_spec. lia. }
  assert (Hd : 2 <= d <= 47).
  { unfold d. split.
    - assert (Z.log2 2 <= Z.log2 n) by (apply Z.log2_le_mono; lia).
      change (Z.log2 2) with 1 in *. lia.
    - assert (Z.log2 n < 47) by (apply Z.log2_lt_pow2; lia). lia. }
  clearbody d.
  set (A := 2 ^ (53 - d)).
  assert (HA : 64 <= A).
  { unfold A. change 64 with (2 ^ 6). apply Z.pow_le_mono_r; lia. }
  assert (Ha : 4503599627370496 <= n * A < 9007199254740992).
  { assert (H52 : 4503599627370496 = 2 ^ (d - 1) * A).
    { unfold A. rewrite <- Z.pow_add_r by lia. replace (d - 1 + (53 - d)) with 52 by lia.
      reflexivity. }
    assert (H53 : 9007199254740992 = 2 ^ d * A).
    { unfold A. rewrite <- Z.pow_add_r by lia. replace (d + (53 - d)) with 53 by lia.
      reflexivity. }
    rewrite H52, H53. split.
    - apply Z.mul_le_mono_nonneg_r; lia.
    - apply Z.mul_lt_mono_pos_r; lia. }
  pose proof (f64_of_Z_exact n d ltac:(lia) Hlog) as Hconv. fold A in Hconv.
  assert (HS52 : 2 ^ (54 - d) = 2 * A).
  { unfold A. replace (54 - d) with (Z.succ (53 - d)) by lia.
    rewrite Z.pow_succ_r by lia. reflexivity. }
  assert (HS53 : 2 ^ (53 - d) = A) by reflexivity.
  clear Hlog Hn47. clearbody A.
  set (t := 19 * n / 20).
  set (f := (19 * n) mod 20).
  assert (Hdiv : 19 * n = 20 * t + f) by (apply Z.div_mod; lia).
  assert (Hf : 0 <= f < 20) by (apply Z.mod_pos_bound; lia).
  assert (Hf0 : f = 0 <-> n mod 20 = 0).
  { pose proof (Z.div_mod n 20 ltac:(lia)) as Hn.
    pose proof (Z.mod_pos_bound n 20 ltac:(lia)) as Hb. lia. }
  clearbody t f.
  unfold p95_index. rewrite Hconv, f64_0_95_value. clear Hconv.
  unfold f64_mul, SFmul, f64_prec, f64_emax. cbn [xorb].
  remember (n * A) as a eqn:Ha_def.
  set (P := (Z.to_pos a * 8556839292003942)%positive).
  assert (Hprod : Z.pos P = a * 8556839292003942).
  { unfold P. rewrite Pos2Z.inj_mul, Z2Pos.id by lia. reflexivity. }
  clearbody P.
  assert (Hwidth : Z.pos P < 40564819207303340847894502572032 \/
                   40564819207303340847894502572032 <= Z.pos P) by lia.
  destruct Hwidth as [Hw | Hw].
  - (* the product has 105 digits: 52 of them are rounded off *)
    assert (Hbounds : 2 ^ (52 + 52) <= Z.pos P < 2 ^ (53 + 52)).
    { change (2 ^ (52 + 52)) with 20282409603651670423947251286016.
      change (2 ^ (53 + 52)) with 40564819207303340847894502572032. lia. }
    destruct (round_to_53 P (d - 53 + -53) 52 ltac:(lia) Hbounds ltac:(lia))
      as (q & Hq & Herr & Hround).
    change (2 ^ 52) with 4503599627370496 in Hq, Herr.
    change (2 ^ 53) with 9007199254740992 in Hq, Hround.
    change (2 ^ (52 - 1)) with 2251799813685248 in Herr.
    rewrite Hprod in Herr, Hw.
    destruct (scaled_remainder f (2 * A) Hf ltac:(lia)) as (HW & HWS & HW0).
    assert (H38 : 38 * a = 20 * (t * (2 * A)) + f * (2 * A)).
    { rewrite Ha_def. replace (38 * (n * A)) with (19 * n * (2 * A)) by ring.
      rewrite Hdiv. ring. }
    destruct (round_095_52 a q (t * (2 * A)) (f * (2 * A)) (2 * A)
                ltac:(lia) ltac:(lia) H38 HW HWS Hw Herr) as (Hq53 & Hqt & Hq0).
    exists q, (54 - d).
    change (2 ^ 52) with 4503599627370496. change (2 ^ 53) with 9007199254740992.
    rewrite HS52.
    assert (Hquot : q / (2 * A) = t).
    { symmetry. apply Z.div_unique with (q - t * (2 * A)); lia. }
    split; [| split; [lia | split; [lia | split; [exact Hquot |]]]].
    + rewrite (Hround Hq53). f_equal. lia.
    + rewrite Z.mod_eq, Hquot by lia. rewrite <- Hf0, <- HW0. lia.
  - (* the product has 106 digits: 53 of them are rounded off *)
    assert (Hbounds : 2 ^ (52 + 53) <= Z.pos P < 2 ^ (53 + 53)).
    { change (2 ^ (52 + 53)) with 40564819207303340847894502572032.
      change (2 ^ (53 + 53)) with 81129638414606681695789005144064. lia. }
    destruct (round_to_53 P (d - 53 + -53) 53 ltac:(lia) Hbounds ltac:(lia))
      as (q & Hq & Herr & Hround).
    change (2 ^ 52) with 4503599627370496 in Hq.
    change (2 ^ 53) with 9007199254740992 in Hq, Herr, Hround.
    change (2 ^ (53 - 1)) with 4503599627370496 in Herr.
    rewrite Hprod in Herr, Hw.
    destruct (scaled_remainder f A Hf ltac:(lia)) as (HW & HWS & HW0).
    assert (H19 : 19 * a = 20 * (t * A) + f * A).
    { rewrite Ha_def. replace (19 * (n * A)) with (19 * n * A) by ring.
      rewrite Hdiv. ring. }
    destruct (round_095_53 a q (t * A) (f * A) A
                ltac:(lia) ltac:(lia) H19 HW HWS Hw Herr) as (Hq53 & Hqt & Hq0).
    exists q, (53 - d).
    change (2 ^ 52) with 4503599627370496. change (2 ^ 53) with 9007199254740992.
    rewrite HS53.
    assert (Hquot : q / A = t).
    { symmetry. apply Z.div_unique with (q - t * A); lia. }
    split; [| split; [lia | split; [lia | split; [exact Hquot |]]]].
    + rewrite (Hround Hq53). f_equal. lia.
    + rewrite Z.mod_eq, Hquot by lia. rewrite <- Hf0, <- HW0. lia.
Qed.

Lemma SFeqb_same_exponent (m1 m2 : positive) (e : Z) :
  SFeqb (S754_finite false m1 e) (S754_finite false m2 e) = Pos.eqb m1 m2.
Proof.
  unfold SFeqb, SFcompare. rewrite Z.compare_refl.
  change (Pos.compare_cont Eq m1 m2) with (Pos.compare m1 m2).
  destruct (Pos.compare_spec m1 m2) as [-> | Hlt | Hgt].
  - now rewrite Pos.eqb_refl.
  - symmetry. apply Pos.eqb_neq. lia.
  - symmetry. apply Pos.eqb_neq. lia.
Qed.

Lemma f64_of_Z_1 : f64_of_Z 1 = S754_finite false 4503599627370496 (-52).
Proof. vm_compute. reflexivity. Qed.

(** [int(index)] is the floor of [19 n / 20]. *)
Lemma p95_index_trunc (n : Z) :
  2 <= n < 2 ^ 47 -> f64_to_int64 (p95_index n) = 19 * n / 20.
Proof.
  intros Hn. destruct (p95_index_spec n Hn) as (q & s & Heq & Hq & Hs & Hdiv & _).
  rewrite Heq. unfold f64_to_int64, f64_trunc.
  destruct (Z.leb_spec 0 (- s)); [lia |].
  rewrite Z2Pos.id by lia. replace (- - s) with s by lia. rewrite Hdiv.
  assert (Hb : 0 <= 19 * n / 20 <= n).
  { split; [apply Z.div_pos; lia |]. apply Z.div_le_upper_bound; lia. }
  change (2 ^ 47) with 140737488355328 in Hn.
  assert (Hin : in_int64 (19 * n / 20) = true).
  { unfold in_int64, MinInt64, MaxInt64. change (2 ^ 63) with 9223372036854775808.
    apply andb_true_intro. split; apply Z.leb_le; lia. }
  now rewrite Hin.
Qed.

(** [float64(int64(index)) == index] holds exactly when 20 divides the
    length. *)
Lemma p95_index_whole (n : Z) :
  2 <= n < 2 ^ 47 ->
  f64_eqb (f64_of_Z (f64_to_int64 (p95_index n))) (p95_index n) = (n mod 20 =? 0).
Proof.
  intros Hn. rewrite (p95_index_trunc n Hn).
  destruct (p95_index_spec n Hn) as (q & s & Heq & Hq & Hs & Hdiv & Hmod).
  rewrite Heq, <- Hdiv.
  assert (Hpow : 0 < 2 ^ s) by (apply Z.pow_pos_nonneg; lia).
  assert (H52 : 2 ^ 52 = 2 ^ (52 - s) * 2 ^ s).
  { rewrite <- Z.pow_add_r by lia. f_equal. lia. }
  assert (H53 : 2 ^ 53 = 2 ^ (53 - s) * 2 ^ s).
  { rewrite <- Z.pow_add_r by lia. f_equal. lia. }
  assert (Ht : 2 ^ (53 - s - 1) <= q / 2 ^ s < 2 ^ (53 - s)).
  { replace (53 - s - 1) with (52 - s) by lia. split.
    - apply Z.div_le_lower_bound; [assumption |]. rewrite Z.mul_comm, <- H52. lia.
    - apply Z.div_lt_upper_bound; [assumption |]. rewrite Z.mul_comm, <- H53. lia. }
  rewrite (f64_of_Z_exact (q / 2 ^ s) (53 - s)) by (try assumption; lia).
  replace (53 - (53 - s)) with s by lia. replace (53 - s - 53) with (- s) by lia.
  unfold f64_eqb. rewrite SFeqb_same_exponent.
  assert (Hquot : 0 < q / 2 ^ s).
  { assert (0 < 2 ^ (53 - s - 1)) by (apply Z.pow_pos_nonneg; lia). lia. }
  pose proof (Z.mod_eq q (2 ^ s) ltac:(lia)) as Hmod_eq.
  pose proof (Z.mod_pos_bound q (2 ^ s) Hpow) as Hmod_b.
  destruct (Z.eqb_spec (n mod 20) 0) as [H20 | H20].
  - apply Pos.eqb_eq. f_equal. apply Hmod in H20. lia.
  - apply Pos.eqb_neq. intros Hpos_eq. apply H20, Hmod.
    apply (f_equal Z.pos) in Hpos_eq. rewrite !Z2Pos.id in Hpos_eq by nia. lia.
Qed.

(** The index is above one. *)
Lemma p95_index_above_1 (n : Z) :
  2 <= n < 2 ^ 47 -> f64_ltb (f64_of_Z 1) (p95_index n) = true.
Proof.
  intros Hn. destruct (p95_index_spec n Hn) as (q & s & Heq & Hq & Hs & Hdiv & Hmod).
  rewrite Heq, f64_of_Z_1. unfold f64_ltb, SFltb, SFcompare.
  destruct (Z.compare_spec (-52) (- s)) as [He | Hlt | Hgt]; [| reflexivity | lia].
  assert (s = 52) by lia. subst s.
  change (Pos.compare_cont Eq 4503599627370496 (Z.to_pos q))
    with (Pos.compare 4503599627370496 (Z.to_pos q)).
  change (2 ^ 52) with 4503599627370496 in *. change (2 ^ 53) with 9007199254740992 in *.
  assert (Hne : q <> 4503599627370496).
  { intros ->. change (4503599627370496 / 4503599627370496) with 1 in Hdiv.
    assert (H20 : n mod 20 = 0) by (apply Hmod; reflexivity).
    pose proof (Z.div_mod n 20 ltac:(lia)) as Hn20.
    pose proof (Z.div_mod (19 * n) 20 ltac:(lia)) as H19.
    pose proof (Z.mod_pos_bound (19 * n) 20 ltac:(lia)) as Hb. lia. }
  destruct (Pos.compare_spec 4503599627370496 (Z.to_pos q)) as [Heq' | Hlt | Hgt];
    [| reflexivity |].
  - apply (f_equal Z.pos) in Heq'. rewrite Z2Pos.id in Heq' by lia. lia.
  - apply Pos2Z.pos_lt_pos in Hgt. rewrite Z2Pos.id in Hgt by lia. lia.
Qed.

(** ** The samples in order *)

Lemma sink_Permutation {A : Type} (less : A -> A -> bool) (x : A) (front : list A) :
  Permutation (x :: front) (sink less x front).
Proof.
  induction front as [| y front IH]; cbn; [reflexivity |].
  destruct (less x y); [| reflexivity].
  rewrite perm_swap. now apply perm_skip.
Qed.

Lemma sort_Slice_Permutation {A : Type} (less : A -> A -> bool) (l : list A) :
  Permutation l (sort_Slice less l).
Proof.
  unfold sort_Slice. rewrite <- Permutation_rev.
  assert (H : forall front, Permutation (l ++ front)
                              (fold_left (fun front x => sink less x front) l front)).
  { induction l as [| x l IH]; intros front; cbn [fold_left app]; [reflexivity |].
    rewrite <- IH. rewrite <- sink_Permutation. apply Permutation_middle. }
  specialize (H []). now rewrite app_nil_r in H.
Qed.

Lemma sink_descending (x : Z) (front : list Z) :
  descending front -> descending (sink Z.leb x front).
Proof.
  unfold descending. induction front as [| y front IH]; intros Hs; cbn [sink].
  - repeat constructor.
  - apply StronglySorted_inv in Hs as [Hs Hy].
    destruct (Z.leb_spec x y) as [Hle | Hgt].
    + constructor; [now apply IH |].
      apply (Permutation_Forall (sink_Permutation Z.leb x front)).
      constructor; assumption.
    + constructor; [now constructor |].
      constructor; [lia |]. eapply Forall_impl; [exact Hy |]. cbn. intros; lia.
Qed.

Lemma StronglySorted_snoc (l : list Z) (a : Z) :
  StronglySorted Z.le l -> Forall (fun x => x <= a) l -> StronglySorted Z.le (l ++ [a]).
Proof.
  induction l as [| x l IH]; intros Hs Ha; cbn.
  - repeat constructor.
  - apply StronglySorted_inv in Hs as [Hs Hx]. apply Forall_cons_iff in Ha as [Hxa Ha].
    constructor; [now apply IH |].
    apply Forall_app. split; [assumption | now repeat constructor].
Qed.

Lemma descending_rev (l : list Z) : descending l -> StronglySorted Z.le (rev l).
Proof.
  unfold descending. induction l as [| x l IH]; intros Hs; cbn [rev].
  - constructor.
  - apply StronglySorted_inv in Hs as [Hs Hx].
    apply StronglySorted_snoc; [now apply IH |].
    apply Forall_rev. exact Hx.
Qed.

Lemma sort_Slice_sorted (l : list Z) : StronglySorted Z.le (sort_Slice Z.leb l).
Proof.
  unfold sort_Slice. apply descending_rev.
  assert (H : forall front, descending front ->
                descending (fold_left (fun front x => sink Z.leb x front) l front)).
  { induction l as [| x l IH]; intros front Hf; cbn [fold_left]; [assumption |].
    apply IH. now apply sink_descending. }
  apply H. constructor.
Qed.

Lemma sort_Slice_length {A : Type} (less : A -> A -> bool) (l : list A) :
  length (sort_Slice less l) = length l.
Proof. symmetry. apply Permutation_length, sort_Slice_Permutation. Qed.

Lemma at_index_in_range (s : list Z) (i : Z) :
  0 <= i < Z.of_nat (length s) -> exists v, at_index s i = Some v /\ s !! Z.to_nat i = Some v.
Proof.
  intros Hi. unfold at_index. destruct (Z.ltb_spec i 0); [lia |].
  destruct (lookup_lt_is_Some_2 s (Z.to_nat i) ltac:(lia)) as [v Hv].
  exists v. now split.
Qed.

(** ** The 95th percentile of [values] *)

(** C1, refuted as stated: a bucket with a single sample keeps the
    percentile it was created with, zero, and not NaN. *)
Lemma single_sample_percentile :
  let bucket := update (new_bucket "test.c" "find" "{a:V}") 30 in
  length (p95 bucket) = 1%nat /\
  option_map formatting.N95Percentile (value_of bucket) = Some f64_zero /\
  f64_zero <> f64_NaN.
Proof. repeat split; try reflexivity. discriminate. Qed.

(** C1, as the code has it. The samples are sorted ascending. With [n]
    samples, [2 <= n < 2 ^ 47], the position [float64(n) * 0.95] is whole
    exactly when 20 divides [n], and then the percentile is the sample at
    [19 n / 20]; otherwise it is half the [int64] sum of the samples at
    [floor(19 n / 20) - 1] and [floor(19 n / 20)]. With at most one sample
    the row is left as it is: no branch assigns NaN. *)
Theorem value_of_percentile (pattern : queryPattern) :
  let samples := sort_Slice Z.leb (p95 pattern) in
  let n := Z.of_nat (length (p95 pattern)) in
  let i := 19 * n / 20 in
  StronglySorted Z.le samples /\
  Permutation (p95 pattern) samples /\
  (n <= 1 -> value_of pattern = Some (row pattern)) /\
  (2 <= n < 2 ^ 47 -> n mod 20 = 0 ->
   exists v, samples !! Z.to_nat i = Some v /\
             value_of pattern = Some (with_N95 (f64_of_Z v) (row pattern))) /\
  (2 <= n < 2 ^ 47 -> n mod 20 <> 0 ->
   exists a b, samples !! Z.to_nat (i - 1) = Some a /\ samples !! Z.to_nat i = Some b /\
               value_of pattern =
               Some (with_N95 (f64_div (f64_of_Z (wrap64 (a + b))) (f64_of_Z 2))
                              (row pattern))).
Proof.
  intros samples n i.
  assert (Hlen : Z.of_nat (length samples) = n).
  { unfold samples, n. now rewrite sort_Slice_length. }
  split; [apply sort_Slice_sorted |]. split; [apply sort_Slice_Permutation |].
  split; [| split].
  - intros Hn. unfold value_of. fold samples. rewrite Hlen.
    destruct (Z.ltb_spec 1 n); [lia | reflexivity].
  - intros Hn H20. unfold value_of. fold samples. rewrite Hlen.
    destruct (Z.ltb_spec 1 n); [| lia].
    rewrite (p95_index_whole n Hn), (p95_index_trunc n Hn). fold i.
    apply Z.eqb_eq in H20. rewrite H20.
    assert (Hi : 0 <= i < n).
    { unfold i. split; [apply Z.div_pos; lia |]. apply Z.div_lt_upper_bound; lia. }
    destruct (at_index_in_range samples i ltac:(lia)) as (v & Hat & Hv).
    exists v. rewrite Hat. now split.
  - intros Hn H20. unfold value_of. fold samples. rewrite Hlen.
    destruct (Z.ltb_spec 1 n); [| lia].
    rewrite (p95_index_whole n Hn), (p95_index_trunc n Hn), (p95_index_above_1 n Hn).
    fold i. apply Z.eqb_neq in H20. rewrite H20.
    assert (Hi : 1 <= i < n).
    { unfold i. split; [apply Z.div_le_lower_bound; lia |].
      apply Z.div_lt_upper_bound; lia. }
    destruct (at_index_in_range samples (i - 1) ltac:(lia)) as (a & Hata & Ha).
    destruct (at_index_in_range samples i ltac:(lia)) as (b & Hatb & Hb).
    exists a, b. rewrite Hata, Hatb. now repeat split.
Qed.

Lemma value_of_percentile_witness :
  let bucket := fold_left update [30; 10; 20] (new_bucket "test.c" "find" "{a:V}") in
  (exists a b,
     sort_Slice Z.leb (p95 bucket) !! 1%nat = Some a /\
     sort_Slice Z.leb (p95 bucket) !! 2%nat = Some b /\
     value_of bucket =
     Some (with_N95 (f64_div (f64_of_Z (wrap64 (a + b))) (f64_of_Z 2)) (row bucket))) /\
  value_of (new_bucket "test.c" "find" "{a:V}") = Some (row (new_bucket "test.c" "find" "{a:V}")).
Proof.
  intros bucket. split.
  - apply (proj2 (proj2 (proj2 (proj2 (value_of_percentile bucket))))).
    + vm_compute. split; [discriminate | reflexivity].
    + vm_compute. discriminate.
  - apply (proj1 (proj2 (proj2 (value_of_percentile (new_bucket "test.c" "find" "{a:V}"))))).
    vm_compute. discriminate.
Defined.

(** The scenario of three samples: the percentile of 10, 20, 30 is 25. *)
Example percentile_of_three :
  option_map formatting.N95Percentile
    (value_of (fold_left update [10; 20; 30] (new_bucket "test.c" "find" "{a:V}")))
  = Some (f64_of_Z 25).
Proof. vm_compute. reflexivity. Qed.

(** Twenty samples: the position is the whole number 19, the last
    sample. *)
Example percentile_of_twenty :
  option_map formatting.N95Percentile
    (value_of (fold_left update (map Z.of_nat (seq 1 20)) (new_bucket "test.c" "find" "{a:V}")))
  = Some (f64_of_Z 20).
Proof. vm_compute. reflexivity. Qed.

(** * The query command, further *)

(** ** The statistics of a bucket *)

Lemma wrap64_add_l (a b : Z) : wrap64 (wrap64 a + b) = wrap64 (a + b).
Proof.
  unfold wrap64. f_equal.
  replace ((a + 2 ^ 63) mod 2 ^ 64 - 2 ^ 63 + b + 2 ^ 63) with ((a + 2 ^ 63) mod 2 ^ 64 + b) by ring.
  rewrite Z.add_mod_idemp_l by (vm_compute; discriminate). f_equal. ring.
Qed.

Lemma wrap64_small (a : Z) : in_int64 a = true -> wrap64 a = a.
Proof.
  unfold in_int64, wrap64, MinInt64, MaxInt64. intros H.
  apply andb_prop in H as [H1 H2]. apply Z.leb_le in H1, H2.
  rewrite Z.mod_small; lia.
Qed.

Lemma total_snoc (l : list Z) (d : Z) : total (l ++ [d]) = total l + d.
Proof. unfold total. induction l as [| x l IH]; cbn; [lia |]. fold (total (l ++ [d])) in *. cbn in IH. lia. Qed.

Lemma least_snoc (l : list Z) (d : Z) : least (l ++ [d]) = Z.min (least l) d.
Proof.
  unfold least. induction l as [| x l IH]; cbn; [unfold MaxInt64; lia |].
  rewrite IH. lia.
Qed.

Lemma greatest_snoc (l : list Z) (d : Z) : greatest (l ++ [d]) = Z.max (greatest l) d.
Proof.
  unfold greatest. induction l as [| x l IH]; cbn; [lia |].
  rewrite IH. lia.
Qed.

Lemma measured_new (ns op query : string) : measured (new_bucket ns op query).
Proof. repeat split. Qed.

Lemma measured_update (b : queryPattern) (dur : Z) : measured b -> measured (update b dur).
Proof.
  intros (Hc & Hs & Hmin & Hmax). unfold measured, update. cbn [row p95 formatting.Count
    formatting.Sum formatting.Min formatting.Max].
  rewrite length_app, total_snoc, least_snoc, greatest_snoc, Hc, Hs, Hmin, Hmax.
  rewrite !wrap64_add_l. cbn [length]. repeat split.
  - f_equal. lia.
  - destruct (Z.ltb_spec dur (least (p95 b))); lia.
  - destruct (Z.ltb_spec (greatest (p95 b)) dur); lia.
Qed.

Lemma update_row_names (b : queryPattern) (dur : Z) :
  bucket_key (row (update b dur)) = bucket_key (row b) /\
  formatting.Operation (row (update b dur)) = formatting.Operation (row b) /\
  formatting.Pattern_ (row (update b dur)) = formatting.Pattern_ (row b).
Proof. repeat split. Qed.

(** ** What [Run] does to the buckets *)

Section RunFacts.
Context {E : QueryEnv}.

(** The three outcomes of the loop body for a CRUD message: an error is
    counted, or nothing is done, or one bucket is updated under the key of
    the message. *)
Lemma aggregate_cases (crud : Message) (filter : Object) (log : queryInstance) :
  aggregate crud filter log = count_error log \/
  aggregate crud filter log = log \/
  exists ns op query dur,
    str_in op counted_operations = true /\ query <> "" /\
    let key := ns +:+ ":" +:+ op +:+ ":" +:+ query in
    aggregate crud filter log =
    with_Patterns
      (<[key := update (default (new_bucket ns op query) (Patterns log !! key)) dur]>
         (Patterns log)) log.
Proof.
  unfold aggregate. destruct (standardize crud) as [[[ns op] dur] ok].
  destruct ok; cbn [negb]; [| now left].
  destruct (str_in (StringToLower op) counted_operations) eqn:Hop; cbn [negb]; [| right; now left].
  destruct (String.eqb (StringToLower op) ""); cbn [negb andb]; [right; now left |].
  destruct (String.eqb_spec (StringCompact (NewPattern filter)) "") as [Hq | Hq];
    cbn [negb]; [right; now left |].
  right. right. exists ns, (StringToLower op), (StringCompact (NewPattern filter)), dur.
  split; [assumption |]. split; [assumption |]. cbv zeta.
  destruct (Patterns log !! _); reflexivity.
Qed.

(** A property of the buckets that every update of one bucket keeps is
    kept by [Run]. *)
Lemma Run_step_Patterns (P : gmap string queryPattern -> Prop) :
  (forall m ns op query dur,
     str_in op counted_operations = true -> query <> "" -> P m ->
     let key := ns +:+ ":" +:+ op +:+ ":" +:+ query in
     P (<[key := update (default (new_bucket ns op query) (m !! key)) dur]> m)) ->
  forall st base, P (Patterns (snd st)) -> P (Patterns (snd (Run_step st base))).
Proof.
  intros Hstep [context log] base HP. cbn [snd] in HP. unfold Run_step.
  destruct (String.eqb (RawMessage base) ""); [exact HP |].
  destruct (NewEntry context base) as [context' [entry |]]; [| exact HP].
  destruct (as_CRUD (entry_Message entry)) as [[crud filter] |]; [| exact HP].
  cbn [snd].
  destruct (aggregate_cases crud filter
              (with_summary (summary_Update (summary (count_line log)) entry) (count_line log)))
    as [-> | [-> | (ns & op & query & dur & Hop & Hq & ->)]]; try exact HP.
  cbn [Patterns with_Patterns with_summary count_line]. now apply Hstep.
Qed.

Lemma Run_fold (context : ParserContext) (log : queryInstance) (input : list Base) :
  Patterns (snd (Run context log input)) =
  Patterns (snd (fold_left Run_step input (context, log))) /\
  LineCount (snd (Run context log input)) =
  LineCount (snd (fold_left Run_step input (context, log))) /\
  ErrorCount (snd (Run context log input)) =
  ErrorCount (snd (fold_left Run_step input (context, log))) /\
  sort_order (snd (Run context log input)) =
  sort_order (snd (fold_left Run_step input (context, log))).
Proof.
  unfold Run. destruct (fold_left Run_step input (context, log)) as [context' log'].
  destruct (summary_has_Version (summary log')); repeat split.
Qed.

Lemma Run_Patterns (P : gmap string queryPattern -> Prop) :
  (forall m ns op query dur,
     str_in op counted_operations = true -> query <> "" -> P m ->
     let key := ns +:+ ":" +:+ op +:+ ":" +:+ query in
     P (<[key := update (default (new_bucket ns op query) (m !! key)) dur]> m)) ->
  forall context log input,
    P (Patterns log) -> P (Patterns (snd (Run context log input))).
Proof.
  intros Hstep context log input HP. rewrite (proj1 (Run_fold context log input)).
  change log with (snd (context, log)) in HP.
  generalize dependent (context, log). clear context log.
  induction input as [| base input IH]; intros st HP; cbn [fold_left]; [exact HP |].
  apply IH. now apply Run_step_Patterns.
Qed.

Lemma Run_filed (context : ParserContext) (log : queryInstance) (input : list Base) :
  (forall key b, Patterns log !! key = Some b -> filed key b) ->
  forall key b, Patterns (snd (Run context log input)) !! key = Some b -> filed key b.
Proof.
  apply (Run_Patterns (fun m => forall key b, m !! key = Some b -> filed key b)).
  intros m ns op query dur Hop Hq Hm k key b.
  destruct (decide (k = key)) as [<- | Hk].
  - rewrite lookup_insert_eq. intros [= <-].
    destruct (m !! k) as [b0 |] eqn:Hb0; cbn [default from_option id].
    + destruct (Hm k b0 Hb0) as (Hkey & Ho & Hp & Hs & Hmeas).
      split; [exact Hkey |]. split; [exact Ho |]. split; [exact Hp |].
      split; [| now apply measured_update].
      rewrite update_p95. now destruct (p95 b0).
    + split; [reflexivity |]. split; [exact Hop |]. split; [exact Hq |].
      split; [discriminate |]. apply measured_update, measured_new.
  - rewrite lookup_insert_ne by exact Hk. apply Hm.
Qed.

End RunFacts.

Lemma least_le (l : list Z) : Forall (fun d => least l <= d) l.
Proof.
  unfold least. induction l as [| x l IH]; constructor; cbn [fold_right]; [lia |].
  eapply Forall_impl; [exact IH |]. cbn. intros; lia.
Qed.

Lemma greatest_ge (l : list Z) : 0 <= greatest l /\ Forall (fun d => d <= greatest l) l.
Proof.
  unfold greatest. induction l as [| x l [IH0 IH]]; cbn [fold_right]; [split; [lia | constructor] |].
  split; [lia |]. constructor; [lia |].
  eapply Forall_impl; [exact IH |]. cbn. intros; lia.
Qed.

Lemma least_In (l : list Z) :
  l <> [] -> Forall (fun d => in_int64 d = true) l -> In (least l) l.
Proof.
  unfold least. induction l as [| x l IH]; [congruence |]. intros _ Hr.
  apply Forall_cons_iff in Hr as [Hx Hr]. cbn [fold_right].
  destruct l as [| y l].
  - left. cbn. unfold in_int64 in Hx. apply andb_prop in Hx as [_ Hx]. apply Z.leb_le in Hx. lia.
  - specialize (IH ltac:(discriminate) Hr).
    destruct (Z.min_spec x (fold_right Z.min MaxInt64 (y :: l))) as [[_ ->] | [_ ->]];
      [now left | now right].
Qed.

Lemma greatest_In (l : list Z) : greatest l = 0 \/ In (greatest l) l.
Proof.
  unfold greatest. induction l as [| x l IH]; [now left |]. cbn [fold_right].
  destruct (Z.max_spec x (fold_right Z.max 0 l)) as [[_ ->] | [_ ->]].
  - destruct IH as [IH | IH]; [now left | right; now right].
  - right. now left.
Qed.

Lemma measured_updates (durs : list Z) (b : queryPattern) :
  measured b -> measured (fold_left update durs b).
Proof.
  revert b. induction durs as [| d durs IH]; intros b Hb; cbn [fold_left]; [exact Hb |].
  apply IH. now apply measured_update.
Qed.

(** After any run of updates on a new bucket the row counts the samples
    and sums them (in [int64] arithmetic); [Min] is the least duration,
    and [Max] the greatest, or zero when none is above zero. *)
Theorem update_statistics (ns op query : string) (durs : list Z) :
  Forall (fun d => in_int64 d = true) durs ->
  let r := row (fold_left update durs (new_bucket ns op query)) in
  formatting.Count r = wrap64 (Z.of_nat (length durs)) /\
  formatting.Sum r = wrap64 (fold_right Z.add 0 durs) /\
  Forall (fun d => formatting.Min r <= d <= formatting.Max r) durs /\
  (durs <> [] -> In (formatting.Min r) durs) /\
  (formatting.Max r = 0 \/ In (formatting.Max r) durs) /\
  0 <= formatting.Max r.
Proof.
  intros Hrange r.
  destruct (measured_updates durs _ (measured_new ns op query)) as (Hc & Hs & Hmin & Hmax).
  rewrite updates_p95 in Hc, Hs, Hmin, Hmax. cbn [p95 new_bucket app] in Hc, Hs, Hmin, Hmax.
  fold r in Hc, Hs, Hmin, Hmax. rewrite Hc, Hs, Hmin, Hmax.
  split; [reflexivity |]. split; [reflexivity |]. split; [| split; [| split]].
  - apply Forall_forall. intros d Hd.
    pose proof (proj1 (Forall_forall _ _) (least_le durs) d Hd).
    pose proof (proj1 (Forall_forall _ _) (proj2 (greatest_ge durs)) d Hd). cbn in *. lia.
  - intros Hne. now apply least_In.
  - apply greatest_In.
  - apply greatest_ge.
Qed.

Lemma update_statistics_witness :
  let r := row (fold_left update [30; 10; 20] (new_bucket "test.c" "find" "{a:V}")) in
  formatting.Count r = 3 /\ formatting.Sum r = 60 /\
  formatting.Min r = 10 /\ formatting.Max r = 30.
Proof.
  intros r.
  destruct (update_statistics "test.c" "find" "{a:V}" [30; 10; 20]) as (Hc & Hs & _).
  - repeat constructor.
  - fold r in Hc, Hs. split; [exact Hc |]. split; [exact Hs |]. split; reflexivity.
Defined.

Section RunTheorems.
Context {E : QueryEnv}.

Lemma Run_step_counts (st : ParserContext * queryInstance) (base : Base) :
  LineCount (snd (Run_step st base)) = wrapU64 (LineCount (snd st) + 1) /\
  (ErrorCount (snd (Run_step st base)) = ErrorCount (snd st) \/
   ErrorCount (snd (Run_step st base)) = wrapU64 (ErrorCount (snd st) + 1)) /\
  sort_order (snd (Run_step st base)) = sort_order (snd st).
Proof.
  destruct st as [context log]. unfold Run_step. cbn [snd].
  destruct (String.eqb (RawMessage base) ""); [repeat split; now right |].
  destruct (NewEntry context base) as [context' [entry |]]; [| repeat split; now right].
  destruct (as_CRUD (entry_Message entry)) as [[crud filter] |]; [| repeat split; now left].
  cbn [snd].
  destruct (aggregate_cases crud filter
              (with_summary (summary_Update (summary (count_line log)) entry) (count_line log)))
    as [-> | [-> | (ns & op & query & dur & _ & _ & ->)]];
    repeat split; (now left) || (now right).
Qed.

Lemma fold_Run_step_counts (input : list Base) (st : ParserContext * queryInstance) :
  0 <= ErrorCount (snd st) <= LineCount (snd st) ->
  LineCount (snd st) + Z.of_nat (length input) < 2 ^ 64 ->
  let log' := snd (fold_left Run_step input st) in
  LineCount log' = LineCount (snd st) + Z.of_nat (length input) /\
  ErrorCount (snd st) <= ErrorCount log' <= ErrorCount (snd st) + Z.of_nat (length input) /\
  sort_order log' = sort_order (snd st).
Proof.
  revert st. induction input as [| base input IH]; intros st Herr Hlen; cbn [fold_left length].
  - cbn [length] in *. repeat split; lia.
  - cbn [length] in Hlen. rewrite Nat2Z.inj_succ in *.
    destruct (Run_step_counts st base) as (Hl & He & Hs).
    assert (Hl' : LineCount (snd (Run_step st base)) = LineCount (snd st) + 1).
    { rewrite Hl. unfold wrapU64. apply Z.mod_small. lia. }
    assert (He' : ErrorCount (snd st) <= ErrorCount (snd (Run_step st base))
                  <= ErrorCount (snd st) + 1).
    { destruct He as [-> | ->]; [lia |]. unfold wrapU64. rewrite Z.mod_small; lia. }
    destruct (IH (Run_step st base)) as (IHl & IHe & IHs); [lia | lia |].
    cbv zeta. rewrite IHl, IHs, Hs, Hl'. repeat split; lia.
Qed.

(** [Run] counts every line it is handed, and at most one error for each;
    the sort chain is left as it was. *)
Theorem Run_counts (context : ParserContext) (log : queryInstance) (input : list Base) :
  0 <= ErrorCount log <= LineCount log ->
  LineCount log + Z.of_nat (length input) < 2 ^ 64 ->
  let log' := snd (Run context log input) in
  LineCount log' = LineCount log + Z.of_nat (length input) /\
  ErrorCount log <= ErrorCount log' <= ErrorCount log + Z.of_nat (length input) /\
  sort_order log' = sort_order log.
Proof.
  intros Herr Hlen log'. subst log'.
  destruct (Run_fold context log input) as (_ & -> & -> & ->).
  exact (fold_Run_step_counts input (context, log) Herr Hlen).
Qed.

(** [Run] never takes a bucket away, nor a sample from a bucket: what a
    bucket held is the front of what it holds afterwards, under the same
    names. *)
Theorem Run_keeps_samples (context : ParserContext) (log : queryInstance) (input : list Base)
    (key : string) (b : queryPattern) :
  Patterns log !! key = Some b ->
  exists b' more,
    Patterns (snd (Run context log input)) !! key = Some b' /\
    p95 b' = p95 b ++ more /\
    formatting.Namespace (row b') = formatting.Namespace (row b) /\
    formatting.Operation (row b') = formatting.Operation (row b) /\
    formatting.Pattern_ (row b') = formatting.Pattern_ (row b).
Proof.
  intros Hb.
  apply (Run_Patterns
           (fun m => exists b' more, m !! key = Some b' /\ p95 b' = p95 b ++ more /\
              formatting.Namespace (row b') = formatting.Namespace (row b) /\
              formatting.Operation (row b') = formatting.Operation (row b) /\
              formatting.Pattern_ (row b') = formatting.Pattern_ (row b))).
  - intros m ns op query dur _ _ (b' & more & Hm & Hp & Hn & Ho & Hq) k.
    destruct (decide (k = key)) as [-> | Hk].
    + rewrite Hm. cbn [default from_option id].
      exists (update b' dur), (more ++ [dur]). rewrite lookup_insert_eq.
      split; [reflexivity |]. rewrite update_p95, Hp, <- app_assoc. repeat split; assumption.
    + exists b', more. rewrite lookup_insert_ne by exact Hk. repeat split; assumption.
  - exists b, []. rewrite app_nil_r. repeat split. exact Hb.
Qed.

(** Every bucket that [Run] leaves is filed under the key made of its
    names, for one of the seven operations and a pattern that is not
    empty; it holds at least one sample, and its statistics are those of
    its samples. *)
Theorem Run_files_buckets (context : ParserContext) (log : queryInstance) (input : list Base) :
  (forall key b, Patterns log !! key = Some b -> filed key b) ->
  forall key b, Patterns (snd (Run context log input)) !! key = Some b -> filed key b.
Proof. apply Run_filed. Qed.

End RunTheorems.

Lemma Run_counts_witness :
  let log' := snd (Run (E := fixed_env (find_message 5)) tt
                     (empty_instance (E := fixed_env (find_message 5)) 0%nat) two_bases) in
  LineCount log' = 2 /\ 0 <= ErrorCount log' <= 2.
Proof.
  intros log'.
  destruct (Run_counts (E := fixed_env (find_message 5)) tt
              (empty_instance (E := fixed_env (find_message 5)) 0%nat) two_bases)
    as (Hl & He & _).
  - cbn. lia.
  - cbn. lia.
  - split; [exact Hl | exact He].
Defined.

Lemma Run_keeps_samples_witness :
  exists b' more,
    Patterns (snd (Run (E := fixed_env (find_message 5)) tt one_bucket two_bases))
      !! "test.c:find:{a:V}" = Some b' /\
    p95 b' = [30] ++ more.
Proof.
  destruct (Run_keeps_samples (E := fixed_env (find_message 5)) tt one_bucket two_bases
              "test.c:find:{a:V}" (update (new_bucket "test.c" "find" "{a:V}") 30))
    as (b' & more & Hb & Hp & _).
  - apply lookup_singleton_eq.
  - exists b', more. split; [exact Hb | exact Hp].
Defined.

Lemma Run_files_buckets_witness :
  filed "test.c:find:{a:V}" (update (new_bucket "test.c" "find" "{a:V}") 5).
Proof.
  apply (Run_files_buckets (E := fixed_env (find_message 5)) tt
           (empty_instance (E := fixed_env (find_message 5)) 0%nat) two_bases).
  - intros key b. cbn. rewrite lookup_empty. discriminate.
  - vm_compute. reflexivity.
Defined.

(** ** Lines, errors and samples *)

Lemma sample_count_nonneg (m : gmap string queryPattern) : 0 <= sample_count m.
Proof.
  unfold sample_count.
  apply (map_fold_weak_ind (fun acc (_ : gmap string queryPattern) => 0 <= acc)); [lia |].
  intros key b m' acc _ Hacc. lia.
Qed.

Lemma sample_count_update (m : gmap string queryPattern) (key ns op query : string) (dur : Z) :
  sample_count (<[key := update (default (new_bucket ns op query) (m !! key)) dur]> m) =
  sample_count m + 1.
Proof.
  unfold sample_count.
  assert (Hcomm : forall (m' : gmap string queryPattern) (j1 j2 : string) (z1 z2 : queryPattern)
                         (y : Z),
             j1 <> j2 -> m' !! j1 = Some z1 -> m' !! j2 = Some z2 ->
             Z.of_nat (length (p95 z1)) + (Z.of_nat (length (p95 z2)) + y) =
             Z.of_nat (length (p95 z2)) + (Z.of_nat (length (p95 z1)) + y)).
  { intros. lia. }
  destruct (m !! key) as [b |] eqn:Hb; cbn [default from_option id].
  - rewrite (map_fold_delete_L _ _ key b m (Hcomm m) Hb).
    rewrite <- (insert_delete_eq m key (update b dur)).
    rewrite map_fold_insert_L; [| apply Hcomm | apply lookup_delete_eq].
    rewrite update_p95, length_app. cbn [length]. lia.
  - rewrite map_fold_insert_L; [| apply Hcomm | exact Hb].
    rewrite update_p95. cbn. lia.
Qed.

Section Accounts.
Context {E : QueryEnv}.

Lemma Run_step_account (st : ParserContext * queryInstance) (base : Base) :
  let log := snd st in
  let log' := snd (Run_step st base) in
  LineCount log' = wrapU64 (LineCount log + 1) /\
  ((ErrorCount log' = wrapU64 (ErrorCount log + 1) /\
    sample_count (Patterns log') = sample_count (Patterns log)) \/
   (ErrorCount log' = ErrorCount log /\
    sample_count (Patterns log) <= sample_count (Patterns log') <=
    sample_count (Patterns log) + 1)).
Proof.
  destruct st as [context log]. unfold Run_step. cbn [snd].
  destruct (String.eqb (RawMessage base) ""); [split; [reflexivity | now left] |].
  destruct (NewEntry context base) as [context' [entry |]]; [| split; [reflexivity | now left]].
  destruct (as_CRUD (entry_Message entry)) as [[crud filter] |];
    [| split; [reflexivity | right; cbn; split; [reflexivity | lia]]].
  cbn [snd].
  destruct (aggregate_cases crud filter
              (with_summary (summary_Update (summary (count_line log)) entry) (count_line log)))
    as [-> | [-> | (ns & op & query & dur & _ & _ & ->)]].
  - split; [reflexivity | now left].
  - split; [reflexivity | right; cbn; split; [reflexivity | lia]].
  - split; [reflexivity |]. right. cbn [ErrorCount Patterns with_Patterns with_summary count_line].
    rewrite sample_count_update. split; [reflexivity | lia].
Qed.

Lemma fold_Run_step_account (input : list Base) (st : ParserContext * queryInstance) :
  0 <= ErrorCount (snd st) ->
  ErrorCount (snd st) + sample_count (Patterns (snd st)) <= LineCount (snd st) ->
  LineCount (snd st) + Z.of_nat (length input) < 2 ^ 64 ->
  let log' := snd (fold_left Run_step input st) in
  0 <= ErrorCount log' /\
  ErrorCount log' + sample_count (Patterns log') <= LineCount log' /\
  LineCount log' = LineCount (snd st) + Z.of_nat (length input).
Proof.
  revert st. induction input as [| base input IH]; intros st He Hacc Hlen; cbn [fold_left].
  - cbn [length] in *. repeat split; lia.
  - cbn [length] in Hlen. rewrite Nat2Z.inj_succ in Hlen.
    pose proof (sample_count_nonneg (Patterns (snd st))) as Hs.
    destruct (Run_step_account st base) as (Hl & Hcase). cbv zeta in Hl, Hcase.
    assert (Hl' : LineCount (snd (Run_step st base)) = LineCount (snd st) + 1).
    { rewrite Hl. unfold wrapU64. apply Z.mod_small. lia. }
    destruct (IH (Run_step st base)) as (IH0 & IHa & IHl).
    + destruct Hcase as [[-> _] | [-> _]]; [| lia]. unfold wrapU64. apply Z.mod_pos_bound. lia.
    + rewrite Hl'. destruct Hcase as [[-> ->] | [-> Hp]]; [| lia].
      unfold wrapU64. rewrite Z.mod_small; lia.
    + lia.
    + cbv zeta. split; [exact IH0 |]. split; [exact IHa |].
      rewrite IHl, Hl'. cbn [length]. rewrite Nat2Z.inj_succ. lia.
Qed.

(** Every line is counted once, and stands for at most one error or one
    sample: the errors and the samples of all buckets together never
    exceed the lines. *)
Theorem Run_accounts_for_lines (context : ParserContext) (log : queryInstance)
    (input : list Base) :
  0 <= ErrorCount log ->
  ErrorCount log + sample_count (Patterns log) <= LineCount log ->
  LineCount log + Z.of_nat (length input) < 2 ^ 64 ->
  let log' := snd (Run context log input) in
  0 <= ErrorCount log' /\
  ErrorCount log' + sample_count (Patterns log') <= LineCount log'.
Proof.
  intros He Hacc Hlen log'. subst log'.
  destruct (Run_fold context log input) as (-> & -> & -> & _).
  destruct (fold_Run_step_account input (context, log) He Hacc Hlen) as (H0 & Ha & _).
  now split.
Qed.

End Accounts.

Lemma Run_accounts_for_lines_witness :
  let log' := snd (Run (E := fixed_env (find_message 5)) tt
                     (empty_instance (E := fixed_env (find_message 5)) 0%nat) two_bases) in
  ErrorCount log' + sample_count (Patterns log') <= LineCount log'.
Proof.
  intros log'.
  destruct (Run_accounts_for_lines (E := fixed_env (find_message 5)) tt
              (empty_instance (E := fixed_env (find_message 5)) 0%nat) two_bases)
    as (_ & Hacc).
  - cbn. lia.
  - cbn. unfold sample_count. rewrite map_fold_empty. lia.
  - cbn. lia.
  - exact Hacc.
Defined.

(** ** The order of the table *)

Lemma string_compare_refl (s : string) : String.compare s s = Eq.
Proof.
  induction s as [| c s IH]; cbn; [reflexivity |].
  unfold Ascii.compare. now rewrite N.compare_refl.
Qed.

Lemma string_compare_lt_trans (s1 s2 s3 : string) :
  String.compare s1 s2 = Lt -> String.compare s2 s3 = Lt -> String.compare s1 s3 = Lt.
Proof.
  revert s2 s3. induction s1 as [| c1 s1 IH]; intros [| c2 s2] [| c3 s3]; cbn;
    try congruence.
  unfold Ascii.compare.
  destruct (N.compare_spec (N_of_ascii c1) (N_of_ascii c2)) as [H12 | H12 | H12];
    destruct (N.compare_spec (N_of_ascii c2) (N_of_ascii c3)) as [H23 | H23 | H23];
    try congruence; intros Ha Hb.
  - rewrite H12, H23, N.compare_refl. now apply (IH s2).
  - rewrite H12. now apply N.compare_lt_iff in H23 as ->.
  - rewrite <- H23. now apply N.compare_lt_iff in H12 as ->.
  - assert (H13 : (N_of_ascii c1 < N_of_ascii c3)%N) by lia.
    now apply N.compare_lt_iff in H13 as ->.
Qed.

Lemma ltb_irrefl (s : string) : String.ltb s s = false.
Proof. unfold String.ltb. now rewrite string_compare_refl. Qed.

Lemma ltb_trans (s1 s2 s3 : string) :
  String.ltb s1 s2 = true -> String.ltb s2 s3 = true -> String.ltb s1 s3 = true.
Proof.
  unfold String.ltb. intros H12 H23.
  destruct (String.compare s1 s2) eqn:E12; try discriminate.
  destruct (String.compare s2 s3) eqn:E23; try discriminate.
  now rewrite (string_compare_lt_trans _ _ _ E12 E23).
Qed.

Lemma ltb_asym (s1 s2 : string) : String.ltb s1 s2 = true -> String.ltb s2 s1 = false.
Proof.
  unfold String.ltb. rewrite (String.compare_antisym s1 s2).
  destruct (String.compare s2 s1); cbn; congruence.
Qed.

Lemma ltb_total (s1 s2 : string) :
  s1 <> s2 -> String.ltb s1 s2 = false -> String.ltb s2 s1 = true.
Proof.
  unfold String.ltb. intros Hne. rewrite (String.compare_antisym s1 s2).
  destruct (String.compare s2 s1) eqn:E; cbn; try congruence.
  apply String.compare_eq_iff in E. congruence.
Qed.

(** The comparator of the chain [Prepare] starts from, written out. *)
Lemma less_default (user : list Z) (a b : formatting.Pattern) :
  less (default_order ++ user) a b =
  if formatting.Sum a =? formatting.Sum b then
    if String.eqb (formatting.Namespace a) (formatting.Namespace b) then
      if String.eqb (formatting.Operation a) (formatting.Operation b) then
        if String.eqb (formatting.Pattern_ a) (formatting.Pattern_ b) then less user a b
        else String.ltb (formatting.Pattern_ a) (formatting.Pattern_ b)
      else String.ltb (formatting.Operation a) (formatting.Operation b)
    else String.ltb (formatting.Namespace a) (formatting.Namespace b)
  else formatting.Sum b <=? formatting.Sum a.
Proof. reflexivity. Qed.

Lemma bucket_key_names (a b : formatting.Pattern) :
  formatting.Namespace a = formatting.Namespace b ->
  formatting.Operation a = formatting.Operation b ->
  formatting.Pattern_ a = formatting.Pattern_ b ->
  bucket_key a = bucket_key b.
Proof. unfold bucket_key. now intros -> -> ->. Qed.

(** Between rows of different keys the chain is decided by its first four
    fields. *)
Lemma less_default_user (user : list Z) (a b : formatting.Pattern) :
  bucket_key a <> bucket_key b ->
  less (default_order ++ user) a b = less default_order a b.
Proof.
  intros Hkey. rewrite <- (app_nil_r default_order) at 2. rewrite !less_default.
  destruct (formatting.Sum a =? formatting.Sum b); [| reflexivity].
  destruct (String.eqb_spec (formatting.Namespace a) (formatting.Namespace b)); [| reflexivity].
  destruct (String.eqb_spec (formatting.Operation a) (formatting.Operation b)); [| reflexivity].
  destruct (String.eqb_spec (formatting.Pattern_ a) (formatting.Pattern_ b)); [| reflexivity].
  destruct Hkey. now apply bucket_key_names.
Qed.

Ltac order_fields a b c :=
  generalize (formatting.Sum a), (formatting.Namespace a), (formatting.Operation a),
    (formatting.Pattern_ a), (formatting.Sum b), (formatting.Namespace b),
    (formatting.Operation b), (formatting.Pattern_ b), (formatting.Sum c),
    (formatting.Namespace c), (formatting.Operation c), (formatting.Pattern_ c);
  intros.

Ltac order_cases :=
  repeat match goal with
         | |- context [Z.eqb ?x ?y] => destruct (Z.eqb_spec x y); try subst; try lia
         | H : context [Z.eqb ?x ?y] |- _ => destruct (Z.eqb_spec x y); try subst; try lia
         | |- context [String.eqb ?x ?y] => destruct (String.eqb_spec x y); try subst; try congruence
         | H : context [String.eqb ?x ?y] |- _ =>
             destruct (String.eqb_spec x y); try subst; try congruence
         end.

Lemma less_default_total (a b : formatting.Pattern) :
  less default_order a b = true \/ less default_order b a = true.
Proof.
  rewrite <- (app_nil_r default_order). rewrite !less_default. cbn [less].
  order_fields a b b. order_cases; try (now left).
  all: match goal with
       | |- String.ltb ?x ?y = true \/ _ =>
           destruct (String.ltb x y) eqn:E; [now left | right; now apply ltb_total]
       end.
Qed.

Lemma less_default_trans (a b c : formatting.Pattern) :
  less default_order a b = true -> less default_order b c = true ->
  less default_order a c = true.
Proof.
  rewrite <- (app_nil_r default_order). rewrite !less_default. cbn [less].
  order_fields a b c. order_cases; try reflexivity; try discriminate.
  all: try match goal with
       | H1 : String.ltb ?x ?y = true, H2 : String.ltb ?y ?z = true |- String.ltb ?x ?z = true =>
           exact (ltb_trans x y z H1 H2)
       | H1 : String.ltb ?x ?y = true, H2 : String.ltb ?y ?x = true |- _ =>
           rewrite (ltb_asym x y H1) in H2; discriminate
       | H1 : String.ltb ?x ?x = true |- _ => rewrite ltb_irrefl in H1; discriminate
       end.
Qed.

Lemma less_default_antisym (a b : formatting.Pattern) :
  less default_order a b = true -> less default_order b a = true ->
  bucket_key a = bucket_key b.
Proof.
  rewrite <- (app_nil_r default_order). rewrite !less_default. cbn [less].
  intros H1 H2. apply bucket_key_names; revert H1 H2.
  all: order_fields a b b; order_cases; try reflexivity; try discriminate.
  all: try match goal with
       | H1 : String.ltb ?x ?y = true, H2 : String.ltb ?y ?x = true |- _ =>
           rewrite (ltb_asym x y H1) in H2; discriminate
       end.
Qed.

(** [sort.Slice] with a comparator that is total and transitive: the
    outcome is in order. *)
Section InsertionSort.
Context {A : Type} (less : A -> A -> bool).

Hypothesis less_total : forall a b, less a b = true \/ less b a = true.
Hypothesis less_trans : forall a b c, less a b = true -> less b c = true -> less a c = true.

Lemma sink_sorted (x : A) (front : list A) :
  StronglySorted (fun a b => less b a = true) front ->
  StronglySorted (fun a b => less b a = true) (sink less x front).
Proof.
  induction front as [| y front IH]; intros Hs; cbn [sink].
  - repeat constructor.
  - apply StronglySorted_inv in Hs as [Hs Hy].
    destruct (less x y) eqn:Hxy.
    + constructor; [now apply IH |].
      apply (Permutation_Forall (sink_Permutation less x front)).
      constructor; assumption.
    + assert (Hyx : less y x = true) by (destruct (less_total x y); congruence).
      constructor; [now constructor |].
      constructor; [exact Hyx |].
      eapply Forall_impl; [exact Hy |]. cbn. intros z Hz. exact (less_trans z y x Hz Hyx).
Qed.

Lemma StronglySorted_rev (R : A -> A -> Prop) (l : list A) :
  StronglySorted (fun a b => R b a) l -> StronglySorted R (rev l).
Proof.
  induction l as [| x l IH]; intros Hs; cbn [rev]; [constructor |].
  apply StronglySorted_inv in Hs as [Hs Hx]. specialize (IH Hs).
  clear Hs. revert IH. generalize (Forall_rev Hx). clear Hx.
  induction (rev l) as [| y k IHk]; intros Hx Hk; cbn.
  - repeat constructor.
  - apply StronglySorted_inv in Hk as [Hk Hy]. apply Forall_cons_iff in Hx as [Hyx Hx].
    constructor; [now apply IHk |].
    apply Forall_app. split; [assumption | now repeat constructor].
Qed.

Lemma sort_Slice_in_order (l : list A) : StronglySorted (fun a b => less a b = true) (sort_Slice less l).
Proof.
  unfold sort_Slice. apply StronglySorted_rev.
  assert (H : forall front, StronglySorted (fun a b => less b a = true) front ->
                StronglySorted (fun a b => less b a = true)
                  (fold_left (fun front x => sink less x front) l front)).
  { induction l as [| x l IH]; intros front Hf; cbn [fold_left]; [assumption |].
    apply IH. now apply sink_sorted. }
  apply H. constructor.
Qed.

End InsertionSort.

(** Two lists in order that hold the same elements are the same list, when
    no two elements are each before the other. *)
Lemma sorted_unique {A : Type} (R : A -> A -> Prop) (l1 l2 : list A) :
  (forall a b, In a l1 -> In b l1 -> R a b -> R b a -> a = b) ->
  StronglySorted R l1 -> StronglySorted R l2 -> Permutation l1 l2 -> l1 = l2.
Proof.
  revert l2. induction l1 as [| a l1 IH]; intros l2 Hanti H1 H2 Hp.
  - apply Permutation_nil in Hp. now subst.
  - destruct l2 as [| b l2]; [apply Permutation_sym, Permutation_nil in Hp; discriminate |].
    apply StronglySorted_inv in H1 as [H1 Ha]. apply StronglySorted_inv in H2 as [H2 Hb].
    assert (Hab : a = b).
    { assert (Hb1 : In b (a :: l1)).
      { apply (Permutation_in b (Permutation_sym Hp)). now left. }
      assert (Ha2 : In a (b :: l2)).
      { apply (Permutation_in a Hp). now left. }
      destruct Hb1 as [-> | Hb1]; [reflexivity |].
      destruct Ha2 as [-> | Ha2]; [reflexivity |].
      apply Hanti; [now left | now right | |].
      - exact (proj1 (List.Forall_forall _ _) Ha b Hb1).
      - exact (proj1 (List.Forall_forall _ _) Hb a Ha2). }
    subst b. f_equal. apply IH; try assumption.
    + intros x y Hx Hy. apply Hanti; now right.
    + now apply Permutation_cons_inv in Hp.
Qed.

(** With two comparators that agree on the pairs of different elements,
    [sort.Slice] gives the same outcome on a slice without repeats. *)
Lemma sort_Slice_agree {A : Type} (less1 less2 : A -> A -> bool) (l : list A) :
  NoDup l ->
  (forall a b, In a l -> In b l -> a <> b -> less1 a b = less2 a b) ->
  sort_Slice less1 l = sort_Slice less2 l.
Proof.
  intros Hnd Hagree. unfold sort_Slice. f_equal.
  assert (H : forall front,
             NoDup (front ++ l) ->
             (forall a b, In a (front ++ l) -> In b (front ++ l) -> a <> b ->
                          less1 a b = less2 a b) ->
             fold_left (fun front x => sink less1 x front) l front =
             fold_left (fun front x => sink less2 x front) l front).
  { clear Hnd Hagree. induction l as [| x l IH]; intros front Hnd Hagree; cbn [fold_left];
      [reflexivity |].
    assert (Hsink : sink less1 x front = sink less2 x front).
    { assert (Hx : forall y, In y front -> less1 x y = less2 x y).
      { intros y Hy. apply Hagree.
        - apply in_or_app. right. now left.
        - apply in_or_app. now left.
        - intros ->. apply NoDup_app in Hnd as (_ & Hd & _).
          apply (Hd y); apply list_elem_of_In; [exact Hy | now left]. }
      clear -Hx. induction front as [| y front IHf]; cbn [sink]; [reflexivity |].
      rewrite (Hx y) by now left. destruct (less2 x y); [| reflexivity].
      f_equal. apply IHf. intros z Hz. apply Hx. now right. }
    assert (Hperm : Permutation (front ++ x :: l) (sink less2 x front ++ l)).
    { rewrite <- sink_Permutation. apply Permutation_sym, Permutation_middle. }
    rewrite Hsink. apply IH.
    - rewrite <- Hperm. exact Hnd.
    - intros a b Ha Hb. apply Hagree; eapply Permutation_in; try apply Permutation_sym;
        eassumption. }
  apply (H []); assumption.
Qed.

Lemma map_fmap {A B : Type} (f : A -> B) (l : list A) : map f l = f <$> l.
Proof. induction l as [| x l IH]; cbn; [reflexivity | now rewrite IH]. Qed.

Lemma keys_NoDup (vs : list formatting.Pattern) :
  NoDup (map bucket_key vs) ->
  NoDup vs /\
  forall a b, In a vs -> In b vs -> bucket_key a = bucket_key b -> a = b.
Proof.
  rewrite map_fmap. intros Hnd. split; [exact (NoDup_fmap_1 _ _ Hnd) |].
  induction vs as [| x vs IH]; [intros a b [] |].
  rewrite fmap_cons in Hnd. apply NoDup_cons in Hnd as [Hx Hnd].
  assert (Hfresh : forall y, In y vs -> bucket_key x <> bucket_key y).
  { intros y Hy Heq. apply Hx. rewrite Heq. apply list_elem_of_fmap.
    exists y. split; [reflexivity | now apply list_elem_of_In]. }
  intros a b [<- | Ha] [<- | Hb] Heq.
  - reflexivity.
  - now destruct (Hfresh b Hb).
  - now destruct (Hfresh a Ha).
  - now apply IH.
Qed.

(** Between rows filed under different keys, the fields that the sort
    options add to the chain are never looked at. *)
Lemma sort_default_user (vs : list formatting.Pattern) (user : list Z) :
  NoDup (map bucket_key vs) ->
  sort vs (default_order ++ user) = sort vs default_order.
Proof.
  intros Hnd. destruct (keys_NoDup vs Hnd) as [Hvs Hkeys]. unfold sort.
  apply sort_Slice_agree; [exact Hvs |].
  intros a b Ha Hb Hne. apply less_default_user. intros Heq. apply Hne. now apply Hkeys.
Qed.

Lemma sort_default_in_order (vs : list formatting.Pattern) :
  StronglySorted (fun a b => less default_order a b = true) (sort vs default_order).
Proof.
  apply sort_Slice_in_order; [apply less_default_total | apply less_default_trans].
Qed.

Lemma less_default_Sum (a b : formatting.Pattern) :
  less default_order a b = true -> formatting.Sum b <= formatting.Sum a.
Proof.
  rewrite <- (app_nil_r default_order), less_default.
  destruct (Z.eqb_spec (formatting.Sum a) (formatting.Sum b)); [lia |].
  intros H. now apply Z.leb_le in H.
Qed.

(** The table is in the order of the chain [sum, namespace, operation,
    pattern], the greatest sum first, whatever fields the sort options
    add: on rows filed under different keys the outcome of [sort] is a
    rearrangement of the rows, each row is put before all that follow it
    by those four fields, and the sums never grow along it. *)
Theorem sort_in_order (vs : list formatting.Pattern) (user : list Z) :
  NoDup (map bucket_key vs) ->
  let out := sort vs (default_order ++ user) in
  Permutation vs out /\
  StronglySorted (fun a b => less default_order a b = true) out /\
  StronglySorted (fun a b => formatting.Sum b <= formatting.Sum a) out.
Proof.
  intros Hnd out. subst out.
  split; [apply sort_Slice_Permutation |].
  rewrite (sort_default_user vs user Hnd).
  pose proof (sort_default_in_order vs) as Hs.
  split; [exact Hs |].
  induction Hs as [| a l Hs IH Ha]; constructor; [exact IH |].
  eapply List.Forall_impl; [| exact Ha]. apply less_default_Sum.
Qed.

(** The order in which the rows come to [sort] (the order in which the
    map of buckets is walked) does not show in its outcome. *)
Theorem sort_any_order (vs vs' : list formatting.Pattern) (user : list Z) :
  NoDup (map bucket_key vs) ->
  Permutation vs vs' ->
  sort vs' (default_order ++ user) = sort vs (default_order ++ user).
Proof.
  intros Hnd Hperm.
  assert (Hnd' : NoDup (map bucket_key vs')).
  { rewrite <- (Permutation_map bucket_key Hperm). exact Hnd. }
  rewrite (sort_default_user vs user Hnd), (sort_default_user vs' user Hnd').
  assert (Hout : Permutation (sort vs' default_order) (sort vs default_order)).
  { unfold sort. rewrite <- !sort_Slice_Permutation. now symmetry. }
  apply (sorted_unique (fun a b => less default_order a b = true));
    [| apply sort_default_in_order | apply sort_default_in_order | exact Hout].
  intros a b Ha Hb Hab Hba.
  destruct (keys_NoDup vs' Hnd') as [_ Hkeys].
  assert (Ha' : In a vs').
  { eapply Permutation_in; [| exact Ha]. symmetry. apply sort_Slice_Permutation. }
  assert (Hb' : In b vs').
  { eapply Permutation_in; [| exact Hb]. symmetry. apply sort_Slice_Permutation. }
  apply Hkeys; try assumption. now apply less_default_antisym.
Qed.

Lemma three_rows_keys : NoDup (map bucket_key three_rows).
Proof. apply (bool_decide_unpack _). vm_compute. reflexivity. Defined.

Lemma sort_in_order_witness :
  sort three_rows (default_order ++ [sortCount]) =
    [row_of "db.c" "find" "{a:V}" 9 70; row_of "db.a" "find" "{a:V}" 5 60;
     row_of "db.b" "find" "{a:V}" 3 60] /\
  StronglySorted (fun a b => formatting.Sum b <= formatting.Sum a)
    (sort three_rows (default_order ++ [sortCount])).
Proof.
  split; [reflexivity |].
  apply (sort_in_order three_rows [sortCount]). exact three_rows_keys.
Defined.

Lemma sort_any_order_witness :
  sort (rev three_rows) (default_order ++ [sortCount]) =
  sort three_rows (default_order ++ [sortCount]).
Proof.
  apply (sort_any_order three_rows (rev three_rows) [sortCount]).
  - exact three_rows_keys.
  - apply Permutation_rev.
Defined.

(** ** [Prepare], [values] and [Finish] *)

Lemma add_sort_options_spec (opts : list string) (order : list Z) :
  match mapM sort_option opts with
  | Some tags => add_sort_options opts order = (order ++ tags, true)
  | None => exists user, add_sort_options opts order = (order ++ user, false)
  end.
Proof.
  revert order. induction opts as [| opt opts IH]; intros order; cbn [add_sort_options].
  - cbn. now rewrite app_nil_r.
  - cbn [mapM]. destruct (sort_option opt) as [tag |]; cbn.
    + specialize (IH (order ++ [tag])).
      destruct (mapM sort_option opts) as [tags |]; cbn.
      * now rewrite IH, <- app_assoc.
      * destruct IH as [user ->]. exists (tag :: user). now rewrite <- app_assoc.
    + exists []. now rewrite app_nil_r.
Qed.

Lemma with_N95_same (r : formatting.Pattern) : with_N95 (formatting.N95Percentile r) r = r.
Proof. now destruct r. Qed.

(** Every branch of the loop body of [values] returns the row of the
    bucket with, at most, another percentile. *)
Lemma value_of_row (b : queryPattern) (r : formatting.Pattern) :
  value_of b = Some r -> exists f, r = with_N95 f (row b).
Proof.
  unfold value_of.
  repeat match goal with
         | |- context [if ?c then _ else _] => destruct c
         | |- context [match at_index ?s ?i with _ => _ end] => destruct (at_index s i)
         end;
    intros [= <-]; eauto.
  exists (formatting.N95Percentile (row b)). now rewrite with_N95_same.
Qed.

Lemma value_of_some (b : queryPattern) :
  Z.of_nat (length (p95 b)) < 2 ^ 47 -> exists r, value_of b = Some r.
Proof.
  intros Hn. unfold value_of. rewrite sort_Slice_length.
  set (n := Z.of_nat (length (p95 b))) in *.
  assert (Hlen : Z.of_nat (length (sort_Slice Z.leb (p95 b))) = n)
    by now rewrite sort_Slice_length.
  destruct (Z.ltb_spec 1 n) as [H1 |]; [| eauto].
  assert (Hr : 2 <= n < 2 ^ 47) by lia.
  rewrite (p95_index_whole n Hr), (p95_index_trunc n Hr), (p95_index_above_1 n Hr).
  assert (Hi : 0 <= 19 * n / 20 < n).
  { split; [apply Z.div_pos; lia |]. apply Z.div_lt_upper_bound; lia. }
  destruct (at_index_in_range (sort_Slice Z.leb (p95 b)) (19 * n / 20) ltac:(lia))
    as (v & -> & _).
  destruct (n mod 20 =? 0) eqn:H20; [eauto |].
  apply Z.eqb_neq in H20.
  assert (Hi1 : 1 <= 19 * n / 20). { apply Z.div_le_lower_bound; lia. }
  destruct (at_index_in_range (sort_Slice Z.leb (p95 b)) (19 * n / 20 - 1) ltac:(lia))
    as (a & -> & _).
  eauto.
Qed.

Lemma Forall2_In_l {A B : Type} (P : A -> B -> Prop) (l : list A) (k : list B) (x : A) :
  Forall2 P l k -> In x l -> exists y, In y k /\ P x y.
Proof.
  induction 1 as [| a b l k Hab _ IH]; intros []; subst.
  - exists b. split; [now left | assumption].
  - destruct IH as (y & Hy & Hxy); [assumption |]. exists y. split; [now right | assumption].
Qed.

Lemma Forall2_In_r {A B : Type} (P : A -> B -> Prop) (l : list A) (k : list B) (y : B) :
  Forall2 P l k -> In y k -> exists x, In x l /\ P x y.
Proof.
  induction 1 as [| a b l k Hab _ IH]; intros []; subst.
  - exists a. split; [now left | assumption].
  - destruct IH as (x & Hx & Hxy); [assumption |]. exists x. split; [now right | assumption].
Qed.

Section FinishFacts.
Context {E : QueryEnv}.

Lemma Run_step_same (context : ParserContext) (log1 log2 : queryInstance) (base : Base) :
  same_counts log1 log2 ->
  fst (Run_step (context, log1) base) = fst (Run_step (context, log2) base) /\
  same_counts (snd (Run_step (context, log1) base)) (snd (Run_step (context, log2) base)).
Proof.
  intros (Hs & He & Hl & Hp). destruct log1 as [s1 o1 e1 l1 p1], log2 as [s2 o2 e2 l2 p2].
  cbn [summary ErrorCount LineCount Patterns] in Hs, He, Hl, Hp. subst s2 e2 l2 p2.
  unfold Run_step.
  destruct (String.eqb (RawMessage base) ""); [now repeat split |].
  destruct (NewEntry context base) as [context' [entry |]]; [| now repeat split].
  destruct (as_CRUD (entry_Message entry)) as [[crud filter] |]; [| now repeat split].
  split; [reflexivity |]. cbn [snd]. unfold aggregate.
  destruct (standardize crud) as [[[ns op] dur] ok].
  destruct (negb ok); [now repeat split |].
  destruct (negb (str_in (StringToLower op) counted_operations)); [now repeat split |].
  destruct (negb (String.eqb (StringToLower op) "") &&
            negb (String.eqb (StringCompact (NewPattern filter)) ""));
    now repeat split.
Qed.

Lemma Run_same (context : ParserContext) (log1 log2 : queryInstance) (input : list Base) :
  same_counts log1 log2 ->
  Patterns (snd (Run context log1 input)) = Patterns (snd (Run context log2 input)).
Proof.
  intros Hsame.
  rewrite (proj1 (Run_fold context log1 input)), (proj1 (Run_fold context log2 input)).
  revert context log1 log2 Hsame.
  induction input as [| base input IH]; intros context log1 log2 Hsame; cbn [fold_left].
  - apply Hsame.
  - destruct (Run_step_same context log1 log2 base Hsame) as [Hc Hs].
    destruct (Run_step (context, log1) base) as [c1 l1].
    destruct (Run_step (context, log2) base) as [c2 l2].
    cbn [fst snd] in *. subst c2. now apply IH.
Qed.

Lemma Run_sort_order (context : ParserContext) (log : queryInstance) (input : list Base) :
  sort_order (snd (Run context log input)) = sort_order log.
Proof.
  rewrite (proj2 (proj2 (proj2 (Run_fold context log input)))).
  change (sort_order log) with (sort_order (snd (context, log))).
  generalize (context, log). clear context log.
  induction input as [| base input IH]; intros st; cbn [fold_left]; [reflexivity |].
  rewrite IH. apply Run_step_counts.
Qed.

(** The rows of [values] stand one for one for the buckets, in the order
    of the map. *)
Lemma values_rows (m : gmap string queryPattern) (rows : list formatting.Pattern) :
  values m = Some rows ->
  Forall2 (fun kv r => exists f, r = with_N95 f (row (snd kv))) (map_to_list m) rows.
Proof.
  unfold values. intros H. apply mapM_Some_1 in H.
  eapply Forall2_impl; [exact H |]. cbn. intros kv r. apply value_of_row.
Qed.

Lemma values_keys (m : gmap string queryPattern) (rows : list formatting.Pattern) :
  (forall key b, m !! key = Some b -> filed key b) ->
  values m = Some rows ->
  NoDup (map bucket_key rows).
Proof.
  intros Hm Hv. apply values_rows in Hv.
  assert (Hkeys : map bucket_key rows = (map_to_list m).*1).
  { assert (Hin : forall kv, kv ∈ map_to_list m -> filed (fst kv) (snd kv)).
    { intros [key b] Hkv. apply elem_of_map_to_list in Hkv. now apply Hm. }
    induction Hv as [| kv r l rows' [f ->] Hv IH]; [reflexivity |].
    cbn [map]. rewrite fmap_cons. f_equal.
    - destruct (Hin kv) as [-> _]; [left |]. reflexivity.
    - apply IH. intros kv' Hkv'. apply Hin. now right. }
  rewrite Hkeys. apply NoDup_fst_map_to_list.
Qed.

End FinishFacts.

Section FinishTheorems.
Context {E : QueryEnv}.
Variable NewSummary : string -> Summary.

(** [Prepare] returns an error exactly when an option is not one of the
    eight names; without one, the chain is the four fields it starts from
    and then the tags of the options, in the order they were given. The
    counts start at zero and no bucket is made. *)
Theorem Prepare_sort_chain (name : string) (opts : list string) :
  let log := fst (Prepare NewSummary name opts) in
  (snd (Prepare NewSummary name opts) = true <->
   forall opt, In opt opts -> exists tag, sort_option opt = Some tag) /\
  (forall tags, mapM sort_option opts = Some tags ->
                sort_order log = default_order ++ tags) /\
  (exists user, sort_order log = default_order ++ user) /\
  ErrorCount log = 0 /\ LineCount log = 0 /\ Patterns log = ∅.
Proof.
  unfold Prepare. pose proof (add_sort_options_spec opts default_order) as H.
  pose proof (mapM_is_Some sort_option opts) as Hall.
  rewrite Forall_forall in Hall.
  destruct (mapM sort_option opts) as [tags |].
  - rewrite H. cbn. repeat split; [| now intros ? [= <-] | now exists tags].
    intros _ opt Hopt. apply (proj1 Hall); [eauto | now apply list_elem_of_In].
  - destruct H as [user ->]. cbn. repeat split; [discriminate | | discriminate | now exists user].
    intros Hopts. destruct (proj2 Hall) as [x Hx]; [| discriminate].
    intros opt Hopt. apply Hopts. now apply list_elem_of_In.
Qed.

(** The sort options do not change the table: whatever options [Prepare]
    was given, [Finish] puts the rows that [Run] gathered in the order of
    the chain without options. *)
Theorem Finish_ignores_sort_options (name : string) (opts : list string)
    (context : ParserContext) (input : list Base) :
  Finish (snd (Run context (fst (Prepare NewSummary name opts)) input)) =
  Finish (snd (Run context (fst (Prepare NewSummary name [])) input)).
Proof.
  set (log1 := fst (Prepare NewSummary name opts)).
  set (log0 := fst (Prepare NewSummary name [])).
  assert (Hsame : same_counts log1 log0).
  { unfold log1, log0, Prepare.
    destruct (add_sort_options opts default_order), (add_sort_options [] default_order).
    repeat split. }
  assert (Horder : exists user, sort_order log1 = default_order ++ user).
  { unfold log1, Prepare. pose proof (add_sort_options_spec opts default_order) as H.
    destruct (mapM sort_option opts) as [tags |].
    - rewrite H. now exists tags.
    - destruct H as [user ->]. now exists user. }
  destruct Horder as [user Horder].
  assert (Hfiled : forall key b,
             Patterns (snd (Run context log0 input)) !! key = Some b -> filed key b).
  { apply Run_filed. intros key b. unfold log0, Prepare. cbn.
    rewrite lookup_empty. discriminate. }
  unfold Finish. rewrite !Run_sort_order, (Run_same context log1 log0 input Hsame), Horder.
  destruct (values (Patterns (snd (Run context log0 input)))) as [vs |] eqn:Hv; [| reflexivity].
  f_equal. change (sort_order log0) with (default_order).
  apply sort_default_user. exact (values_keys _ _ Hfiled Hv).
Qed.

(** [Finish] reads no sample out of range: when no bucket holds [2 ^ 47]
    samples or more, it returns a table with one row for each bucket, the
    row of the bucket with its percentile filled in. *)
Theorem Finish_rows (log : queryInstance) :
  (forall key b, Patterns log !! key = Some b -> Z.of_nat (length (p95 b)) < 2 ^ 47) ->
  exists rows,
    Finish log = Some rows /\
    length rows = size (Patterns log) /\
    (forall r, In r rows ->
       exists key b f, Patterns log !! key = Some b /\ r = with_N95 f (row b)) /\
    (forall key b, Patterns log !! key = Some b ->
       exists f, In (with_N95 f (row b)) rows).
Proof.
  intros Hbound.
  assert (Hsome : exists vs, values (Patterns log) = Some vs).
  { unfold values. apply (proj2 (mapM_is_Some _ _)). apply Forall_forall. intros [key b] Hkv.
    apply elem_of_map_to_list in Hkv. cbn [snd compose].
    destruct (value_of_some b (Hbound key b Hkv)) as [r ->]. eauto. }
  destruct Hsome as [vs Hv]. unfold Finish. rewrite Hv.
  exists (sort vs (sort_order log)). split; [reflexivity |].
  pose proof (values_rows _ _ Hv) as Hrows.
  assert (Hperm : Permutation vs (sort vs (sort_order log))) by apply sort_Slice_Permutation.
  split; [| split].
  - rewrite <- (Permutation_length Hperm), <- (Forall2_length _ _ _ Hrows).
    apply length_map_to_list.
  - intros r Hr. apply (Permutation_in r (Permutation_sym Hperm)) in Hr.
    destruct (Forall2_In_r _ _ _ _ Hrows Hr) as ([key b] & Hkv & f & ->).
    apply list_elem_of_In, elem_of_map_to_list in Hkv. now exists key, b, f.
  - intros key b Hb. apply elem_of_map_to_list, list_elem_of_In in Hb.
    destruct (Forall2_In_l _ _ _ _ Hrows Hb) as (r & Hr & f & ->).
    exists f. now apply (Permutation_in _ Hperm).
Qed.

End FinishTheorems.

Lemma Prepare_sort_chain_witness :
  snd (Prepare (E := fixed_env Control) (fun _ => 0%nat) "mongod.log" ["count"; "95%"]) = true /\
  sort_order (fst (Prepare (E := fixed_env Control) (fun _ => 0%nat) "mongod.log" ["count"; "95%"]))
  = [sortSum; sortNamespace; sortOperation; sortPattern; sortCount; sortN95].
Proof.
  destruct (Prepare_sort_chain (E := fixed_env Control) (fun _ => 0%nat) "mongod.log"
              ["count"; "95%"]) as (Hok & Htags & _).
  split.
  - apply (proj2 Hok). intros opt [<- | [<- | []]]; eexists; reflexivity.
  - apply (Htags [sortCount; sortN95]). reflexivity.
Defined.

Lemma Finish_ignores_sort_options_witness :
  Finish (snd (Run (E := fixed_env (find_message 5)) tt
                 (fst (Prepare (E := fixed_env (find_message 5)) (fun _ => 0%nat)
                         "mongod.log" ["count"; "min"])) two_bases))
  = Finish (snd (Run (E := fixed_env (find_message 5)) tt
                   (fst (Prepare (E := fixed_env (find_message 5)) (fun _ => 0%nat)
                           "mongod.log" [])) two_bases)).
Proof.
  apply (Finish_ignores_sort_options (E := fixed_env (find_message 5)) (fun _ => 0%nat)).
Defined.

Lemma Finish_rows_witness :
  exists rows,
    Finish one_bucket = Some rows /\ length rows = 1%nat.
Proof.
  destruct (Finish_rows one_bucket) as (rows & Hf & Hlen & _).
  - intros key b Hb. unfold one_bucket in Hb. cbn [Patterns with_Patterns] in Hb.
    apply lookup_singleton_Some in Hb as [_ <-]. reflexivity.
  - exists rows. split; [exact Hf |]. rewrite Hlen. apply map_size_singleton.
Defined.

(** * The tokenizer and the log source, further *)

Section NewBaseFacts.
Context {W : WordClasses}.

(** A property of the base that the setters of the slot loop keep is kept
    by the loop. *)
Lemma readSlots_keeps (P : Base -> Prop) :
  (forall b rd, P b -> P (set_reader rd b)) ->
  (forall b s, P b -> P (set_severity s b)) ->
  (forall b c, P b -> P (set_component c b)) ->
  (forall b c, P b -> P (set_context c b)) ->
  forall n base, P base -> P (readSlots n base).
Proof.
  intros Hrd Hsev Hcomp Hctx. induction n as [| n IH]; intros base HP; cbn [readSlots];
    [exact HP |].
  destruct (SlurpWord (reader base)) as [rd [part ok]].
  destruct ok; [| now apply IH, Hrd].
  assert (Hb : P (set_reader rd base)) by now apply Hrd.
  generalize dependent (set_reader rd base). intros b Hb.
  assert (Htry : P (if String.eqb (RawComponent b) "" && IsComponent part
                    then readSlots n (set_component part b)
                    else if String.eqb (RawContext b) "" && has_bracket part
                         then match EnclosedString "]"%char
                                      (reader (set_reader (RewindSlurpWord (reader b)) b)) with
                              | Some (rd', ctx) =>
                                  readSlots n (set_context ctx
                                    (set_reader rd' (set_reader (RewindSlurpWord (reader b)) b)))
                              | None =>
                                  set_reader
                                    (RewindSlurpWord
                                       (reader (set_reader (RewindSlurpWord (reader b)) b)))
                                    (set_reader (RewindSlurpWord (reader b)) b)
                              end
                         else set_reader (RewindSlurpWord (reader b)) b)).
  { destruct (String.eqb (RawComponent b) "" && IsComponent part); [now apply IH, Hcomp |].
    destruct (String.eqb (RawContext b) "" && has_bracket part); [| now apply Hrd].
    destruct (EnclosedString _ _) as [[rd' ctx] |]; [| now apply Hrd, Hrd].
    now apply IH, Hctx, Hrd, Hrd. }
  destruct (severity_is_none (Severity_ b) && String.eqb (RawComponent b) ""
            && String.eqb (RawContext b) ""); [| exact Htry].
  destruct (NewSeverity part) as [sev found]. destruct found; [| exact Htry].
  now apply IH, Hsev.
Qed.

Lemma parseCDateString_keeps (P : Base -> Prop) (r : Base) :
  (forall b rd, P b -> P (set_reader rd b)) -> P r -> P (fst (parseCDateString r)).
Proof.
  intros Hrd HP. unfold parseCDateString.
  destruct (slurp_words 4 (reader r)) as [rd target].
  repeat match goal with |- context [if ?c then _ else _] => destruct c end;
    cbn [fst]; now repeat apply Hrd.
Qed.

Lemma readDate_keeps (P : Base -> Prop) (base : Base) :
  (forall b rd, P b -> P (set_reader rd b)) ->
  (forall b d c, P b -> P (set_date d c b)) ->
  P base -> P (readDate base).
Proof.
  intros Hrd Hdate HP. unfold readDate.
  destruct (IsDay (PreviewWord 1 (reader base))).
  - pose proof (parseCDateString_keeps P base Hrd HP) as H.
    destruct (parseCDateString base) as [b d]. now apply Hdate.
  - destruct (IsIso8601String (PreviewWord 1 (reader base))); [| exact HP].
    destruct (SlurpWord (reader base)) as [rd [w ok]]. now apply Hdate, Hrd.
Qed.

(** The date prefix and the slots leave the line number and the message
    alone, and the date prefix leaves the slots alone. *)
Lemma readDate_slots (line : string) (num : Z) :
  let base1 := readDate (blank_base line num) in
  LineNumber base1 = num /\ RawMessage base1 = "" /\
  Severity_ base1 = SeverityNone /\ RawComponent base1 = "" /\ RawContext base1 = "".
Proof.
  apply (readDate_keeps
           (fun b => LineNumber b = num /\ RawMessage b = "" /\
                     Severity_ b = SeverityNone /\ RawComponent b = "" /\ RawContext b = ""));
    try (intros; assumption). repeat split.
Qed.

Lemma NewBase_unfold (line : string) (num : Z) :
  NewBase line num =
  let base1 := readDate (blank_base line num) in
  if EOL (reader base1) || String.eqb (RawDate base1) "" then (base1, Some ErrorParsingDate)
  else
    let base2 :=
      if ExpectRune "["%char (reader base1) then
        let b :=
          match EnclosedString "]"%char (reader base1) with
          | Some (rd, ctx) => set_context ctx (set_reader rd base1)
          | None => base1
          end in
        set_reader (skipSpaces (reader b)) b
      else readSlots 4 base1 in
    if String.eqb (RawContext base2) "" then (base2, Some ErrorMissingContext)
    else
      (set_reader (Seek (Pos (reader base2)) (fst (Remainder (reader base2))))
         (set_message (snd (Remainder (reader base2))) base2), None).
Proof. reflexivity. Qed.

Lemma drop_min {A : Type} (n : nat) (l : list A) : drop (Nat.min n (length l)) l = drop n l.
Proof.
  destruct (Nat.le_gt_cases n (length l)) as [H | H].
  - now rewrite Nat.min_l.
  - rewrite Nat.min_r by lia. rewrite !drop_ge by lia. reflexivity.
Qed.

(** What [NewBase] returns: the line number is the one it was given; a
    base without an error has a date and a context, and its message is the
    text left under the cursor; a base with an error has no message, and a
    base with a date error has none of severity, component and context. *)
Lemma NewBase_returns (line : string) (num : Z) :
  let base := fst (NewBase line num) in
  let err := snd (NewBase line num) in
  LineNumber base = num /\
  (err = None ->
   RawDate base <> "" /\ RawContext base <> "" /\
   RawMessage base = string_of_list_ascii (upcoming (reader base))) /\
  (err <> None -> RawMessage base = "") /\
  (err = Some ErrorParsingDate ->
   Severity_ base = SeverityNone /\ RawComponent base = "" /\ RawContext base = "").
Proof.
  rewrite NewBase_unfold. cbv zeta.
  destruct (readDate_slots line num) as (Hn & Hm & Hs & Hc & Hx).
  set (base1 := readDate (blank_base line num)) in *.
  destruct (EOL (reader base1) || String.eqb (RawDate base1) "") eqn:Hdate; cbn [fst snd].
  { split; [assumption |]. split; [discriminate |].
    split; [intros _; assumption | intros _; now repeat split]. }
  apply orb_false_elim in Hdate as [_ Hdate]. apply String.eqb_neq in Hdate.
  match goal with
  | |- context [String.eqb (RawContext ?b) ""] => set (base2 := b)
  end.
  assert (H2 : LineNumber base2 = num /\ RawMessage base2 = "" /\ RawDate base2 = RawDate base1).
  { unfold base2. destruct (ExpectRune "["%char (reader base1)).
    - destruct (EnclosedString "]"%char (reader base1)) as [[rd ctx] |]; now repeat split.
    - apply (readSlots_keeps
               (fun b => LineNumber b = num /\ RawMessage b = "" /\ RawDate b = RawDate base1));
        try (intros; assumption). now repeat split. }
  destruct H2 as (Hn2 & Hm2 & Hd2).
  destruct (String.eqb_spec (RawContext base2) "") as [Hctx | Hctx]; cbn [fst snd].
  { split; [assumption |]. split; [discriminate |].
    split; [intros _; assumption | discriminate]. }
  split; [exact Hn2 |]. split; [| split; [congruence | discriminate]].
  intros _. cbn. rewrite Hd2. repeat split; try assumption.
  f_equal. unfold upcoming. cbn. now rewrite drop_min.
Qed.

End NewBaseFacts.

Section NewBaseTheorems.
Context {W : WordClasses}.

(** What [NewBase] returns: the line number is the one it was given; a
    base without an error has a date and a context, and its message is the
    text left under the cursor; a base with an error has no message, and a
    base with a date error has none of severity, component and context. *)
Theorem NewBase_outcome (line : string) (num : Z) :
  let base := fst (NewBase line num) in
  let err := snd (NewBase line num) in
  LineNumber base = num /\
  (err = None ->
   RawDate base <> "" /\ RawContext base <> "" /\
   RawMessage base = string_of_list_ascii (upcoming (reader base))) /\
  (err <> None -> RawMessage base = "") /\
  (err = Some ErrorParsingDate ->
   Severity_ base = SeverityNone /\ RawComponent base = "" /\ RawContext base = "").
Proof. apply NewBase_returns. Qed.

Lemma IsComponent_not_empty (part : string) : IsComponent part = true -> part <> "".
Proof. now intros H ->. Qed.

Lemma EnclosedString_not_empty (close : ascii) (r rd : RuneReader) (ctx : string) :
  EnclosedString close r = Some (rd, ctx) -> ctx <> "".
Proof.
  unfold EnclosedString.
  destruct (span (fun c => negb (Ascii.eqb c close)) (chomp (upcoming r))) as [body after].
  destruct after as [| c after']; [discriminate |]. intros [= _ <-].
  destruct body; discriminate.
Qed.

(** Once a component or a context is set, the slot loop sets no
    severity. *)
Lemma readSlots_locked (n : nat) (base : Base) :
  RawComponent base <> "" \/ RawContext base <> "" ->
  Severity_ (readSlots n base) = Severity_ base.
Proof.
  revert base. induction n as [| n IH]; intros base Hset; cbn [readSlots]; [reflexivity |].
  destruct (SlurpWord (reader base)) as [rd [part ok]].
  destruct ok; [| now rewrite IH].
  assert (Hnot : severity_is_none (Severity_ (set_reader rd base)) &&
                 String.eqb (RawComponent (set_reader rd base)) "" &&
                 String.eqb (RawContext (set_reader rd base)) "" = false).
  { cbn. destruct Hset as [H | H]; apply String.eqb_neq in H; rewrite H;
      [now rewrite andb_false_r | apply andb_false_r]. }
  rewrite Hnot. cbn [RawComponent RawContext reader set_reader].
  destruct (String.eqb (RawComponent base) "" && IsComponent part) eqn:Hcomp.
  { rewrite IH; [reflexivity |]. left. cbn.
    apply andb_prop in Hcomp as [_ Hcomp]. now apply IsComponent_not_empty. }
  destruct (String.eqb (RawContext base) "" && has_bracket part); [| reflexivity].
  destruct (EnclosedString _ _) as [[rd' ctx] |] eqn:Henc; [| reflexivity].
  rewrite IH; [reflexivity |]. right. cbn. exact (EnclosedString_not_empty _ _ _ _ Henc).
Qed.

Lemma SlurpWord_failed (r : RuneReader) :
  snd (snd (SlurpWord r)) = false ->
  fst (snd (SlurpWord r)) = "" /\ upcoming (fst (SlurpWord r)) = [].
Proof.
  unfold SlurpWord. destruct (chomp (upcoming r)) as [| c rest] eqn:Hc.
  - intros _. split; [reflexivity |]. unfold upcoming. cbn. now rewrite drop_all.
  - destruct (span _ (c :: rest)). discriminate.
Qed.

Lemma readSlots_at_end (n : nat) (base : Base) :
  upcoming (reader base) = [] -> Severity_ (readSlots n base) = Severity_ base.
Proof.
  revert base. induction n as [| n IH]; intros base Hend; cbn [readSlots]; [reflexivity |].
  assert (Hfail : snd (snd (SlurpWord (reader base))) = false).
  { unfold SlurpWord. now rewrite Hend. }
  destruct (SlurpWord_failed _ Hfail) as [_ Hup].
  destruct (SlurpWord (reader base)) as [rd [part ok]]. cbn [fst snd] in *. subst ok.
  now rewrite IH.
Qed.

Lemma readSlots_first (n : nat) (base : Base) :
  Severity_ base = SeverityNone -> RawComponent base = "" -> RawContext base = "" ->
  snd (NewSeverity (PreviewWord 1 (reader base))) = false ->
  Severity_ (readSlots (S n) base) = SeverityNone.
Proof.
  intros Hs Hc Hx Hword. cbn [readSlots]. cbn [PreviewWord] in Hword.
  destruct (SlurpWord (reader base)) as [rd [part ok]] eqn:Hslurp.
  cbn [fst snd] in Hword. destruct ok.
  - cbn [Severity_ RawComponent RawContext set_reader reader]. rewrite Hs, Hc, Hx.
    cbn [severity_is_none String.eqb andb].
    destruct (NewSeverity part) as [sev found]. cbn [snd] in Hword. subst found.
    destruct (IsComponent part) eqn:Hcomp.
    { rewrite readSlots_locked; [exact Hs |]. left. cbn.
      now apply IsComponent_not_empty. }
    destruct (has_bracket part); [| exact Hs].
    destruct (EnclosedString _ _) as [[rd' ctx] |] eqn:Henc; [| exact Hs].
    rewrite readSlots_locked; [exact Hs |]. right. cbn.
    exact (EnclosedString_not_empty _ _ _ _ Henc).
  - rewrite readSlots_at_end; [exact Hs |]. cbn.
    pose proof (SlurpWord_failed (reader base)) as Hf. rewrite Hslurp in Hf.
    now apply Hf.
Qed.

(** The slot loop takes a severity only from the first word after the
    date: when that word is no severity, the base has none, and the
    [Check] of each of the four version parsers turns the line down. So
    does a line whose context comes first. *)
Theorem Check_needs_leading_severity (line : string) (num : Z) :
  let base1 := readDate (blank_base line num) in
  snd (NewSeverity (PreviewWord 1 (reader base1))) = false ->
  let base := fst (NewBase line num) in
  Severity_ base = SeverityNone /\
  Version34Parser_Check base = false /\ Version30SParser_Check base = false /\
  Version36Parser_Check base = false /\ Version40Parser_Check base = false.
Proof.
  intros base1 Hword base.
  assert (Hs : Severity_ base = SeverityNone).
  { unfold base. rewrite NewBase_unfold. cbv zeta.
    destruct (readDate_slots line num) as (_ & _ & Hs & Hc & Hx).
    fold base1 in Hs, Hc, Hx |- *.
    destruct (EOL (reader base1) || String.eqb (RawDate base1) ""); [exact Hs |].
    pose proof (readSlots_first 3 base1 Hs Hc Hx Hword) as Hslots.
    destruct (ExpectRune "["%char (reader base1)).
    - destruct (EnclosedString "]"%char (reader base1)) as [[rd ctx] |];
        match goal with |- context [String.eqb ?c ""] => destruct (String.eqb c "") end;
        exact Hs.
    - destruct (String.eqb (RawContext (readSlots 4 base1)) ""); exact Hslots. }
  unfold Version34Parser_Check, Version30SParser_Check, Version36Parser_Check,
    Version40Parser_Check. rewrite Hs. cbn. rewrite andb_false_r. now repeat split.
Qed.

Lemma SlurpWord_blank (r : RuneReader) :
  chomp (upcoming r) = [] ->
  snd (SlurpWord r) = ("", false) /\ EOL (fst (SlurpWord r)) = true /\
  upcoming (fst (SlurpWord r)) = [].
Proof.
  intros Hblank. unfold SlurpWord. rewrite Hblank. cbn. repeat split.
  - apply Nat.leb_refl.
  - unfold upcoming. cbn. now rewrite drop_all.
Qed.

(** A line with no word on it, an empty one or one of white space only,
    is a date error, whatever the word classes make of the empty word. *)
Theorem blank_line_is_date_error (line : string) (num : Z) :
  chomp (list_ascii_of_string line) = [] ->
  snd (NewBase line num) = Some ErrorParsingDate /\
  RawMessage (fst (NewBase line num)) = "" /\
  RawContext (fst (NewBase line num)) = "".
Proof.
  intros Hblank.
  assert (Hup : chomp (upcoming (NewRuneReader line)) = []).
  { unfold upcoming, NewRuneReader. cbn. now rewrite drop_0. }
  destruct (SlurpWord_blank _ Hup) as (Hw & Heol & _).
  assert (Hdate : EOL (reader (readDate (blank_base line num))) = true \/
                  RawDate (readDate (blank_base line num)) = "").
  { unfold readDate. cbn [PreviewWord blank_base reader].
    destruct (IsDay (fst (snd (SlurpWord (NewRuneReader line))))).
    - unfold parseCDateString. cbn [slurp_words reader blank_base].
      destruct (SlurpWord (NewRuneReader line)) as [r1 [w ok]]. cbn [fst snd] in *.
      injection Hw as -> ->. cbn [repeat word nth].
      repeat match goal with |- context [if ?c then _ else _] => destruct c end;
        cbn; auto.
    - destruct (IsIso8601String (fst (snd (SlurpWord (NewRuneReader line))))).
      + destruct (SlurpWord (NewRuneReader line)) as [r1 [w ok]]. cbn [fst snd] in *.
        injection Hw as -> ->. now right.
      + now right. }
  destruct (readDate_slots line num) as (_ & Hm & _ & _ & Hx).
  rewrite NewBase_unfold. cbv zeta.
  set (base1 := readDate (blank_base line num)) in *.
  assert (Hif : EOL (reader base1) || String.eqb (RawDate base1) "" = true).
  { destruct Hdate as [-> | ->]; [reflexivity | apply orb_true_r]. }
  rewrite Hif. now repeat split.
Qed.

End NewBaseTheorems.

Section RunOnBases.
Context {W : WordClasses} {E : QueryEnv}.

(** A line that [NewBase] returns with an error is counted by [Run] as a
    line and as an error, and is not handed to the parser context. *)
Theorem Run_step_rejected_line (context : ParserContext) (log : queryInstance)
    (line : string) (num : Z) :
  snd (NewBase line num) <> None ->
  Run_step (context, log) (fst (NewBase line num)) = (context, count_error (count_line log)).
Proof.
  intros Herr. unfold Run_step.
  destruct (NewBase_returns line num) as (_ & _ & Hmsg & _).
  cbv zeta in Hmsg. rewrite (Hmsg Herr). reflexivity.
Qed.

End RunOnBases.

Lemma NewBase_outcome_witness :
  RawDate (fst (NewBase ctime_command_line 7)) <> "" /\
  RawContext (fst (NewBase ctime_command_line 7)) <> "" /\
  RawMessage (fst (NewBase ctime_command_line 7)) =
  string_of_list_ascii (upcoming (reader (fst (NewBase ctime_command_line 7)))) /\
  RawMessage (fst (NewBase "Sun Jan 02 15:04:05 I COMMAND" 8)) = "".
Proof.
  destruct (NewBase_outcome ctime_command_line 7) as (_ & Hok & _).
  destruct (NewBase_outcome "Sun Jan 02 15:04:05 I COMMAND" 8) as (_ & _ & Herr & _).
  destruct (Hok eq_refl) as (Hd & Hc & Hm).
  split; [exact Hd |]. split; [exact Hc |]. split; [exact Hm |].
  apply Herr. vm_compute. discriminate.
Defined.

Lemma Check_needs_leading_severity_witness :
  RawContext (fst (NewBase context_first_line 1)) = "[conn1]" /\
  Version36Parser_Check (fst (NewBase context_first_line 1)) = false /\
  Version40Parser_Check (fst (NewBase context_first_line 1)) = false.
Proof.
  split; [reflexivity |].
  destruct (Check_needs_leading_severity context_first_line 1) as (_ & _ & _ & H36 & H40).
  - reflexivity.
  - split; assumption.
Defined.

Lemma blank_line_is_date_error_witness :
  snd (NewBase "   " 3) = Some ErrorParsingDate.
Proof. apply (blank_line_is_date_error "   " 3). reflexivity. Defined.

Lemma Run_step_rejected_line_witness :
  Run_step (E := fixed_env (find_message 5))
    (tt, empty_instance (E := fixed_env (find_message 5)) 0%nat) (fst (NewBase "" 1))
  = (tt, count_error (count_line (empty_instance (E := fixed_env (find_message 5)) 0%nat))).
Proof.
  apply (Run_step_rejected_line (E := fixed_env (find_message 5))). vm_compute. discriminate.
Defined.

(** ** The log source *)

Section LogTheorems.
Context {W : WordClasses} {C : Type} {closer : Closer C}.

Lemma wrapU64_1 : wrapU64 (0 + 1) = 1.
Proof. reflexivity. Qed.

Lemma read_all_open (fuel : nat) (f : source.Log C) :
  source.eof f = false -> source.closed f = false ->
  (length (source.Scanner f) < fuel)%nat ->
  snd (source.read_all fuel f) = map (seen (wrapU64 (source.line f + 1))) (source.Scanner f) /\
  source.Scanner (fst (source.read_all fuel f)) = [] /\
  source.line (fst (source.read_all fuel f)) = source.line f /\
  source.Get (fst (source.read_all fuel f)) = (None, Some source.EOF).
Proof.
  revert f. induction fuel as [| fuel IH]; intros f Heof Hclosed Hlen; [lia |].
  cbn [source.read_all]. unfold source.Next, source.get, source.isClosed.
  rewrite Heof, Hclosed. cbn [negb andb].
  destruct (source.Scanner f) as [| text rest] eqn:Hscan.
  - cbn. repeat split.
  - cbn [length] in Hlen.
    destruct (NewBase text (wrapU64 (source.line f + 1))) as [base err] eqn:Hbase.
    assert (Hmore : negb (source.is_EOF (source.ErrorBase <$> err)) = true)
      by now destruct err.
    rewrite Hmore.
    match goal with
    | |- context [source.read_all fuel ?g] =>
        destruct (IH g) as (Hseen & Hsc & Hline & Hget); [reflexivity | reflexivity | cbn; lia |];
        destruct (source.read_all fuel g) as [f2 rows]
    end.
    cbn [fst snd source.Scanner source.line] in *.
    split; [| now repeat split].
    cbn [map]. f_equal; [| exact Hseen].
    unfold source.Get, seen. cbn. now rewrite Hbase.
Qed.

(** Reading a log to its end: the reader sees every line of the file, in
    order, each as [NewBase] returns it, and a line that [NewBase] returns
    with an error does not end the reading. Each line is numbered 1: the
    count of lines is kept in the copy of the [Log] that [get] works on,
    and the [Log] itself stays at zero. *)
Theorem Log_reads_every_line (base : C) (lines : list string) (fuel : nat) :
  (length lines < fuel)%nat ->
  let f := fst (source.read_all fuel (source.NewLog base lines)) in
  snd (source.read_all fuel (source.NewLog base lines)) = map (seen 1) lines /\
  source.line f = 0 /\
  source.Get f = (None, Some source.EOF) /\
  snd (source.Next f) = false.
Proof.
  intros Hlen f.
  destruct (read_all_open fuel (source.NewLog base lines) eq_refl eq_refl Hlen)
    as (Hseen & Hsc & Hline & Hget).
  fold f in Hsc, Hline, Hget. split; [exact Hseen |]. split; [exact Hline |].
  split; [exact Hget |].
  unfold source.Next, source.get. rewrite Hsc.
  destruct (negb (source.eof f) && negb (source.isClosed f)); reflexivity.
Qed.

(** [Close] closes the file once. After it, [Next] reports the end of the
    log and takes no line from the scanner, and a second [Close] returns
    no error and does not touch the file. *)
Theorem Close_ends_the_log (f : source.Log C) :
  let f1 := fst (source.Close f) in
  source.closed f1 = true /\
  (source.closed f = false ->
   source.Closer_ f1 = fst (Closer_Close (source.Closer_ f)) /\
   snd (source.Close f) = snd (Closer_Close (source.Closer_ f))) /\
  (source.closed f = true -> source.Close f = (f, None)) /\
  source.Close f1 = (f1, None) /\
  snd (source.Next f1) = false /\
  source.Get (fst (source.Next f1)) = (None, Some source.EOF) /\
  source.Scanner (fst (source.Next f1)) = source.Scanner f.
Proof.
  unfold source.Close. destruct (source.closed f) eqn:Hclosed; cbn [negb].
  - cbn [fst]. rewrite Hclosed. cbn [negb].
    unfold source.Next, source.get, source.isClosed. rewrite Hclosed.
    rewrite andb_false_r. cbn. repeat split; congruence.
  - destruct (Closer_Close (source.Closer_ f)) as [c err]. cbn [fst snd source.closed negb].
    unfold source.Next, source.get, source.isClosed. cbn [source.closed source.eof negb].
    rewrite andb_false_r. cbn. repeat split; congruence.
Qed.

End LogTheorems.

Lemma Log_reads_every_line_witness :
  snd (source.read_all 3 (source.NewLog 0%nat [ctime_command_line; ""])) =
    [seen 1 ctime_command_line; seen 1 ""] /\
  option_map LineNumber (fst (seen 1 ctime_command_line)) = Some 1 /\
  snd (seen 1 "") = Some (source.ErrorBase ErrorParsingDate).
Proof.
  destruct (Log_reads_every_line 0%nat [ctime_command_line; ""] 3) as (Hseen & _).
  - cbn. lia.
  - split; [exact Hseen |]. split; reflexivity.
Defined.

Lemma Close_ends_the_log_witness :
  let f := source.NewLog 0%nat [ctime_command_line] in
  source.Closer_ (fst (source.Close f)) = 1%nat /\
  source.Closer_ (fst (source.Close (fst (source.Close f)))) = 1%nat /\
  snd (source.Next (fst (source.Close f))) = false.
Proof.
  intros f. destruct (Close_ends_the_log f) as (_ & Hfirst & _ & Hagain & Hnext & _).
  destruct (Hfirst eq_refl) as [Hc _].
  split; [exact Hc |]. split; [| exact Hnext].
  rewrite Hagain. exact Hc.
Defined.

(** ** The components the version parsers expect *)

Lemma str_in_In (k : string) (l : list string) : str_in k l = true <-> In k l.
Proof.
  unfold str_in. rewrite existsb_exists. split.
  - intros (x & Hx & Heq). apply String.eqb_eq in Heq. now subst.
  - intros Hk. exists k. split; [exact Hk | apply String.eqb_refl].
Qed.

(** From one version to the next the parsers expect more components and
    drop none. The 3.6 parser expects those of the 3.4 parser and
    [HEARTBEATS], [REPL_HB] and [ROLLBACK], which the 3.4 parser does not
    expect, and no other; the 4.0 parser expects those of the 3.6 parser
    and [CONNPOOL], which the 3.6 parser does not expect, and no other. *)
Theorem expected_components_grow (c : string) :
  (Version36Parser_expectedComponents c = true <->
   Version34Parser_isExpectedComponent c = true \/ In c ["HEARTBEATS"; "REPL_HB"; "ROLLBACK"]) /\
  (In c ["HEARTBEATS"; "REPL_HB"; "ROLLBACK"] -> Version34Parser_isExpectedComponent c = false) /\
  (Version40Parser_expectedComponents c = true <->
   Version36Parser_expectedComponents c = true \/ c = "CONNPOOL") /\
  (c = "CONNPOOL" -> Version36Parser_expectedComponents c = false) /\
  (Version34Parser_isExpectedComponent c = true -> Version36Parser_expectedComponents c = true) /\
  (Version36Parser_expectedComponents c = true -> Version40Parser_expectedComponents c = true).
Proof.
  assert (H36 : Version36Parser_expectedComponents c = true <->
                Version34Parser_isExpectedComponent c = true \/
                In c ["HEARTBEATS"; "REPL_HB"; "ROLLBACK"]).
  { unfold Version34Parser_isExpectedComponent, Version36Parser_expectedComponents.
    rewrite !str_in_In. cbn [In]. intuition auto. }
  assert (H40 : Version40Parser_expectedComponents c = true <->
                Version36Parser_expectedComponents c = true \/ c = "CONNPOOL").
  { unfold Version36Parser_expectedComponents, Version40Parser_expectedComponents.
    rewrite !str_in_In. cbn [In]. intuition auto. }
  split; [exact H36 |]. split; [| split; [exact H40 |]]; [| split; [| split]].
  - intros [<- | [<- | [<- | []]]]; reflexivity.
  - intros ->. reflexivity.
  - intros H. apply H36. now left.
  - intros H. apply H40. now left.
Qed.

Lemma expected_components_grow_witness :
  Version36Parser_expectedComponents "COMMAND" = true /\
  Version36Parser_expectedComponents "REPL_HB" = true /\
  Version34Parser_isExpectedComponent "REPL_HB" = false /\
  Version40Parser_expectedComponents "CONNPOOL" = true /\
  Version36Parser_expectedComponents "CONNPOOL" = false.
Proof.
  split; [| split; [| split; [| split]]].
  - apply (proj1 (proj2 (proj2 (proj2 (proj2 (expected_components_grow "COMMAND")))))).
    reflexivity.
  - apply (proj2 (proj1 (expected_components_grow "REPL_HB"))). right. right. now left.
  - apply (proj1 (proj2 (expected_components_grow "REPL_HB"))). right. now left.
  - apply (proj2 (proj1 (proj2 (proj2 (expected_components_grow "CONNPOOL"))))). now right.
  - apply (proj1 (proj2 (proj2 (proj2 (expected_components_grow "CONNPOOL"))))). reflexivity.
Defined.
